(** * Shot plotting pipeline: field access, time normalisation, trimming,
      dual-axis alignment and comparison styling

    Shallow embedding of the pure core of [plot_met.py] and [shot_viewer.py].
    Python floats are IEEE-754 binary64 values, modelled with the executable
    specification [SpecFloat] (53-bit mantissa, exponent bound 1024).  Python
    exceptions are modelled by an error monad.  Each definition carries the
    name of the Python function it embeds. *)

From Stdlib Require Import ZArith List String Bool Lia Permutation Sorted.
From Stdlib Require Import Floats.SpecFloat.
From Stdlib Require Import QArith Qcanon.
Import ListNotations.
Local Open Scope string_scope.
Local Open Scope list_scope.
Local Open Scope nat_scope.
#[local] Set Warnings "-register-all".

(** ** Python runtime: exceptions *)

Inductive exn : Type :=
| TypeError
| ValueError
| OverflowError
| AttributeError.

Inductive result (A : Type) : Type :=
| Ok (a : A)
| Raise (e : exn).
Arguments Ok {A} a.
Arguments Raise {A} e.

Definition bind {A B : Type} (m : result A) (k : A -> result B) : result B :=
  match m with
  | Ok a => k a
  | Raise e => Raise e
  end.

Notation "x <- m ;; k" := (bind m (fun x => k))
  (at level 61, m at next level, right associativity).
Notation "' p <- m ;; k" := (bind m (fun p => k))
  (at level 61, p pattern, m at next level, right associativity).

(** A list comprehension or [for] loop whose body may raise: elements are
    evaluated left to right and the first exception aborts the whole loop. *)
Fixpoint mapM {A B : Type} (f : A -> result B) (l : list A) : result (list B) :=
  match l with
  | [] => Ok []
  | a :: l' => b <- f a ;; bs <- mapM f l' ;; Ok (b :: bs)
  end.

(** [try: body  except (TypeError, ValueError): handler] *)
Definition try_except_type_value {A : Type} (body : result A) (handler : result A)
  : result A :=
  match body with
  | Raise TypeError | Raise ValueError => handler
  | other => other
  end.

Definition raises {A : Type} (m : result A) : Prop := exists e, m = Raise e.

(** ** Python floats (binary64) *)

Definition float : Type := spec_float.

Definition prec : Z := 53.
Definition emax : Z := 1024.

Definition f_of_Z (z : Z) : float := binary_normalize prec emax z 0 false.
Definition f_nan : float := S754_nan.
Definition f_inf : float := S754_infinity false.
Definition f_neg : float -> float := SFopp.
Definition f_abs : float -> float := SFabs.
Definition f_sub : float -> float -> float := SFsub prec emax.
Definition f_mul : float -> float -> float := SFmul prec emax.
Definition f_div : float -> float -> float := SFdiv prec emax.
Definition f_ltb : float -> float -> bool := SFltb.
Definition f_leb : float -> float -> bool := SFleb.
Definition f_eqb : float -> float -> bool := SFeqb.
Definition f_gtb (x y : float) : bool := f_ltb y x.
Definition f_geb (x y : float) : bool := f_leb y x.

(** The literals [0.0], [1.0], [5], [1.5] and [1.0 / 1000.0].  The sources
    compare floats with the [int] literals [0] and [5]; Python compares an
    [int] with a [float] exactly, and both are exact as doubles. *)
Definition f_zero : float := S754_zero false.
Definition f_one : float := f_of_Z 1.
Definition f_five : float := f_of_Z 5.
Definition f_milli : float := f_div (f_of_Z 1) (f_of_Z 1000).
Definition f_1_5 : float := f_div (f_of_Z 3) (f_of_Z 2).

Definition is_nan (x : float) : bool :=
  match x with S754_nan => true | _ => false end.

Definition is_finite (x : float) : bool :=
  match x with S754_zero _ | S754_finite _ _ _ => true | _ => false end.

(** [float(n)] for a Python [int]: correctly rounded, and [OverflowError]
    when the rounded magnitude is not a finite double. *)
Definition float_of_int (z : Z) : result float :=
  match f_of_Z z with
  | S754_infinity _ => Raise OverflowError
  | f => Ok f
  end.

(** ** JSON documents as [json.load] returns them *)

Inductive json : Type :=
| JNull
| JBool (b : bool)
| JInt (z : Z)
| JFloat (f : float)
| JStr (s : string)
| JList (l : list json)
| JDict (d : list (string * json)).

(** [k in d] and [d[k]] on a dict given as its list of items (the keys of a
    parsed object are distinct). *)
Fixpoint dict_get {V : Type} (d : list (string * V)) (k : string) : option V :=
  match d with
  | [] => None
  | (k', v) :: d' => if String.eqb k k' then Some v else dict_get d' k
  end.

(** [d.get(k, default)] *)
Definition dict_get_default {V : Type} (d : list (string * V)) (k : string) (default : V) : V :=
  match dict_get d k with
  | Some v => v
  | None => default
  end.

Section Pipeline.

(** [float(s)] for a [str] is the interpreter's numeric-literal parser; it is
    a parameter of the development.  [None] stands for [ValueError]. *)
Variable float_of_str : string -> option float.

(** The builtin [float(v)] on a value coming from a JSON document. *)
Definition py_float (v : json) : result float :=
  match v with
  | JNull => Raise TypeError
  | JBool b => Ok (if b then f_one else f_zero)
  | JInt z => float_of_int z
  | JFloat f => Ok f
  | JStr s => match float_of_str s with
              | Some f => Ok f
              | None => Raise ValueError
              end
  | JList _ => Raise TypeError
  | JDict _ => Raise TypeError
  end.

(** ** Field accessor: [safe_get] (shot_viewer.py) and [_safe_get] (plot_met.py) *)

Fixpoint safe_get (d : json) (path : list string) (default : json) : json :=
  match path with
  | [] => d
  | k :: path' =>
      match d with
      | JDict items =>
          match dict_get items k with
          | Some v => safe_get v path' default
          | None => default
          end
      | _ => default
      end
  end.

Fixpoint _safe_get (d : json) (path : list string) (default : json) : json :=
  match path with
  | [] => d
  | k :: path' =>
      match d with
      | JDict items =>
          match dict_get items k with
          | Some v => _safe_get v path' default
          | None => default
          end
      | _ => default
      end
  end.

(** ** Time normaliser: [infer_time_scale] and [_infer_time_scale_ms_to_s] *)

(** [[abs(times_raw[i] - times_raw[i - 1]) for i in range(1, len(times_raw))]] *)
Fixpoint consecutive_deltas (times_raw : list float) : list float :=
  match times_raw with
  | [] => []
  | prev :: rest =>
      match rest with
      | [] => []
      | cur :: _ => f_abs (f_sub cur prev) :: consecutive_deltas rest
      end
  end.

(** The builtin [sorted] on floats: a stable sort that only uses [<]. *)
Fixpoint sorted_insert (x : float) (l : list float) : list float :=
  match l with
  | [] => [x]
  | y :: l' => if f_ltb y x then y :: sorted_insert x l' else x :: y :: l'
  end.

Definition sorted (l : list float) : list float :=
  fold_right sorted_insert [] l.

Definition positive_deltas (times_raw : list float) : list float :=
  filter (fun d => f_gtb d f_zero) (consecutive_deltas times_raw).

Definition infer_time_scale (times_raw : list float) : float :=
  if List.length times_raw <? 2 then f_one
  else
    let deltas := consecutive_deltas times_raw in
    let deltas := filter (fun d => f_gtb d f_zero) deltas in
    match deltas with
    | [] => f_one
    | _ =>
        let deltas_sorted := sorted deltas in
        let med := nth (List.length deltas_sorted / 2) deltas_sorted f_nan in
        if f_geb med f_five then f_milli else f_one
    end.

Definition _infer_time_scale_ms_to_s (times_raw : list float) : float :=
  if List.length times_raw <? 2 then f_one
  else
    let deltas := consecutive_deltas times_raw in
    let deltas := filter (fun d => f_gtb d f_zero) deltas in
    match deltas with
    | [] => f_one
    | _ =>
        let deltas_sorted := sorted deltas in
        let med := nth (List.length deltas_sorted / 2) deltas_sorted f_nan in
        if f_geb med f_five then f_milli
        else f_one
    end.

(** [[(t - t0) * scale for t in times_raw]] with [t0 = times_raw[0]] (or [0.0]
    for an empty list). *)
Definition elapsed_times (times_raw : list float) (scale : float) : list float :=
  let t0 := match times_raw with t :: _ => t | [] => f_zero end in
  map (fun t => f_mul (f_sub t t0) scale) times_raw.

(** The normaliser as both loaders run it: the scale is inferred from the
    raw times themselves. *)
Definition normalize (times_raw : list float) : list float :=
  elapsed_times times_raw (infer_time_scale times_raw).

(** [float(r.get("time", 0.0))]: [r.get] needs a dict. *)
Definition record_time (r : json) : result float :=
  match r with
  | JDict items => py_float (dict_get_default items "time" (JFloat f_zero))
  | _ => Raise AttributeError
  end.

(** ** [ShotData] (shot_viewer.py) *)

Record ShotData : Type := {
  short_name : string;
  records : list json;
  time_s : list float
}.

(** The part of [ShotData._load] that follows the check of the document:
    it builds the time series from [doc["data"]]. *)
Definition ShotData_load (stem : string) (data : list json) : result ShotData :=
  times_raw <- mapM record_time data ;;
  let scale := infer_time_scale times_raw in
  Ok {| short_name := stem;
        records := data;
        time_s := elapsed_times times_raw scale |}.

Definition get_series_sample (r : json) (path : list string) : result float :=
  let val := safe_get r path (JFloat f_nan) in
  try_except_type_value
    (match val with
     | JNull => Ok f_nan
     | _ => py_float val
     end)
    (Ok f_nan).

Definition get_series (self : ShotData) (path : list string) : result (list float) :=
  mapM (fun r => get_series_sample r path) (records self).

(** ** Series builder of plot_met.py: [build_series] *)

Record Series : Type := {
  series_time_s : list float;
  series_pressure : list float;
  series_flow : list float;
  series_motor_speed : list float;
  series_motor_power : list float;
  series_goal_pressure : list float;
  series_goal_flow : list float;
  series_goal_power : list float;
  series_active : list json
}.

(** [float(sp[k]) if k in sp and sp[k] is not None else float("nan")] *)
Definition goal_value (sp : list (string * json)) (k : string) : result float :=
  match dict_get sp k with
  | Some JNull => Ok f_nan
  | Some v => py_float v
  | None => Ok f_nan
  end.

(** One iteration of the goals loop of [build_series]. *)
Definition build_goals_step (r : json) : result (json * (float * float * float)) :=
  let sp := _safe_get r ["shot"; "setpoints"] (JDict []) in
  let sp := match sp with JDict items => items | _ => [] end in
  let active := dict_get_default sp "active" JNull in
  gp <- goal_value sp "pressure" ;;
  gf <- goal_value sp "flow" ;;
  gw <- goal_value sp "power" ;;
  Ok (active, (gp, gf, gw)).

Definition build_series (records : list json) : result Series :=
  times_raw <- mapM record_time records ;;
  let to_seconds := _infer_time_scale_ms_to_s times_raw in
  let x := elapsed_times times_raw to_seconds in
  pressure <- mapM (fun r => py_float (_safe_get r ["shot"; "pressure"] (JFloat f_nan))) records ;;
  flow <- mapM (fun r => py_float (_safe_get r ["shot"; "flow"] (JFloat f_nan))) records ;;
  motor_speed <- mapM (fun r => py_float (_safe_get r ["sensors"; "motor_speed"] (JFloat f_nan))) records ;;
  motor_power <- mapM (fun r => py_float (_safe_get r ["sensors"; "motor_power"] (JFloat f_nan))) records ;;
  goals <- mapM build_goals_step records ;;
  Ok {| series_time_s := x;
        series_pressure := pressure;
        series_flow := flow;
        series_motor_speed := motor_speed;
        series_motor_power := motor_power;
        series_goal_pressure := map (fun g => fst (fst (snd g))) goals;
        series_goal_flow := map (fun g => snd (fst (snd g))) goals;
        series_goal_power := map (fun g => snd (snd g)) goals;
        series_active := map fst goals |}.

(** ** Comparison overlay of [ShotViewerFrame._update_plot] *)

(** A colour is a string given by a style override, or an entry of the
    ten-colour default palette [plt.cm.tab10.colors]. *)
Inductive color : Type :=
| ColorStr (s : string)
| Tab10 (k : nat).

(** A per-field style dict; every key is optional. *)
Record Style : Type := {
  style_color : option string;
  style_linestyle : option string;
  style_linewidth : option float
}.

Definition empty_style : Style :=
  {| style_color := None; style_linestyle := None; style_linewidth := None |}.

(** One call of [target_ax.plot(x, y, label=, color=, linewidth=, linestyle=)]. *)
Record Line : Type := {
  line_x : list float;
  line_y : list float;
  line_label : string;
  line_color : color;
  line_linewidth : float;
  line_linestyle : string;
  line_secondary : bool
}.

(** [style.get("color") or colors[i % len(colors)]]: an absent or empty
    colour is falsy. *)
Definition color_or_default (c : option string) (i : nat) : color :=
  match c with
  | Some s => if String.eqb s "" then Tab10 (i mod 10) else ColorStr s
  | None => Tab10 (i mod 10)
  end.

Definition selected_field : Type := list string * string * string * bool.

(** The body of the compare-mode loop for the [i]-th selected field. *)
Definition compare_field (shot1 shot2 : ShotData) (trim1 trim2 : nat)
    (field_styles : list (string * Style)) (i : nat) (fld : selected_field)
  : result (Line * Line) :=
  let '(path, name, unit, is_secondary) := fld in
  let key := String.concat "." path in
  let style := dict_get_default field_styles key empty_style in
  let color := color_or_default (style_color style) i in
  let linestyle := match style_linestyle style with Some s => s | None => "-" end in
  let linewidth := match style_linewidth style with Some w => w | None => f_1_5 end in
  series1 <- get_series shot1 path ;;
  let series1 := firstn trim1 series1 in
  let label1 := (name ++ " (" ++ short_name shot1 ++ ")"
                 ++ (if is_secondary then " [2nd]" else ""))%string in
  let line1 := {| line_x := firstn trim1 (time_s shot1); line_y := series1;
                  line_label := label1; line_color := color;
                  line_linewidth := linewidth; line_linestyle := linestyle;
                  line_secondary := is_secondary |} in
  series2 <- get_series shot2 path ;;
  let series2 := firstn trim2 series2 in
  let label2 := (name ++ " (" ++ short_name shot2 ++ ")"
                 ++ (if is_secondary then " [2nd]" else ""))%string in
  let ls2 := if String.eqb linestyle "-" then "--" else ":" in
  let line2 := {| line_x := firstn trim2 (time_s shot2); line_y := series2;
                  line_label := label2; line_color := color;
                  line_linewidth := linewidth; line_linestyle := ls2;
                  line_secondary := is_secondary |} in
  Ok (line1, line2).

End Pipeline.

(** ** Trim selector: [get_trimmed_data] inside [_update_plot] *)

(** The [for i, t in enumerate(shot.time_s)] loop with its [break]. *)
Fixpoint trim_loop (i : nat) (ts : list float) (trim_duration : float) (trim_idx : nat) : nat :=
  match ts with
  | [] => trim_idx
  | t :: ts' =>
      if f_gtb t trim_duration then i
      else trim_loop (S i) ts' trim_duration trim_idx
  end.

Definition trim_index (elapsed_seconds : list float) (duration_bound : float) : nat :=
  trim_loop 0 elapsed_seconds duration_bound (List.length elapsed_seconds).

(** [settings] maps ["trim_duration"] to a float; the default is the last
    elapsed time (or [0] for an empty shot, where the loop does not run). *)
Definition get_trimmed_data (shot : ShotData) (settings : list (string * float)) : nat :=
  let trim_duration :=
    dict_get_default settings "trim_duration" (last (time_s shot) f_zero) in
  trim_index (time_s shot) trim_duration.

(** The specification's reading of the trim index: the number of leading
    samples that are at most the bound. *)
Fixpoint count_leading (p : float -> bool) (l : list float) : nat :=
  match l with
  | [] => 0
  | x :: l' => if p x then S (count_leading p l') else 0
  end.

Definition leading_within (elapsed_seconds : list float) (bound : float) : nat :=
  count_leading (fun t => f_leb t bound) elapsed_seconds.

(** ** Dual-axis scale aligner: [align_yaxis_zero] and [_align_yaxis_zero] *)

(** The aligner only negates, divides, multiplies and compares, and
    [set_ylim] tests its limits for finiteness.  The aligner is written once
    over an arithmetic.  [binary64] is the arithmetic of the interpreter:
    every statement about the program is made over it.  [exact], the same
    operations on extended rationals, is not the program; it is only run
    next to it on one input, to tell a behaviour of the algorithm from an
    effect of rounding. *)
Record arith : Type := {
  num : Type;
  a_of_Z : Z -> num;
  a_inf : num;
  a_ltb : num -> num -> bool;
  a_eqb : num -> num -> bool;
  a_neg : num -> num;
  a_mul : num -> num -> num;
  a_div : num -> num -> num;
  a_isfinite : num -> bool
}.

Definition binary64 : arith :=
  {| num := float;
     a_of_Z := f_of_Z;
     a_inf := f_inf;
     a_ltb := f_ltb;
     a_eqb := f_eqb;
     a_neg := f_neg;
     a_mul := f_mul;
     a_div := f_div;
     a_isfinite := is_finite |}.

(** Extended rationals: numbers without rounding and without a sign on
    zero. *)
Inductive xnum : Type :=
| XNaN
| XInf (negative : bool)
| XFin (q : Qc).

Definition qc_ltb (p q : Qc) : bool :=
  match (p ?= q)%Qc with Lt => true | _ => false end.

Definition x_ltb (a b : xnum) : bool :=
  match a, b with
  | XNaN, _ | _, XNaN => false
  | XInf s1, XInf s2 => s1 && negb s2
  | XInf s, XFin _ => s
  | XFin _, XInf s => negb s
  | XFin p, XFin q => qc_ltb p q
  end.

Definition x_eqb (a b : xnum) : bool :=
  match a, b with
  | XInf s1, XInf s2 => Bool.eqb s1 s2
  | XFin p, XFin q => Qc_eq_bool p q
  | _, _ => false
  end.

Definition x_neg (a : xnum) : xnum :=
  match a with
  | XNaN => XNaN
  | XInf s => XInf (negb s)
  | XFin q => XFin (- q)%Qc
  end.

Definition x_mul (a b : xnum) : xnum :=
  match a, b with
  | XNaN, _ | _, XNaN => XNaN
  | XInf s1, XInf s2 => XInf (xorb s1 s2)
  | XInf s, XFin q | XFin q, XInf s =>
      if Qc_eq_bool q 0%Qc then XNaN else XInf (xorb s (qc_ltb q 0%Qc))
  | XFin p, XFin q => XFin (p * q)%Qc
  end.

Definition x_div (a b : xnum) : xnum :=
  match a, b with
  | XNaN, _ | _, XNaN => XNaN
  | XInf _, XInf _ => XNaN
  | XInf s, XFin q => XInf (xorb s (qc_ltb q 0%Qc))
  | XFin _, XInf _ => XFin 0%Qc
  | XFin p, XFin q =>
      if Qc_eq_bool q 0%Qc
      then (if Qc_eq_bool p 0%Qc then XNaN else XInf (qc_ltb p 0%Qc))
      else XFin (p / q)%Qc
  end.

Definition x_isfinite (a : xnum) : bool :=
  match a with XFin _ => true | _ => false end.

Definition exact : arith :=
  {| num := xnum;
     a_of_Z := fun z => XFin (Q2Qc (inject_Z z));
     a_inf := XInf false;
     a_ltb := x_ltb;
     a_eqb := x_eqb;
     a_neg := x_neg;
     a_mul := x_mul;
     a_div := x_div;
     a_isfinite := x_isfinite |}.

Section Align.

Variable A : arith.

(** The limits are floats, the literal [0] is an [int]: [min(y, 0)] can
    return either. *)
Inductive pynum : Type :=
| PyInt (z : Z)
| PyFloat (x : num A).

Definition to_float (v : pynum) : num A :=
  match v with
  | PyInt z => a_of_Z A z
  | PyFloat x => x
  end.

Definition py_lt (a b : pynum) : bool :=
  match a, b with
  | PyInt x, PyInt y => Z.ltb x y
  | _, _ => a_ltb A (to_float a) (to_float b)
  end.

Definition py_gt (a b : pynum) : bool := py_lt b a.

Definition py_eq (a b : pynum) : bool :=
  match a, b with
  | PyInt x, PyInt y => Z.eqb x y
  | _, _ => a_eqb A (to_float a) (to_float b)
  end.

Definition py_neg (v : pynum) : pynum :=
  match v with
  | PyInt z => PyInt (- z)
  | PyFloat x => PyFloat (a_neg A x)
  end.

(** [a / b]; every division of the aligner sits under the guard
    [y_max > 0], so the divisor is never zero. *)
Definition py_truediv (a b : pynum) : pynum :=
  PyFloat (a_div A (to_float a) (to_float b)).

Definition py_mul (a b : pynum) : pynum :=
  match a, b with
  | PyInt x, PyInt y => PyInt (x * y)
  | _, _ => PyFloat (a_mul A (to_float a) (to_float b))
  end.

(** The builtins [min(a, b)] and [max(a, b)]: the first argument is kept
    unless the second is strictly smaller (resp. greater). *)
Definition py_min (a b : pynum) : pynum := if py_lt b a then b else a.
Definition py_max (a b : pynum) : pynum := if py_gt b a then b else a.

(** A plot axis; only its y-limits matter here. *)
Record Axes : Type := { ylim : num A * num A }.

Definition get_ylim (ax : Axes) : num A * num A := ylim ax.

(** [ax.set_ylim(bottom, top)] of matplotlib: a limit that is NaN or
    infinite is refused with [ValueError] before the axis is touched;
    otherwise the two limits become the limits of the axis.  (The library
    also widens an interval it finds singular; the aligner asks for
    [bottom <= 0 < top], which is singular only when both limits are below
    some 1e-286 in magnitude, and that widening is left out.) *)
Definition set_ylim (ax : Axes) (bottom top : pynum) : result Axes :=
  if a_isfinite A (to_float bottom) && a_isfinite A (to_float top)
  then Ok {| ylim := (to_float bottom, to_float top) |}
  else Raise ValueError.

(** shot_viewer.py.  The function mutates the two axes and returns nothing;
    here it returns the two axes as the call leaves them, and the exception
    that ended the call if one did.  An exception raised by the first
    [set_ylim] leaves both axes as they were; one raised by the second
    leaves the first axis changed. *)
Definition align_yaxis_zero (ax1 ax2 : Axes) : Axes * Axes * option exn :=
  let '(y1_min, y1_max) := get_ylim ax1 in
  let '(y2_min, y2_max) := get_ylim ax2 in
  let y1_min := py_min (PyFloat y1_min) (PyInt 0) in
  let y1_max := py_max (PyFloat y1_max) (PyInt 0) in
  let y2_min := py_min (PyFloat y2_min) (PyInt 0) in
  let y2_max := py_max (PyFloat y2_max) (PyInt 0) in
  if py_eq y1_max (PyInt 0) && py_eq y2_max (PyInt 0) then (ax1, ax2, None)
  else if py_eq y1_min (PyInt 0) && py_eq y2_min (PyInt 0) then (ax1, ax2, None)
  else
    let ratio1 := if py_gt y1_max (PyInt 0)
                  then py_truediv (py_neg y1_min) y1_max
                  else PyFloat (a_inf A) in
    let ratio2 := if py_gt y2_max (PyInt 0)
                  then py_truediv (py_neg y2_min) y2_max
                  else PyFloat (a_inf A) in
    let target_ratio := py_max ratio1 ratio2 in
    match (if py_gt y1_max (PyInt 0) then
             let new_y1_min := py_mul (py_neg target_ratio) y1_max in
             set_ylim ax1 new_y1_min y1_max
           else Ok ax1) with
    | Raise e => (ax1, ax2, Some e)
    | Ok ax1' =>
        match (if py_gt y2_max (PyInt 0) then
                 let new_y2_min := py_mul (py_neg target_ratio) y2_max in
                 set_ylim ax2 new_y2_min y2_max
               else Ok ax2) with
        | Raise e => (ax1', ax2, Some e)
        | Ok ax2' => (ax1', ax2', None)
        end
    end.

(** plot_met.py *)
Definition _align_yaxis_zero (ax1 ax2 : Axes) : Axes * Axes * option exn :=
  let '(y1_min, y1_max) := get_ylim ax1 in
  let '(y2_min, y2_max) := get_ylim ax2 in
  let y1_min := py_min (PyFloat y1_min) (PyInt 0) in
  let y1_max := py_max (PyFloat y1_max) (PyInt 0) in
  let y2_min := py_min (PyFloat y2_min) (PyInt 0) in
  let y2_max := py_max (PyFloat y2_max) (PyInt 0) in
  if py_eq y1_max (PyInt 0) && py_eq y2_max (PyInt 0) then (ax1, ax2, None)
  else if py_eq y1_min (PyInt 0) && py_eq y2_min (PyInt 0) then (ax1, ax2, None)
  else
    let ratio1 := if py_gt y1_max (PyInt 0)
                  then py_truediv (py_neg y1_min) y1_max
                  else PyFloat (a_inf A) in
    let ratio2 := if py_gt y2_max (PyInt 0)
                  then py_truediv (py_neg y2_min) y2_max
                  else PyFloat (a_inf A) in
    let target_ratio := py_max ratio1 ratio2 in
    match (if py_gt y1_max (PyInt 0)
           then set_ylim ax1 (py_mul (py_neg target_ratio) y1_max) y1_max
           else Ok ax1) with
    | Raise e => (ax1, ax2, Some e)
    | Ok ax1' =>
        match (if py_gt y2_max (PyInt 0)
               then set_ylim ax2 (py_mul (py_neg target_ratio) y2_max) y2_max
               else Ok ax2) with
        | Raise e => (ax1', ax2, Some e)
        | Ok ax2' => (ax1', ax2', None)
        end
    end.

(** The aligner on two ranges: the ranges the two axes hold when the call
    ends, by return or by exception, and the exception if there is one. *)
Definition align (range1 range2 : num A * num A)
  : (num A * num A) * (num A * num A) :=
  let '(ax1, ax2, _) := align_yaxis_zero {| ylim := range1 |} {| ylim := range2 |} in
  (get_ylim ax1, get_ylim ax2).

Definition align_raises (range1 range2 : num A * num A) : option exn :=
  let '(_, _, e) := align_yaxis_zero {| ylim := range1 |} {| ylim := range2 |} in
  e.

(** The steps of the algorithm, named as the specification names them. *)
Definition widened_min (y : num A) : pynum := py_min (PyFloat y) (PyInt 0).
Definition widened_max (y : num A) : pynum := py_max (PyFloat y) (PyInt 0).

Definition has_positive_extent (range : num A * num A) : bool :=
  py_gt (widened_max (snd range)) (PyInt 0).

Definition ratio (range : num A * num A) : pynum :=
  if has_positive_extent range
  then py_truediv (py_neg (widened_min (fst range))) (widened_max (snd range))
  else PyFloat (a_inf A).

Definition target_ratio (range1 range2 : num A * num A) : num A :=
  to_float (py_max (ratio range1) (ratio range2)).

Definition degenerate (range1 range2 : num A * num A) : bool :=
  (py_eq (widened_max (snd range1)) (PyInt 0)
   && py_eq (widened_max (snd range2)) (PyInt 0))
  || (py_eq (widened_min (fst range1)) (PyInt 0)
      && py_eq (widened_min (fst range2)) (PyInt 0)).

(** The limits the aligner wants an axis to have. *)
Definition adjusted (range : num A * num A) (target : num A) : num A * num A :=
  if has_positive_extent range
  then (a_mul A (a_neg A target) (snd range), snd range)
  else range.

(** Limits [set_ylim] takes. *)
Definition accepted (range : num A * num A) : bool :=
  a_isfinite A (fst range) && a_isfinite A (snd range).

(** The aligner calls [set_ylim] on this axis, with limits it refuses. *)
Definition refused (range : num A * num A) (target : num A) : bool :=
  has_positive_extent range && negb (accepted (adjusted range target)).

End Align.

Arguments PyInt {A} z.
Arguments PyFloat {A} x.
Arguments ylim {A} a.
Arguments get_ylim {A} ax.
Arguments align_yaxis_zero {A} ax1 ax2.
Arguments _align_yaxis_zero {A} ax1 ax2.

(** Ranges with integer bounds, in either arithmetic. *)
Definition range64 (lo hi : Z) : float * float := (f_of_Z lo, f_of_Z hi).
Definition rangeX (lo hi : Z) : xnum * xnum :=
  (XFin (Q2Qc (inject_Z lo)), XFin (Q2Qc (inject_Z hi))).



(** ** Auxiliary notions used in the statements *)

(** [path] can be walked to its end inside [d]. *)
Fixpoint has_path (d : json) (path : list string) : bool :=
  match path with
  | [] => true
  | k :: path' =>
      match d with
      | JDict items =>
          match dict_get items k with
          | Some v => has_path v path'
          | None => false
          end
      | _ => false
      end
  end.

(** A JSON integer that [float] converts without [OverflowError]. *)
Definition int_in_range (v : json) : Prop :=
  match v with
  | JInt z => exists f, float_of_int z = Ok f
  | _ => True
  end.

(** Values [float] refuses with [TypeError] or [ValueError]: null, a
    non-numeric string, a nested object or array. *)
Definition not_coercible (float_of_str : string -> option float) (v : json) : Prop :=
  match v with
  | JNull | JList _ | JDict _ => True
  | JStr s => float_of_str s = None
  | _ => False
  end.

Definition series_lengths (s : Series) : list nat :=
  [ List.length (series_time_s s); List.length (series_pressure s);
    List.length (series_flow s); List.length (series_motor_speed s);
    List.length (series_motor_power s); List.length (series_goal_pressure s);
    List.length (series_goal_flow s); List.length (series_goal_power s);
    List.length (series_active s) ].

(** The order [<=] on doubles, and the median the specification describes:
    the element at index [floor(n/2)] of a sorted arrangement of the list. *)
Definition f_le (a b : float) : Prop := f_leb a b = true.

Definition is_positive (x : float) : Prop := f_gtb x f_zero = true.

Definition is_median (ds : list float) (m : float) : Prop :=
  exists s, Permutation s ds /\ Sorted f_le s
            /\ nth_error s (List.length ds / 2) = Some m.

(** A double that is not NaN and carries the sign [s]. *)
Definition has_sign (s : bool) (x : float) : Prop :=
  match x with
  | S754_zero s' | S754_infinity s' | S754_finite s' _ _ => s' = s
  | S754_nan => False
  end.

Definition is_zero (x : float) : bool :=
  match x with S754_zero _ => true | _ => false end.

Definition finite_range (range : float * float) : Prop :=
  is_finite (fst range) = true /\ is_finite (snd range) = true.

Definition contains_zero (range : float * float) : Prop :=
  f_leb (fst range) f_zero = true /\ f_leb f_zero (snd range) = true.

(** Sample documents. *)
Definition no_numeric_strings : string -> option float := fun _ => None.

Definition record_null_pressure : json :=
  JDict [("time", JInt 0); ("shot", JDict [("pressure", JNull)])].

Definition record_huge_pressure : json :=
  JDict [("time", JInt 0); ("shot", JDict [("pressure", JInt (10 ^ 400))])].

Definition two_records : list json :=
  [ JDict [("time", JInt 0); ("shot", JDict [("pressure", JFloat (f_of_Z 9))])];
    JDict [("time", JInt 100);
           ("shot", JDict [("pressure", JFloat (f_div (f_of_Z 17) (f_of_Z 2)))])] ].

Definition records_bad_time : list json :=
  [ JDict [("shot", JDict [("pressure", JInt 9)])];
    JDict [("time", JStr "soon"); ("shot", JDict [("pressure", JStr "soon")])] ].

Definition shot_null_pressure : ShotData :=
  {| short_name := "null"; records := [record_null_pressure]; time_s := [f_zero] |}.

Definition shot_huge_pressure : ShotData :=
  {| short_name := "huge"; records := [record_huge_pressure]; time_s := [f_zero] |}.

Definition shot_two : ShotData :=
  {| short_name := "two"; records := two_records;
     time_s := normalize [f_of_Z 0; f_of_Z 100] |}.

Definition pressure_field : selected_field :=
  (["shot"; "pressure"], "Pressure", "bar", false).

Definition dotted_style : Style :=
  {| style_color := None; style_linestyle := Some ":"; style_linewidth := None |}.

Definition dashed_red_style : Style :=
  {| style_color := Some "#d62728"; style_linestyle := Some "--";
     style_linewidth := None |}.

(** The style a field is drawn with: its override, or no override at all. *)
Definition field_style (field_styles : list (string * Style)) (path : list string) : Style :=
  dict_get_default field_styles (String.concat "." path) empty_style.

Definition configured_linestyle (st : Style) : string :=
  match style_linestyle st with Some s => s | None => "-" end.

(** ** Order of doubles *)

(** [SFcompare] orders the doubles that are not NaN as the lexicographic
    order of these keys. *)
Definition f_key (x : float) : Z * Z * Z :=
  match x with
  | S754_zero _ => (0, 0, 0)%Z
  | S754_infinity false => (2, 0, 0)%Z
  | S754_infinity true => (-2, 0, 0)%Z
  | S754_nan => (0, 0, 0)%Z
  | S754_finite false m e => (1, e, Z.pos m)%Z
  | S754_finite true m e => (-1, - e, Z.neg m)%Z
  end.

Definition key_lt (a b : Z * Z * Z) : Prop :=
  let '(a1, a2, a3) := a in
  let '(b1, b2, b3) := b in
  (a1 < b1 \/ (a1 = b1 /\ (a2 < b2 \/ (a2 = b2 /\ a3 < b3))))%Z.

(** The builtins [max(a, b)] and [min(a, b)] on two floats: the first
    argument is kept unless the second is strictly greater (resp. smaller). *)
Definition f_max (a b : float) : float := if f_gtb b a then b else a.
Definition f_min (a b : float) : float := if f_ltb b a then b else a.

(** The literal [0.1]. *)
Definition f_tenth : float := f_div (f_of_Z 1) (f_of_Z 10).

(** ** Hover lookup: [find_nearest_idx] inside [_on_mouse_move] *)

Definition time_distance (t target : float) : float := f_abs (f_sub t target).

(** The [for i, t in enumerate(time_array)] loop. *)
Fixpoint nearest_loop (i : nat) (time_array : list float) (target : float)
    (best_idx : nat) (best_diff : float) : nat :=
  match time_array with
  | [] => best_idx
  | t :: rest =>
      let diff := f_abs (f_sub t target) in
      if f_ltb diff best_diff
      then nearest_loop (S i) rest target i diff
      else nearest_loop (S i) rest target best_idx best_diff
  end.

(** [None] is Python's [None], returned for an empty time array. *)
Definition find_nearest_idx (time_array : list float) (target : float) : option nat :=
  match time_array with
  | [] => None
  | t0 :: _ =>
      let best_idx := 0 in
      let best_diff := f_abs (f_sub t0 target) in
      Some (nearest_loop 0 time_array target best_idx best_diff)
  end.

(** ** Python dicts: item assignment and deletion *)

(** [d[k] = v]: an existing key keeps its place, a new key goes last. *)
Fixpoint dict_set {V : Type} (d : list (string * V)) (k : string) (v : V)
  : list (string * V) :=
  match d with
  | [] => [(k, v)]
  | (k', v') :: d' =>
      if String.eqb k k' then (k, v) :: d' else (k', v') :: dict_set d' k v
  end.

(** [del d[k]], for a key that is in [d]. *)
Definition dict_del {V : Type} (d : list (string * V)) (k : string)
  : list (string * V) :=
  filter (fun item => negb (String.eqb k (fst item))) d.

(** [k in d] *)
Definition dict_mem {V : Type} (d : list (string * V)) (k : string) : bool :=
  match dict_get d k with Some _ => true | None => false end.

(** ** [FileSettingsDialog] *)

(** The [wx.SpinCtrlDouble] of the dialog: its range and the value it
    holds. *)
Record SpinCtrlDouble : Type := {
  spin_min : float;
  spin_max : float;
  spin_value : float
}.

Record FileSettingsDialog : Type := {
  max_duration : float;
  result_settings : list (string * float);
  duration_ctrl : SpinCtrlDouble;
  settings_saved : bool
}.

(** [FileSettingsDialog.__init__]: the attributes it computes. *)
Definition FileSettingsDialog_init (shot_data : ShotData)
    (current_settings : list (string * float)) : FileSettingsDialog :=
  let max_duration := f_max f_tenth (last (time_s shot_data) f_tenth) in
  let result_settings := current_settings in
  let result_settings :=
    if negb (dict_mem result_settings "trim_duration")
    then dict_set result_settings "trim_duration" max_duration
    else result_settings in
  let initial_value := dict_get_default result_settings "trim_duration" max_duration in
  let initial_value := f_max f_tenth (f_min initial_value max_duration) in
  {| max_duration := max_duration;
     result_settings := result_settings;
     duration_ctrl := {| spin_min := f_tenth; spin_max := max_duration;
                         spin_value := initial_value |};
     settings_saved := false |}.

(** [FileSettingsDialog._on_defaults] *)
Definition FileSettingsDialog_on_defaults (self : FileSettingsDialog)
  : FileSettingsDialog :=
  {| max_duration := max_duration self;
     result_settings := [("trim_duration", max_duration self)];
     duration_ctrl := duration_ctrl self;
     settings_saved := true |}.

(** A shot whose second record is stamped earlier than the first. *)
Definition shot_backwards : ShotData :=
  {| short_name := "backwards";
     records := [JDict [("time", JInt 100)]; JDict [("time", JInt 0)]];
     time_s := normalize [f_of_Z 100; f_of_Z 0] |}.

(** ** Loading a document: [load_shot_json] and [ShotData.__init__] *)

(** [sub in s] on two strings. *)
Fixpoint str_contains (sub s : string) : bool :=
  String.prefix sub s
  || match s with
     | EmptyString => false
     | String _ s' => str_contains sub s'
     end.

Definition is_str (v : json) (s : string) : bool :=
  match v with JStr s' => String.eqb s s' | _ => false end.

(** ["data" in doc], where [doc] is whatever [json.load] returned: a key
    test on an object, an element test on an array, a substring test on a
    string, and [TypeError] on null, a boolean or a number. *)
Definition data_in (doc : json) : result bool :=
  match doc with
  | JDict items => Ok (dict_mem items "data")
  | JList l => Ok (existsb (fun v => is_str v "data") l)
  | JStr s => Ok (str_contains "data" s)
  | _ => Raise TypeError
  end.

(** [doc["data"]] once ["data" in doc] holds: arrays and strings do not take
    a string subscript. *)
Definition data_of (doc : json) : result json :=
  match doc with
  | JDict items => Ok (dict_get_default items "data" JNull)
  | _ => Raise TypeError
  end.

(** The guard both loaders start with:
    [if "data" not in doc or not isinstance(doc["data"], list): raise ValueError],
    followed by [doc["data"]]. *)
Definition document_records (doc : json) : result (list json) :=
  present <- data_in doc ;;
  if negb present then Raise ValueError
  else
    data <- data_of doc ;;
    match data with
    | JList records => Ok records
    | _ => Raise ValueError
    end.

(** [doc.get(k, default)] *)
Definition doc_get (doc : json) (k : string) (default : json) : result json :=
  match doc with
  | JDict items => Ok (dict_get_default items k default)
  | _ => Raise AttributeError
  end.

(** plot_met.py: the document is the parsed content of the file. *)
Definition load_shot_json (doc : json) : result (list json * json * json) :=
  records <- document_records doc ;;
  profile_name <- doc_get doc "profile_name" (JStr "Unknown Profile") ;;
  shot_time <- doc_get doc "time" JNull ;;
  Ok (records, profile_name, shot_time).

(** shot_viewer.py: a [ShotData] with the two attributes the record
    [ShotData] leaves out. *)
Record LoadedShot : Type := {
  shot_data : ShotData;
  profile_name : json;
  shot_time : json
}.

Section Loading.

Variable float_of_str : string -> option float.

(** [ShotData.__init__] with [_load], on the parsed content of the file at
    [path], whose stem is [stem]. *)
Definition ShotData_init (stem : string) (doc : json) : result LoadedShot :=
  data <- document_records doc ;;
  profile_name <- doc_get doc "profile_name" (JStr "Unknown Profile") ;;
  shot_time <- doc_get doc "time" JNull ;;
  shot <- ShotData_load float_of_str stem data ;;
  Ok {| shot_data := shot; profile_name := profile_name; shot_time := shot_time |}.

End Loading.

(** The series [build_series] returns for the two sample records. *)
Definition series_two : Series :=
  {| series_time_s := normalize [f_of_Z 0; f_of_Z 100];
     series_pressure := [f_of_Z 9; f_div (f_of_Z 17) (f_of_Z 2)];
     series_flow := [f_nan; f_nan];
     series_motor_speed := [f_nan; f_nan];
     series_motor_power := [f_nan; f_nan];
     series_goal_pressure := [f_nan; f_nan];
     series_goal_flow := [f_nan; f_nan];
     series_goal_power := [f_nan; f_nan];
     series_active := [JNull; JNull] |}.

(** A document with the two sample records and no profile name. *)
Definition document_two : json := JDict [("data", JList two_records)].

(** ** [ShotViewerFrame._update_plot]: the traces and the hover data *)

(** An entry of [plot_data["fields"]]: key, display name, unit and colour.
    The colour is kept as the trace has it; its rendering as a hex string
    needs the palette of the plotting library. *)
Definition hover_field : Type := string * string * string * color.

(** [self.plot_data]: empty, for one shot, or for a comparison. *)
Inductive PlotData : Type :=
| PlotEmpty
| PlotSingle (time : list float) (series : list (string * list float))
    (fields : list hover_field)
| PlotCompare (shot1_name shot2_name : string) (time1 time2 : list float)
    (series1 series2 : list (string * list float)) (fields : list hover_field).

Section UpdatePlot.

Variable float_of_str : string -> option float.

(** The body of the single-shot loop for the [i]-th selected field: the
    trace it plots. *)
Definition single_field (shot : ShotData) (trim_idx : nat)
    (field_styles : list (string * Style)) (i : nat) (fld : selected_field)
  : result Line :=
  let '(path, name, unit, is_secondary) := fld in
  let key := String.concat "." path in
  let style := dict_get_default field_styles key empty_style in
  let color := color_or_default (style_color style) i in
  let linestyle := match style_linestyle style with Some s => s | None => "-" end in
  let linewidth := match style_linewidth style with Some w => w | None => f_1_5 end in
  series <- get_series float_of_str shot path ;;
  let series := firstn trim_idx series in
  let label := (name ++ (if String.eqb unit "" then "" else " (" ++ unit ++ ")")
                ++ (if is_secondary then " [2nd]" else ""))%string in
  Ok {| line_x := firstn trim_idx (time_s shot); line_y := series;
        line_label := label; line_color := color;
        line_linewidth := linewidth; line_linestyle := linestyle;
        line_secondary := is_secondary |}.

(** [for i, (path, name, unit, is_secondary) in enumerate(selected)] in
    single-shot mode: the traces plotted so far and the two containers of
    [plot_data] the loop fills. *)
Fixpoint single_loop (shot : ShotData) (trim_idx : nat)
    (field_styles : list (string * Style)) (i : nat) (selected : list selected_field)
    (lines : list Line) (series : list (string * list float))
    (fields : list hover_field)
  : result (list Line * list (string * list float) * list hover_field) :=
  match selected with
  | [] => Ok (lines, series, fields)
  | fld :: rest =>
      line <- single_field shot trim_idx field_styles i fld ;;
      let '(path, name, unit, _) := fld in
      let key := String.concat "." path in
      single_loop shot trim_idx field_styles (S i) rest
        (lines ++ [line])
        (dict_set series key (line_y line))
        (fields ++ [(key, name, unit, line_color line)])
  end.

(** The same loop in compare mode. *)
Fixpoint compare_loop (shot1 shot2 : ShotData) (trim1 trim2 : nat)
    (field_styles : list (string * Style)) (i : nat) (selected : list selected_field)
    (lines : list Line) (series1 series2 : list (string * list float))
    (fields : list hover_field)
  : result (list Line * list (string * list float) * list (string * list float)
            * list hover_field) :=
  match selected with
  | [] => Ok (lines, series1, series2, fields)
  | fld :: rest =>
      '(line1, line2) <- compare_field float_of_str shot1 shot2 trim1 trim2
                           field_styles i fld ;;
      let '(path, name, unit, _) := fld in
      let key := String.concat "." path in
      compare_loop shot1 shot2 trim1 trim2 field_styles (S i) rest
        (lines ++ [line1; line2])
        (dict_set series1 key (line_y line1))
        (dict_set series2 key (line_y line2))
        (fields ++ [(key, name, unit, line_color line1)])
  end.

(** [a or b] on two attributes that hold a shot or [None]; a [ShotData]
    object is always truthy. *)
Definition shot_or (a b : option ShotData) : option ShotData :=
  match a with Some s => Some s | None => b end.

(** [_update_plot], from the state of the frame it reads to the traces it
    plots and the [plot_data] it stores.  Titles, axis labels, the legend
    and the alignment of the two axes are left out. *)
Definition _update_plot (shot1 shot2 : option ShotData)
    (shot1_settings shot2_settings : list (string * float)) (compare_cb : bool)
    (selected : list selected_field) (field_styles : list (string * Style))
  : result (list Line * PlotData) :=
  match shot1, shot2 with
  | None, None => Ok ([], PlotEmpty)
  | _, _ =>
      match selected with
      | [] => Ok ([], PlotEmpty)
      | _ =>
          match compare_cb, shot1, shot2 with
          | true, Some s1, Some s2 =>
              let trim1 := get_trimmed_data s1 shot1_settings in
              let trim2 := get_trimmed_data s2 shot2_settings in
              let time1 := firstn trim1 (time_s s1) in
              let time2 := firstn trim2 (time_s s2) in
              '(lines, series1, series2, fields) <-
                compare_loop s1 s2 trim1 trim2 field_styles 0 selected [] [] [] [] ;;
              Ok (lines,
                  PlotCompare (short_name s1) (short_name s2) time1 time2
                    series1 series2 fields)
          | _, _, _ =>
              let settings := match shot1 with
                              | Some _ => shot1_settings
                              | None => shot2_settings
                              end in
              match shot_or shot1 shot2 with
              | Some shot =>
                  let trim_idx := get_trimmed_data shot settings in
                  let time_trimmed := firstn trim_idx (time_s shot) in
                  '(lines, series, fields) <-
                    single_loop shot trim_idx field_styles 0 selected [] [] [] ;;
                  Ok (lines, PlotSingle time_trimmed series fields)
              | None => Raise AttributeError
              end
          end
      end
  end.

End UpdatePlot.

(** ** [_on_mouse_move]: the values shown under the pointer *)

(** [series[key][idx] if idx is not None and idx < len(series[key]) else None];
    the outer [None] is the [KeyError] of a key that [series] lacks. *)
Definition hover_value (series : list (string * list float)) (key : string)
    (idx : option nat) : option (option float) :=
  match idx with
  | None => Some None
  | Some i =>
      match dict_get series key with
      | Some s => Some (nth_error s i)
      | None => None
      end
  end.

(** One [for key, name, unit, hex_color in fields] loop whose body may fail. *)
Fixpoint hover_rows {R : Type} (row : hover_field -> option R)
    (fields : list hover_field) : option (list R) :=
  match fields with
  | [] => Some []
  | f :: rest =>
      match row f with
      | Some r =>
          match hover_rows row rest with
          | Some rs => Some (r :: rs)
          | None => None
          end
      | None => None
      end
  end.

(** What the hover panel lists at pointer position [x]: for each field its
    name, unit and colour with the value read from one shot, or from both.
    A value [None] is shown as ["N/A"], and so is NaN.  [None] for the
    whole result is a [KeyError]. *)
Inductive HoverLines : Type :=
| HoverNone
| HoverSingle (rows : list (hover_field * option float))
| HoverCompare (rows : list (hover_field * option float * option float)).

Definition _on_mouse_move (plot_data : PlotData) (x : float) : option HoverLines :=
  match plot_data with
  | PlotEmpty => Some HoverNone
  | PlotCompare _ _ time1 time2 series1 series2 fields =>
      let idx1 := find_nearest_idx time1 x in
      let idx2 := find_nearest_idx time2 x in
      option_map HoverCompare
        (hover_rows
           (fun f =>
              let '(key, _, _, _) := f in
              match hover_value series1 key idx1 with
              | Some val1 =>
                  match hover_value series2 key idx2 with
                  | Some val2 => Some (f, val1, val2)
                  | None => None
                  end
              | None => None
              end)
           fields)
  | PlotSingle time series fields =>
      match find_nearest_idx time x with
      | Some idx =>
          option_map HoverSingle
            (hover_rows
               (fun f =>
                  let '(key, _, _, _) := f in
                  match hover_value series key (Some idx) with
                  | Some val => Some (f, val)
                  | None => None
                  end)
               fields)
      | None => Some (HoverSingle [])
      end
  end.

(** A shot object as the viewer constructs it. *)
Definition loaded (float_of_str : string -> option float) (shot : ShotData) : Prop :=
  exists stem data, ShotData_load float_of_str stem data = Ok shot.

Definition loaded_or_absent (float_of_str : string -> option float)
    (shot : option ShotData) : Prop :=
  match shot with Some s => loaded float_of_str s | None => True end.

Definition field_key (f : hover_field) : string := fst (fst (fst f)).

(** Every field listed for the hover panel has a series under its key, of
    the length of the time array. *)
Definition series_cover (time : list float) (series : list (string * list float))
    (fields : list hover_field) : Prop :=
  Forall (fun f => exists s, dict_get series (field_key f) = Some s
                             /\ List.length s = List.length time) fields.

(** A trace with as many abscissae as ordinates. *)
Definition same_length (l : Line) : Prop :=
  List.length (line_x l) = List.length (line_y l).

(** ** The field registry and the check boxes *)

(** [(path, display_name, category, unit)] *)
Definition data_field : Type := list string * string * string * string.

Definition DATA_FIELDS : list data_field :=
  [ (["shot"; "pressure"], "Pressure", "Shot", "bar");
    (["shot"; "flow"], "Flow", "Shot", "ml/s");
    (["shot"; "weight"], "Weight", "Shot", "g");
    (["shot"; "gravimetric_flow"], "Gravimetric Flow", "Shot", "g/s");
    (["shot"; "setpoints"; "pressure"], "Pressure Setpoint", "Setpoints", "bar");
    (["shot"; "setpoints"; "flow"], "Flow Setpoint", "Setpoints", "ml/s");
    (["shot"; "setpoints"; "power"], "Power Setpoint", "Setpoints", "%");
    (["sensors"; "motor_speed"], "Motor Speed", "Motor", "rpm");
    (["sensors"; "motor_power"], "Motor Power", "Motor", "%");
    (["sensors"; "motor_current"], "Motor Current", "Motor", "A");
    (["sensors"; "motor_temp"], "Motor Temp", "Motor", "°C");
    (["sensors"; "motor_position"], "Motor Position", "Motor", "mm");
    (["sensors"; "external_1"], "External Temp 1", "Temperature", "°C");
    (["sensors"; "external_2"], "External Temp 2", "Temperature", "°C");
    (["sensors"; "bar_up"], "Bar Up Temp", "Temperature", "°C");
    (["sensors"; "bar_mid_up"], "Bar Mid Up Temp", "Temperature", "°C");
    (["sensors"; "bar_mid_down"], "Bar Mid Down Temp", "Temperature", "°C");
    (["sensors"; "bar_down"], "Bar Down Temp", "Temperature", "°C");
    (["sensors"; "tube"], "Tube Temp", "Temperature", "°C");
    (["sensors"; "lam_temp"], "LAM Temp", "Temperature", "°C");
    (["sensors"; "pressure_sensor"], "Pressure Sensor Raw", "Other", "");
    (["sensors"; "bandheater_power"], "Bandheater Power", "Other", "%");
    (["sensors"; "bandheater_current"], "Bandheater Current", "Other", "A");
    (["sensors"; "weight_prediction"], "Weight Prediction", "Other", "g");
    (["sensors"; "adc_0"], "ADC 0", "ADC", "");
    (["sensors"; "adc_1"], "ADC 1", "ADC", "");
    (["sensors"; "adc_2"], "ADC 2", "ADC", "");
    (["sensors"; "adc_3"], "ADC 3", "ADC", "") ].

Definition field_path (f : data_field) : list string := fst (fst (fst f)).
Definition field_category (f : data_field) : string := snd (fst f).

(** [".".join(path)] *)
Definition data_key (f : data_field) : string := String.concat "." (field_path f).

(** The check boxes of the frame: a dict from key to the state of the box. *)
Definition checkboxes : Type := list (string * bool).

(** The first loop of [_create_checkboxes]: the fields grouped by category,
    categories in order of first appearance. *)
Definition categories_of (fields : list data_field)
  : list (string * list data_field) :=
  fold_left
    (fun categories field =>
       let cat := field_category field in
       let categories :=
         if negb (dict_mem categories cat) then dict_set categories cat []
         else categories in
       dict_set categories cat (dict_get_default categories cat [] ++ [field]))
    fields [].

(** [if key in boxes: boxes[key].SetValue(True)] for each key of a list. *)
Definition check_keys (keys : list string) (boxes : checkboxes) : checkboxes :=
  fold_left
    (fun boxes key => if dict_mem boxes key then dict_set boxes key true else boxes)
    keys boxes.

(** [_create_checkboxes]: [field_checkboxes] and [field_secondary] as it
    leaves them.  A new [wx.CheckBox] is unchecked. *)
Definition _create_checkboxes : checkboxes * checkboxes :=
  let categories := categories_of DATA_FIELDS in
  let rows := flat_map snd categories in
  let field_checkboxes :=
    fold_left (fun boxes f => dict_set boxes (data_key f) false) rows [] in
  let field_secondary :=
    fold_left (fun boxes f => dict_set boxes (data_key f) false) rows [] in
  let defaults := ["shot.pressure"; "shot.flow"; "shot.weight"] in
  (check_keys defaults field_checkboxes, field_secondary).

(** [for cb in boxes.values(): cb.SetValue(v)] *)
Definition set_all (v : bool) (boxes : checkboxes) : checkboxes :=
  map (fun box => (fst box, v)) boxes.

Definition _select_all (field_checkboxes : checkboxes) : checkboxes :=
  set_all true field_checkboxes.

Definition _select_none (field_checkboxes : checkboxes) : checkboxes :=
  set_all false field_checkboxes.

Definition _select_shot (field_checkboxes : checkboxes) : checkboxes :=
  check_keys
    ["shot.pressure"; "shot.flow"; "shot.weight"; "shot.gravimetric_flow";
     "shot.setpoints.pressure"; "shot.setpoints.flow"; "shot.setpoints.power"]
    (set_all false field_checkboxes).

(** [str.lower] on the ASCII letters; the keys of the check boxes are
    ASCII. *)
Definition ascii_lower (c : Ascii.ascii) : Ascii.ascii :=
  let n := Ascii.nat_of_ascii c in
  if (65 <=? n) && (n <=? 90) then Ascii.ascii_of_nat (n + 32) else c.

Fixpoint str_lower (s : string) : string :=
  match s with
  | EmptyString => EmptyString
  | String c s' => String (ascii_lower c) (str_lower s')
  end.

Definition is_temp_key (key : string) : bool :=
  str_contains "temp" (str_lower key)
  || String.prefix "sensors.external" key
  || String.prefix "sensors.bar" key
  || String.eqb key "sensors.tube".

Definition _select_temps (field_checkboxes : checkboxes) : checkboxes :=
  map (fun box => (fst box, if is_temp_key (fst box) then true else snd box))
    (set_all false field_checkboxes).

(** [_get_selected_fields]; a key without a box reads as unchecked. *)
Definition _get_selected_fields (field_checkboxes field_secondary : checkboxes)
  : list selected_field :=
  flat_map
    (fun f : data_field =>
       let '(path, name, _, unit) := f in
       let key := String.concat "." path in
       if dict_get_default field_checkboxes key false
       then [(path, name, unit, dict_get_default field_secondary key false)]
       else [])
    DATA_FIELDS.

Definition selected_path (fld : selected_field) : list string := fst (fst (fst fld)).
Definition selected_key (fld : selected_field) : string :=
  String.concat "." (selected_path fld).

(** The fields of the registry in the given categories. *)
Definition fields_in (categories : list string) : list data_field :=
  filter (fun f => existsb (String.eqb (field_category f)) categories) DATA_FIELDS.

(** ** [StyleDialog] and [_open_style_dialog] *)

(** A style dict as the dialog edits it.  The key ["color"] can be present
    with the value [None]: that is what the preset "Auto" stores. *)
Record StyleDict : Type := {
  sd_color : option (option string);
  sd_linestyle : option string;
  sd_linewidth : option float
}.

Definition empty_dict : StyleDict :=
  {| sd_color := None; sd_linestyle := None; sd_linewidth := None |}.

(** The truth value of a style dict: it has at least one key. *)
Definition style_truthy (d : StyleDict) : bool :=
  match sd_color d, sd_linestyle d, sd_linewidth d with
  | None, None, None => false
  | _, _, _ => true
  end.

(** What [style.get("color")], [style.get("linestyle")] and
    [style.get("linewidth")] read from a style dict. *)
Definition Style_of (d : StyleDict) : Style :=
  {| style_color := match sd_color d with Some c => c | None => None end;
     style_linestyle := sd_linestyle d;
     style_linewidth := sd_linewidth d |}.

Definition styles_view (field_styles : list (string * StyleDict))
  : list (string * Style) :=
  map (fun item => (fst item, Style_of (snd item))) field_styles.

Definition LINESTYLES : list (string * string) :=
  [("Solid", "-"); ("Dashed", "--"); ("Dotted", ":"); ("Dash-Dot", "-.")].

(** [[0.5, 1.0, 1.5, 2.0, 2.5, 3.0, 4.0, 5.0]] *)
Definition LINEWIDTHS : list float :=
  [ f_div (f_of_Z 1) (f_of_Z 2); f_of_Z 1; f_1_5; f_of_Z 2;
    f_div (f_of_Z 5) (f_of_Z 2); f_of_Z 3; f_of_Z 4; f_of_Z 5 ].

(** [idx = default; for i, a in enumerate(l): if p(a): idx = i; break] *)
Fixpoint first_index {A : Type} (p : A -> bool) (l : list A) (i default : nat) : nat :=
  match l with
  | [] => default
  | a :: l' => if p a then i else first_index p l' (S i) default
  end.

(** The attributes of the dialog and the selections of its two choice
    widgets. *)
Record StyleDialog : Type := {
  result_style : StyleDict;
  style_choice : nat;
  width_choice : nat;
  style_saved : bool
}.

(** [StyleDialog.__init__] *)
Definition StyleDialog_init (current_style : StyleDict) : StyleDialog :=
  let result_style := if style_truthy current_style then current_style else empty_dict in
  let current_ls := match sd_linestyle result_style with Some s => s | None => "-" end in
  let style_idx := first_index (fun s => String.eqb (snd s) current_ls) LINESTYLES 0 0 in
  let current_lw := match sd_linewidth result_style with Some w => w | None => f_1_5 end in
  let width_idx := first_index (fun w => f_eqb w current_lw) LINEWIDTHS 0 2 in
  {| result_style := result_style;
     style_choice := style_idx;
     width_choice := width_idx;
     style_saved := false |}.

(** What the user does in the open dialog: click a preset colour (the value
    of "Auto" is [None]), pick a custom colour, or select an entry of one
    of the two choices. *)
Inductive style_event : Type :=
| PresetColor (color : option string)
| ColorPicked (hex_color : string)
| StyleSelected (style_idx : nat)
| WidthSelected (width_idx : nat).

(** The handlers [_on_preset_color], [_on_color_picked], [_on_style_change]
    and [_on_width_change], up to their call of [_notify_change].  [None]
    is the [IndexError] of a selection outside the list, which the widget
    does not offer. *)
Definition StyleDialog_handle (self : StyleDialog) (ev : style_event)
  : option StyleDialog :=
  match ev with
  | PresetColor color =>
      Some {| result_style :=
                {| sd_color := Some color;
                   sd_linestyle := sd_linestyle (result_style self);
                   sd_linewidth := sd_linewidth (result_style self) |};
              style_choice := style_choice self;
              width_choice := width_choice self;
              style_saved := style_saved self |}
  | ColorPicked hex_color =>
      Some {| result_style :=
                {| sd_color := Some (Some hex_color);
                   sd_linestyle := sd_linestyle (result_style self);
                   sd_linewidth := sd_linewidth (result_style self) |};
              style_choice := style_choice self;
              width_choice := width_choice self;
              style_saved := style_saved self |}
  | StyleSelected style_idx =>
      match nth_error LINESTYLES style_idx with
      | Some s =>
          Some {| result_style :=
                    {| sd_color := sd_color (result_style self);
                       sd_linestyle := Some (snd s);
                       sd_linewidth := sd_linewidth (result_style self) |};
                  style_choice := style_idx;
                  width_choice := width_choice self;
                  style_saved := style_saved self |}
      | None => None
      end
  | WidthSelected width_idx =>
      match nth_error LINEWIDTHS width_idx with
      | Some w =>
          Some {| result_style :=
                    {| sd_color := sd_color (result_style self);
                       sd_linestyle := sd_linestyle (result_style self);
                       sd_linewidth := Some w |};
                  style_choice := style_choice self;
                  width_choice := width_idx;
                  style_saved := style_saved self |}
      | None => None
      end
  end.

(** [StyleDialog._on_save]: a key that is missing is filled from the
    selection of its choice widget. *)
Definition StyleDialog_on_save (self : StyleDialog) : option StyleDialog :=
  let linestyle :=
    match sd_linestyle (result_style self) with
    | Some ls => Some ls
    | None => option_map snd (nth_error LINESTYLES (style_choice self))
    end in
  let linewidth :=
    match sd_linewidth (result_style self) with
    | Some lw => Some lw
    | None => nth_error LINEWIDTHS (width_choice self)
    end in
  match linestyle, linewidth with
  | Some ls, Some lw =>
      Some {| result_style :=
                {| sd_color := sd_color (result_style self);
                   sd_linestyle := Some ls;
                   sd_linewidth := Some lw |};
              style_choice := style_choice self;
              width_choice := width_choice self;
              style_saved := true |}
  | _, _ => None
  end.

(** [StyleDialog._on_defaults], up to its call of [_notify_change]. *)
Definition StyleDialog_on_defaults (self : StyleDialog) : StyleDialog :=
  {| result_style := empty_dict;
     style_choice := style_choice self;
     width_choice := width_choice self;
     style_saved := true |}.

(** The callback [on_style_change] of [_open_style_dialog], which is also
    what the function does with the final and with the original style. *)
Definition on_style_change (field_styles : list (string * StyleDict)) (key : string)
    (new_style : StyleDict) : list (string * StyleDict) :=
  if style_truthy new_style then dict_set field_styles key new_style
  else if dict_mem field_styles key then dict_del field_styles key
  else field_styles.

(** The events of one [ShowModal]: each handler runs and notifies the
    frame. *)
Fixpoint style_events (key : string) (evs : list style_event)
    (dlg : StyleDialog) (field_styles : list (string * StyleDict))
  : option (StyleDialog * list (string * StyleDict)) :=
  match evs with
  | [] => Some (dlg, field_styles)
  | ev :: rest =>
      match StyleDialog_handle dlg ev with
      | Some dlg' =>
          style_events key rest dlg' (on_style_change field_styles key (result_style dlg'))
      | None => None
      end
  end.

(** How the dialog is closed. *)
Inductive style_close : Type := CloseSave | CloseDefaults | CloseCancel.

(** [_open_style_dialog]: the dialog opens on the style of [key], the user
    acts, the dialog closes, and the frame keeps the final or restores the
    original style.  The result is [self.field_styles]. *)
Definition _open_style_dialog (field_styles : list (string * StyleDict))
    (key : string) (evs : list style_event) (close : style_close)
  : option (list (string * StyleDict)) :=
  let current_style := dict_get_default field_styles key empty_dict in
  let original_style := if style_truthy current_style then current_style else empty_dict in
  match style_events key evs (StyleDialog_init current_style) field_styles with
  | Some (dlg, field_styles) =>
      let closed :=
        match close with
        | CloseSave =>
            match StyleDialog_on_save dlg with
            | Some dlg' => Some (dlg', field_styles)
            | None => None
            end
        | CloseDefaults =>
            let dlg' := StyleDialog_on_defaults dlg in
            Some (dlg', on_style_change field_styles key (result_style dlg'))
        | CloseCancel => Some (dlg, field_styles)
        end in
      match closed with
      | Some (dlg, field_styles) =>
          if style_saved dlg
          then Some (on_style_change field_styles key (result_style dlg))
          else Some (on_style_change field_styles key original_style)
      | None => None
      end
  | None => None
  end.

(** The style a field is drawn with, read from the dicts of the frame. *)
Definition drawn_style (field_styles : list (string * StyleDict)) (key : string) : Style :=
  dict_get_default (styles_view field_styles) key empty_style.

(** Pairwise distinct strings, decided. *)
Fixpoint distinct (l : list string) : bool :=
  match l with
  | [] => true
  | k :: l' => negb (existsb (String.eqb k) l') && distinct l'
  end.

(** ** [plot_shot] of plot_met.py *)

(** One call of [ax.plot(x, y, label=, linestyle=, linewidth=)]; the colour
    and, when the call names none, the pattern are the plotting library's
    choice. *)
Record Trace : Type := {
  trace_x : list float;
  trace_y : list float;
  trace_label : string;
  trace_linestyle : option string;
  trace_linewidth : float
}.

Record PlotFlags : Type := {
  include_pressure : bool;
  include_flow : bool;
  include_motor_speed : bool;
  include_pressure_goal : bool;
  include_flow_goal : bool;
  include_motor_power : bool;
  include_motor_power_goal : bool
}.

(** [ax.plot(...)] appends a trace to an axis when its flag is set. *)
Definition plot_if (flag : bool) (ax : list Trace) (t : Trace) : list Trace :=
  if flag then ax ++ [t] else ax.

(** [plot_shot]: the traces of the left axis and of the right axis, in the
    order of the calls, which is the order of the legend. *)
Definition plot_shot (series : Series) (flags : PlotFlags) : list Trace * list Trace :=
  let x := series_time_s series in
  let two := f_of_Z 2 in
  let ax1 := [] in
  let ax1 := plot_if (include_pressure flags) ax1
               {| trace_x := x; trace_y := series_pressure series;
                  trace_label := "Pressure (actual)"; trace_linestyle := None;
                  trace_linewidth := two |} in
  let ax1 := plot_if (include_flow flags) ax1
               {| trace_x := x; trace_y := series_flow series;
                  trace_label := "Flow (actual)"; trace_linestyle := None;
                  trace_linewidth := two |} in
  let ax1 := plot_if (include_motor_speed flags) ax1
               {| trace_x := x; trace_y := series_motor_speed series;
                  trace_label := "Motor speed (actual)"; trace_linestyle := None;
                  trace_linewidth := two |} in
  let ax1 := plot_if (include_pressure_goal flags) ax1
               {| trace_x := x; trace_y := series_goal_pressure series;
                  trace_label := "Pressure goal (setpoint)";
                  trace_linestyle := Some ":"; trace_linewidth := two |} in
  let ax1 := plot_if (include_flow_goal flags) ax1
               {| trace_x := x; trace_y := series_goal_flow series;
                  trace_label := "Flow goal (setpoint)";
                  trace_linestyle := Some ":"; trace_linewidth := two |} in
  let ax2 := [] in
  let ax2 := plot_if (include_motor_power flags) ax2
               {| trace_x := x; trace_y := series_motor_power series;
                  trace_label := "Motor power (actual)";
                  trace_linestyle := Some "--"; trace_linewidth := two |} in
  let ax2 := plot_if (include_motor_power_goal flags) ax2
               {| trace_x := x; trace_y := series_goal_power series;
                  trace_label := "Motor power goal (setpoint)";
                  trace_linestyle := Some ":"; trace_linewidth := two |} in
  (ax1, ax2).

(** The entries of the combined legend: [lines1 + lines2]. *)
Definition legend (axes : list Trace * list Trace) : list Trace :=
  fst axes ++ snd axes.

Definition count_flags (flags : PlotFlags) : nat :=
  List.length
    (filter (fun b : bool => b)
       [ include_pressure flags; include_flow flags; include_motor_speed flags;
         include_pressure_goal flags; include_flow_goal flags;
         include_motor_power flags; include_motor_power_goal flags ]).

Definition all_flags : PlotFlags :=
  {| include_pressure := true; include_flow := true; include_motor_speed := true;
     include_pressure_goal := true; include_flow_goal := true;
     include_motor_power := true; include_motor_power_goal := true |}.

(** The hover data hold, under the key of a selected field, the series
    that [val] relates to the field. *)
Definition stored_series (val : selected_field -> list float -> Prop)
    (series : list (string * list float)) (f : hover_field) (sel : selected_field)
  : Prop :=
  field_key f = selected_key sel
  /\ exists v, val sel v /\ dict_get series (field_key f) = Some v.

(** The series of the path of a field, cut at the trim index. *)
Definition trimmed_series (float_of_str : string -> option float) (shot : ShotData)
    (trim_idx : nat) (sel : selected_field) (v : list float) : Prop :=
  exists s, get_series float_of_str shot (selected_path sel) = Ok s
            /\ v = firstn trim_idx s.

(** The traces and the hover data of the two-record shot shown alone, with
    the check boxes as the frame creates them. *)
Definition plot_two : list Line * PlotData :=
  Eval vm_compute in
    match _update_plot no_numeric_strings (Some shot_two) None [] [] false
            (_get_selected_fields (fst _create_checkboxes) (snd _create_checkboxes))
            [] with
    | Ok plotted => plotted
    | Raise _ => ([], PlotEmpty)
    end.

(** ** Sessions: [_save_session] and [_load_session] on the check boxes *)

(** [{key: cb.GetValue() for key, cb in boxes.items()}], as it is written
    to the session file and read back. *)
Definition saved_boxes (boxes : checkboxes) : checkboxes :=
  map (fun box => (fst box, snd box)) boxes.

(** [for key, value in saved.items(): if key in boxes: boxes[key].SetValue(value)] *)
Definition restore_boxes (saved boxes : checkboxes) : checkboxes :=
  fold_left
    (fun boxes item =>
       if dict_mem boxes (fst item) then dict_set boxes (fst item) (snd item)
       else boxes)
    saved boxes.

(** ** The specification's wording of the inputs *)

(** The absolute consecutive differences as the specification words them:
    [|raw[i + 1] - raw[i]|] for every index [i] that has a successor; and
    those of them that are positive. *)
Definition abs_differences (times_raw : list float) : list float :=
  map (fun i => f_abs (f_sub (nth (S i) times_raw f_nan) (nth i times_raw f_nan)))
      (seq 0 (List.length times_raw - 1)).

Definition positive_differences (times_raw : list float) : list float :=
  filter (fun d => f_ltb f_zero d) (abs_differences times_raw).

(** Values [float] converts: a bool, a float, an integer within the range
    of a double, a string the literal parser accepts. *)
Definition coercible (float_of_str : string -> option float) (v : json) : Prop :=
  match v with
  | JBool _ | JFloat _ => True
  | JInt _ => int_in_range v
  | JStr s => float_of_str s <> None
  | JNull | JList _ | JDict _ => False
  end.

(** A goal value that is absent, null or convertible. *)
Definition goal_ok (float_of_str : string -> option float)
    (sp : list (string * json)) (k : string) : Prop :=
  match dict_get sp k with
  | None | Some JNull => True
  | Some v => coercible float_of_str v
  end.

(** A record whose four plotted fields are absent or convertible, and whose
    goals are absent, null or convertible. *)
Definition plottable (float_of_str : string -> option float) (r : json) : Prop :=
  coercible float_of_str (_safe_get r ["shot"; "pressure"] (JFloat f_nan))
  /\ coercible float_of_str (_safe_get r ["shot"; "flow"] (JFloat f_nan))
  /\ coercible float_of_str (_safe_get r ["sensors"; "motor_speed"] (JFloat f_nan))
  /\ coercible float_of_str (_safe_get r ["sensors"; "motor_power"] (JFloat f_nan))
  /\ (forall sp, _safe_get r ["shot"; "setpoints"] (JDict []) = JDict sp ->
        goal_ok float_of_str sp "pressure"
        /\ goal_ok float_of_str sp "flow"
        /\ goal_ok float_of_str sp "power").

(** * Properties *)

(** ** The error monad *)

Lemma mapM_length {A B : Type} (f : A -> result B) (l : list A) (bs : list B) :
  mapM f l = Ok bs -> List.length bs = List.length l.
Proof.
  revert bs; induction l as [|a l IH]; simpl; intros bs H.
  - now inversion H.
  - destruct (f a) as [b|e]; simpl in H; [|discriminate].
    destruct (mapM f l) as [bs'|e]; simpl in H; [|discriminate].
    inversion H; subst; simpl. now rewrite (IH bs' eq_refl).
Qed.

Lemma mapM_total {A B : Type} (f : A -> result B) (g : A -> B) (l : list A) :
  (forall a, In a l -> f a = Ok (g a)) -> mapM f l = Ok (map g l).
Proof.
  induction l as [|a l IH]; simpl; intros H; [reflexivity|].
  rewrite (H a (or_introl eq_refl)); simpl.
  rewrite IH by (intros; apply H; now right). reflexivity.
Qed.

Lemma mapM_ok {A B : Type} (f : A -> result B) (l : list A) :
  (forall a, In a l -> exists b, f a = Ok b) -> exists bs, mapM f l = Ok bs.
Proof.
  induction l as [|a l IH]; simpl; intros H; [now exists []|].
  destruct (H a (or_introl eq_refl)) as [b Hb]; rewrite Hb; simpl.
  destruct IH as [bs Hbs]; [intros; apply H; now right|].
  rewrite Hbs; simpl. now exists (b :: bs).
Qed.

Lemma mapM_raises {A B : Type} (f : A -> result B) (l : list A) (a : A) :
  In a l -> raises (f a) -> raises (mapM f l).
Proof.
  induction l as [|a' l IH]; simpl; intros Hin [e He]; [contradiction|].
  destruct (f a') as [b|e'] eqn:Hfa; simpl; [|now exists e'].
  destruct Hin as [->|Hin]; [congruence|].
  destruct (IH Hin (ex_intro _ e He)) as [e2 ->]. simpl. now exists e2.
Qed.

Lemma mapM_nth {A B : Type} (f : A -> result B) (l : list A) (bs : list B) i a :
  mapM f l = Ok bs -> nth_error l i = Some a ->
  exists b, f a = Ok b /\ nth_error bs i = Some b.
Proof.
  revert bs i; induction l as [|a' l IH]; simpl; intros bs i H Hi.
  - destruct i; discriminate.
  - destruct (f a') as [b|e] eqn:Hfa; simpl in H; [|discriminate].
    destruct (mapM f l) as [bs'|e] eqn:Hm; simpl in H; [|discriminate].
    inversion H; subst. destruct i as [|i]; simpl in *.
    + inversion Hi; subst. now exists b.
    + now apply IH.
Qed.

(** Peel the first statement of a monadic block that is known to return. *)
Ltac step_bind H :=
  match goal with
  | |- bind ?m _ = Ok _ -> _ =>
      destruct m eqn:H; simpl; [|discriminate]
  end.

Lemma bind_raises {A B : Type} (m : result A) (k : A -> result B) :
  raises m -> raises (bind m k).
Proof. intros [e ->]. now exists e. Qed.

(** ** Field accessor and series builder *)

Section PipelineFacts.

Variable float_of_str : string -> option float.

Lemma _safe_get_eq (d : json) (path : list string) (default : json) :
  _safe_get d path default = safe_get d path default.
Proof. reflexivity. Qed.

Lemma safe_get_absent (d : json) (path : list string) (default : json) :
  has_path d path = false -> safe_get d path default = default.
Proof.
  revert d; induction path as [|k path IH]; intros d; simpl; [discriminate|].
  destruct d; try reflexivity.
  destruct (dict_get d k); [apply IH | reflexivity].
Qed.

Lemma float_of_int_result (z : Z) :
  (exists f, float_of_int z = Ok f) \/ float_of_int z = Raise OverflowError.
Proof.
  unfold float_of_int. destruct (f_of_Z z); eauto.
Qed.

(** [float] raises nothing but [TypeError], [ValueError] and, on an integer
    beyond the range of a double, [OverflowError]. *)
Lemma py_float_result (v : json) :
  (exists f, py_float float_of_str v = Ok f)
  \/ (not_coercible float_of_str v
      /\ (py_float float_of_str v = Raise TypeError
          \/ py_float float_of_str v = Raise ValueError))
  \/ ((exists z, v = JInt z) /\ py_float float_of_str v = Raise OverflowError).
Proof.
  destruct v as [|b|z|f|s|l|d]; simpl; eauto.
  - destruct (float_of_int_result z) as [[f ->]| ->]; eauto.
  - destruct (float_of_str s) eqn:Hs; eauto.
Qed.

Lemma get_series_sample_not_coercible (r : json) (path : list string) :
  not_coercible float_of_str (safe_get r path (JFloat f_nan)) ->
  get_series_sample float_of_str r path = Ok f_nan.
Proof.
  unfold get_series_sample.
  destruct (safe_get r path (JFloat f_nan)) as [|b|z|f|s|l|d]; simpl;
    intros H; try contradiction; try reflexivity.
  now rewrite H.
Qed.

Lemma get_series_sample_absent (r : json) (path : list string) :
  has_path r path = false -> get_series_sample float_of_str r path = Ok f_nan.
Proof.
  intros H. unfold get_series_sample. now rewrite (safe_get_absent _ _ _ H).
Qed.

Lemma get_series_sample_ok (r : json) (path : list string) :
  int_in_range (safe_get r path (JFloat f_nan)) ->
  exists f, get_series_sample float_of_str r path = Ok f.
Proof.
  unfold get_series_sample.
  destruct (safe_get r path (JFloat f_nan)) as [|b|z|f|s|l|d]; simpl; eauto.
  - intros [f ->]. simpl. eauto.
  - destruct (float_of_str s); simpl; eauto.
Qed.

Lemma get_series_sample_raise (r : json) (path : list string) (e : exn) :
  get_series_sample float_of_str r path = Raise e ->
  e = OverflowError /\ exists z, safe_get r path (JFloat f_nan) = JInt z.
Proof.
  unfold get_series_sample.
  destruct (safe_get r path (JFloat f_nan)) as [|b|z|f|s|l|d]; simpl;
    try discriminate.
  - destruct (float_of_int_result z) as [[f ->]| ->]; simpl; [discriminate|].
    intros H; inversion H; subst; split; eauto.
  - destruct (float_of_str s); simpl; discriminate.
Qed.

Lemma mapM_raise_inv {A B : Type} (f : A -> result B) (l : list A) (e : exn) :
  mapM f l = Raise e -> exists a, In a l /\ f a = Raise e.
Proof.
  induction l as [|a l IH]; simpl; [discriminate|].
  destruct (f a) as [b|e'] eqn:Hfa; simpl.
  - destruct (mapM f l) as [bs|e'']; simpl; [discriminate|].
    intros H; inversion H; subst.
    destruct (IH eq_refl) as [a' [Hin Ha']]. eauto.
  - intros H; inversion H; subst. eauto.
Qed.

Lemma elapsed_times_length (times_raw : list float) (scale : float) :
  List.length (elapsed_times times_raw scale) = List.length times_raw.
Proof. unfold elapsed_times. apply length_map. Qed.

Lemma ShotData_load_ok (stem : string) (data : list json) :
  (forall r, In r data -> exists t, record_time float_of_str r = Ok t) ->
  exists times_raw,
    mapM (record_time float_of_str) data = Ok times_raw
    /\ ShotData_load float_of_str stem data
       = Ok {| short_name := stem; records := data;
               time_s := elapsed_times times_raw (infer_time_scale times_raw) |}.
Proof.
  intros H. destruct (mapM_ok _ _ H) as [ts Hts].
  exists ts. split; [exact Hts|]. unfold ShotData_load. now rewrite Hts.
Qed.

Lemma build_series_lengths (data : list json) (s : Series) :
  build_series float_of_str data = Ok s ->
  Forall (fun n => n = List.length data) (series_lengths s).
Proof.
  unfold build_series.
  step_bind H0. step_bind H1. step_bind H2. step_bind H3. step_bind H4.
  step_bind H5.
  intros H; inversion H; subst; clear H. unfold series_lengths; simpl.
  apply mapM_length in H0, H1, H2, H3, H4, H5.
  rewrite elapsed_times_length, !length_map.
  repeat constructor; assumption.
Qed.

(** C1 (code defect).  The claim promises that no field extraction raises
    and that a null or otherwise non-numeric value becomes the NaN sentinel.
    [ShotData.get_series] does so, [build_series] of plot_met.py does not: on
    a record whose pressure is null it raises [TypeError], where
    [get_series] on the same record returns the one-sample series [nan]. *)
Theorem build_series_raises_on_null_field :
  build_series float_of_str [record_null_pressure] = Raise TypeError
  /\ get_series float_of_str shot_null_pressure ["shot"; "pressure"] = Ok [f_nan].
Proof. split; reflexivity. Qed.

(** [get_series] itself lets one exception through: [OverflowError], for an
    integer literal beyond the range of a double. *)
Lemma get_series_overflow_on_huge_int :
  get_series float_of_str shot_huge_pressure ["shot"; "pressure"]
  = Raise OverflowError.
Proof. vm_compute. reflexivity. Qed.

(** [get_series] raises nothing else: whenever it raises, the exception is
    [OverflowError] and some record holds an integer at [path]. *)
Theorem get_series_raises_only_overflow (self : ShotData) (path : list string) (e : exn)
  (Hraise : get_series float_of_str self path = Raise e) :
  e = OverflowError
  /\ exists r z, In r (records self) /\ safe_get r path (JFloat f_nan) = JInt z.
Proof.
  unfold get_series in Hraise.
  destruct (mapM_raise_inv _ _ _ Hraise) as [r [Hin Hr]].
  destruct (get_series_sample_raise _ _ _ Hr) as [-> [z Hz]]. eauto.
Qed.

Lemma py_float_coercible (v : json) :
  coercible float_of_str v -> exists f, py_float float_of_str v = Ok f.
Proof.
  destruct v as [|b|z|f|s|l|d]; simpl; try contradiction; eauto.
  destruct (float_of_str s); [eauto | congruence].
Qed.

Lemma goal_value_ok (sp : list (string * json)) (k : string) :
  goal_ok float_of_str sp k -> exists f, goal_value float_of_str sp k = Ok f.
Proof.
  unfold goal_ok, goal_value. destruct (dict_get sp k) as [v|]; [|eauto].
  destruct v; eauto using py_float_coercible.
Qed.

Lemma build_goals_step_ok (r : json) :
  plottable float_of_str r -> exists g, build_goals_step float_of_str r = Ok g.
Proof.
  intros [_ [_ [_ [_ Hsp]]]]. unfold build_goals_step.
  destruct (_safe_get r ["shot"; "setpoints"] (JDict [])) as [|b|z|f|s|l|sp];
    try (simpl; eauto; fail).
  destruct (Hsp sp eq_refl) as [Hp [Hf Hw]].
  destruct (goal_value_ok sp "pressure" Hp) as [gp ->].
  destruct (goal_value_ok sp "flow" Hf) as [gf ->].
  destruct (goal_value_ok sp "power" Hw) as [gw ->].
  simpl. eauto.
Qed.

(** [build_series] returns on a stream of records that each yield a time
    and are plottable. *)
Lemma build_series_ok (data : list json) :
  (forall r, In r data -> exists t, record_time float_of_str r = Ok t) ->
  (forall r, In r data -> plottable float_of_str r) ->
  exists b, build_series float_of_str data = Ok b.
Proof.
  intros Htime Hplot. unfold build_series.
  destruct (mapM_ok _ _ Htime) as [ts ->].
  destruct (mapM_ok (fun r => py_float float_of_str
                                (_safe_get r ["shot"; "pressure"] (JFloat f_nan))) data)
    as [p ->]; [intros r Hr; apply py_float_coercible, (Hplot r Hr)|].
  destruct (mapM_ok (fun r => py_float float_of_str
                                (_safe_get r ["shot"; "flow"] (JFloat f_nan))) data)
    as [f ->]; [intros r Hr; apply py_float_coercible, (Hplot r Hr)|].
  destruct (mapM_ok (fun r => py_float float_of_str
                                (_safe_get r ["sensors"; "motor_speed"] (JFloat f_nan))) data)
    as [ms ->]; [intros r Hr; apply py_float_coercible, (Hplot r Hr)|].
  destruct (mapM_ok (fun r => py_float float_of_str
                                (_safe_get r ["sensors"; "motor_power"] (JFloat f_nan))) data)
    as [mp ->]; [intros r Hr; apply py_float_coercible, (Hplot r Hr)|].
  destruct (mapM_ok (build_goals_step float_of_str) data) as [g ->];
    [intros r Hr; apply build_goals_step_ok, (Hplot r Hr)|].
  simpl. eauto.
Qed.

(** C7 (amended).  On a record stream in which every record yields a time,
    and for a path under which no record holds an integer too large for a
    double, the shot is built and [get_series] returns one sample per
    record (all NaN for a path that no record has); the elapsed-time
    sequence has that length too.  When moreover every record is
    plottable, [build_series] returns, and every list it returns has that
    same length. *)
Theorem series_lengths_match (stem : string) (data : list json) (path : list string)
  (Htime : forall r, In r data -> exists t, record_time float_of_str r = Ok t)
  (Hints : forall r, In r data -> int_in_range (safe_get r path (JFloat f_nan))) :
  exists shot s,
    ShotData_load float_of_str stem data = Ok shot
    /\ records shot = data
    /\ get_series float_of_str shot path = Ok s
    /\ List.length s = List.length data
    /\ List.length (time_s shot) = List.length data
    /\ ((forall r, In r data -> has_path r path = false) ->
        s = repeat f_nan (List.length data))
    /\ ((forall r, In r data -> plottable float_of_str r) ->
        exists b, build_series float_of_str data = Ok b
                  /\ Forall (fun n => n = List.length data) (series_lengths b)).
Proof.
  destruct (ShotData_load_ok stem data Htime) as [ts [Hts Hload]].
  destruct (mapM_ok (fun r => get_series_sample float_of_str r path) data) as [s Hs].
  { intros r Hr. apply get_series_sample_ok. now apply Hints. }
  eexists; exists s. split; [exact Hload|]. simpl.
  split; [reflexivity|]. split; [exact Hs|].
  split; [exact (mapM_length _ _ _ Hs)|].
  split; [rewrite elapsed_times_length; exact (mapM_length _ _ _ Hts)|].
  split.
  - intros Habs.
    rewrite (mapM_total _ (fun _ => f_nan) data) in Hs
      by (intros r Hr; apply get_series_sample_absent; now apply Habs).
    inversion Hs; subst. clear. induction data; simpl; congruence.
  - intros Hplot. destruct (build_series_ok data Htime Hplot) as [b Hb].
    exists b. split; [exact Hb | now apply build_series_lengths].
Qed.

(** C10.  The time field is not gap-isolated.  A record without a ["time"]
    key yields the raw time [0.0], and that is the value at its index of the
    raw time sequence.  A record whose ["time"] is present but cannot be
    converted (null, a non-numeric string, a nested object or array) makes
    the construction of the whole shot raise, in shot_viewer.py and in
    plot_met.py alike, whereas the same value met under the path of any
    other field gives the NaN sample in [get_series]. *)
Theorem time_field_not_gap_isolated (stem : string) (data : list json)
    (items0 items : list (string * json)) (v r : json) (path : list string)
  (Habsent : dict_get items0 "time" = None)
  (Hin : In (JDict items) data)
  (Htime : dict_get items "time" = Some v)
  (Hbad : not_coercible float_of_str v)
  (Hfield : safe_get r path (JFloat f_nan) = v) :
  record_time float_of_str (JDict items0) = Ok f_zero
  /\ is_nan f_zero = false
  /\ (forall stream times_raw i,
        mapM (record_time float_of_str) stream = Ok times_raw ->
        nth_error stream i = Some (JDict items0) ->
        nth_error times_raw i = Some f_zero)
  /\ raises (ShotData_load float_of_str stem data)
  /\ raises (build_series float_of_str data)
  /\ get_series_sample float_of_str r path = Ok f_nan.
Proof.
  assert (H0 : record_time float_of_str (JDict items0) = Ok f_zero).
  { unfold record_time, dict_get_default. now rewrite Habsent. }
  assert (Hr : raises (mapM (record_time float_of_str) data)).
  { apply (mapM_raises _ _ _ Hin).
    unfold record_time, dict_get_default. rewrite Htime.
    destruct (py_float_result v) as [[f Hf]|[[_ [Hf|Hf]]|[[z ->] _]]];
      [|rewrite Hf; now eexists..|contradiction].
    destruct v as [|b|z|f'|s'|l|d]; simpl in *; try contradiction; try discriminate.
    rewrite Hbad in Hf; discriminate. }
  split; [exact H0|]. split; [reflexivity|]. split.
  { intros stream ts i Hm Hi.
    destruct (mapM_nth _ _ _ _ _ Hm Hi) as [b [Hb Hnth]]. congruence. }
  split; [now apply bind_raises|]. split; [now apply bind_raises|].
  apply get_series_sample_not_coercible. now rewrite Hfield.
Qed.

End PipelineFacts.

Lemma get_series_raises_only_overflow_witness :
  OverflowError = OverflowError
  /\ exists r z, In r (records shot_huge_pressure)
               /\ safe_get r ["shot"; "pressure"] (JFloat f_nan) = JInt z.
Proof.
  apply (get_series_raises_only_overflow no_numeric_strings shot_huge_pressure
           ["shot"; "pressure"] OverflowError).
  vm_compute. reflexivity.
Defined.

Lemma two_records_plottable (r : json) :
  In r two_records -> plottable no_numeric_strings r.
Proof.
  intros [<-|[<-|[]]];
    (split; [exact I|split; [exact I|split; [exact I|split; [exact I|]]]]);
    intros sp Hsp; simpl in Hsp; inversion Hsp; subst; repeat split.
Qed.

Lemma series_lengths_match_witness :
  exists shot s,
    ShotData_load no_numeric_strings "two" two_records = Ok shot
    /\ get_series no_numeric_strings shot ["shot"; "pressure"] = Ok s
    /\ List.length s = 2
    /\ List.length (time_s shot) = 2
    /\ exists b, build_series no_numeric_strings two_records = Ok b
                 /\ Forall (fun n => n = 2) (series_lengths b).
Proof.
  destruct (series_lengths_match no_numeric_strings "two" two_records
              ["shot"; "pressure"])
    as [shot [s [Hload [_ [Hs [Hlen [Htl [_ Hb]]]]]]]].
  - intros r [<-|[<-|[]]]; eexists; vm_compute; reflexivity.
  - intros r [<-|[<-|[]]]; exact I.
  - exists shot, s. split; [exact Hload|]. split; [exact Hs|].
    split; [exact Hlen|]. split; [exact Htl|].
    exact (Hb two_records_plottable).
Defined.

(** C7 as stated fails on the streams the loaders do not get through.  A
    record whose time does not convert makes both of them raise, so that no
    series is built; and on a stream that loads, an integer beyond the
    range of a double under the path makes [get_series] raise. *)
Lemma series_construction_aborts :
  ShotData_load no_numeric_strings "bad" records_bad_time = Raise ValueError
  /\ build_series no_numeric_strings records_bad_time = Raise ValueError
  /\ ShotData_load no_numeric_strings "huge" [record_huge_pressure]
     = Ok shot_huge_pressure
  /\ get_series no_numeric_strings shot_huge_pressure ["shot"; "pressure"]
     = Raise OverflowError.
Proof. repeat split; vm_compute; reflexivity. Qed.

Lemma time_field_not_gap_isolated_witness :
  record_time no_numeric_strings (JDict [("shot", JDict [("pressure", JInt 9)])]) = Ok f_zero
  /\ is_nan f_zero = false
  /\ (forall stream times_raw i,
        mapM (record_time no_numeric_strings) stream = Ok times_raw ->
        nth_error stream i = Some (JDict [("shot", JDict [("pressure", JInt 9)])]) ->
        nth_error times_raw i = Some f_zero)
  /\ raises (ShotData_load no_numeric_strings "bad" records_bad_time)
  /\ raises (build_series no_numeric_strings records_bad_time)
  /\ get_series_sample no_numeric_strings
       (JDict [("time", JStr "soon"); ("shot", JDict [("pressure", JStr "soon")])])
       ["shot"; "pressure"] = Ok f_nan.
Proof.
  apply (time_field_not_gap_isolated no_numeric_strings "bad" records_bad_time
           [("shot", JDict [("pressure", JInt 9)])]
           [("time", JStr "soon"); ("shot", JDict [("pressure", JStr "soon")])]
           (JStr "soon")
           (JDict [("time", JStr "soon"); ("shot", JDict [("pressure", JStr "soon")])])
           ["shot"; "pressure"]).
  - reflexivity.
  - simpl; auto.
  - reflexivity.
  - reflexivity.
  - reflexivity.
Defined.

(** ** Comparisons of doubles *)

Lemma SFcompare_swap (x y : float) :
  SFcompare y x = option_map CompOpp (SFcompare x y).
Proof.
  destruct x as [sx|sx| |sx mx ex], y as [sy|sy| |sy my ey]; simpl;
    try reflexivity;
    try (destruct sx; reflexivity); try (destruct sy; reflexivity);
    try (destruct sx, sy; reflexivity).
  destruct sx, sy; simpl; try reflexivity;
    rewrite (Z.compare_antisym ex ey); destruct (ex ?= ey)%Z; simpl;
    try reflexivity;
    change (Pos.compare_cont Eq my mx) with (Pos.compare my mx);
    change (Pos.compare_cont Eq mx my) with (Pos.compare mx my);
    rewrite (Pos.compare_antisym mx my);
    destruct (mx ?= my)%positive; reflexivity.
Qed.

Lemma SFcompare_not_nan (x y : float) :
  is_nan x = false -> is_nan y = false -> exists c, SFcompare x y = Some c.
Proof.
  destruct x, y; simpl; try discriminate; intros _ _; eauto.
Qed.

(** Without NaN, [not (a > b)] is [a <= b]. *)
Lemma f_gtb_false_leb (a b : float) :
  is_nan a = false -> is_nan b = false -> negb (f_gtb a b) = f_leb a b.
Proof.
  intros Ha Hb. unfold f_gtb, f_ltb, f_leb, SFltb, SFleb.
  rewrite (SFcompare_swap a b).
  destruct (SFcompare_not_nan a b Ha Hb) as [c ->]. now destruct c.
Qed.

Lemma f_ltb_asym (a b : float) : f_ltb a b = true -> f_ltb b a = false.
Proof.
  unfold f_ltb, SFltb. rewrite (SFcompare_swap a b).
  destruct (SFcompare a b) as [[]|]; simpl; congruence.
Qed.

Lemma f_ltb_not_nan (a b : float) :
  f_ltb a b = true -> is_nan a = false /\ is_nan b = false.
Proof.
  unfold f_ltb, SFltb. destruct a, b; simpl; try discriminate; auto.
Qed.

(** ** Trim selector *)

Lemma trim_loop_count (ts : list float) (bound : float) (i : nat) :
  trim_loop i ts bound (i + List.length ts)
  = i + count_leading (fun t => negb (f_gtb t bound)) ts.
Proof.
  revert i; induction ts as [|t ts IH]; intros i; simpl; [reflexivity|].
  destruct (f_gtb t bound); simpl; [lia|].
  replace (i + S (List.length ts)) with (S i + List.length ts) by lia.
  rewrite IH. lia.
Qed.

Lemma trim_index_count (ts : list float) (bound : float) :
  trim_index ts bound = count_leading (fun t => negb (f_gtb t bound)) ts.
Proof. unfold trim_index. exact (trim_loop_count ts bound 0). Qed.

Lemma count_leading_le (p : float -> bool) (l : list float) :
  count_leading p l <= List.length l.
Proof. induction l; simpl; [lia|]. destruct (p a); lia. Qed.

Lemma count_leading_before (p : float -> bool) (l : list float) (j : nat) :
  j < count_leading p l -> exists t, nth_error l j = Some t /\ p t = true.
Proof.
  revert j; induction l as [|a l IH]; simpl; intros j Hj; [lia|].
  destruct (p a) eqn:Hp; [|lia].
  destruct j as [|j]; simpl; [eauto|]. apply IH. lia.
Qed.

Lemma count_leading_at (p : float -> bool) (l : list float) :
  count_leading p l < List.length l ->
  exists t, nth_error l (count_leading p l) = Some t /\ p t = false.
Proof.
  induction l as [|a l IH]; simpl; intros H; [lia|].
  destruct (p a) eqn:Hp; simpl; [apply IH; lia | eauto].
Qed.

Lemma count_leading_ext (p q : float -> bool) (l : list float) :
  Forall (fun t => p t = q t) l -> count_leading p l = count_leading q l.
Proof.
  induction 1 as [|a l Ha _ IH]; simpl; [reflexivity|].
  rewrite Ha, IH. reflexivity.
Qed.

(** The index the loop returns is the index of the first sample that
    strictly exceeds the bound, or the length when there is none; this
    reading holds for all doubles, NaN included. *)
Lemma trim_index_first_exceeding (ts : list float) (bound : float) :
  trim_index ts bound <= List.length ts
  /\ (forall j, j < trim_index ts bound ->
        exists t, nth_error ts j = Some t /\ f_gtb t bound = false)
  /\ (trim_index ts bound < List.length ts ->
        exists t, nth_error ts (trim_index ts bound) = Some t /\ f_gtb t bound = true).
Proof.
  rewrite trim_index_count. split; [apply count_leading_le|]. split.
  - intros j Hj. destruct (count_leading_before _ _ _ Hj) as [t [Ht Hp]].
    exists t. split; [exact Ht|]. now destruct (f_gtb t bound).
  - intros H. destruct (count_leading_at _ _ H) as [t [Ht Hp]].
    exists t. split; [exact Ht|]. now destruct (f_gtb t bound).
Qed.

(** C3 (amended).  On a NaN-free elapsed-time sequence and bound, the trim
    index is the count of leading samples that are at most the bound; it is
    the index of the first sample strictly above the bound, or the length
    of the sequence when no sample is above it; and the sequence 0,1,2,3,4
    trimmed at 2.5 gives 3. *)
Theorem trim_index_spec (ts : list float) (bound : float)
  (Hts : Forall (fun t => is_nan t = false) ts)
  (Hbound : is_nan bound = false) :
  trim_index ts bound = leading_within ts bound
  /\ trim_index ts bound <= List.length ts
  /\ (forall j, j < trim_index ts bound ->
        exists t, nth_error ts j = Some t /\ f_leb t bound = true)
  /\ (trim_index ts bound < List.length ts ->
        exists t, nth_error ts (trim_index ts bound) = Some t /\ f_gtb t bound = true)
  /\ trim_index [f_of_Z 0; f_of_Z 1; f_of_Z 2; f_of_Z 3; f_of_Z 4]
                (f_div (f_of_Z 5) (f_of_Z 2)) = 3.
Proof.
  destruct (trim_index_first_exceeding ts bound) as [Hle [Hbefore Hat]].
  split.
  { rewrite trim_index_count. unfold leading_within. apply count_leading_ext.
    eapply Forall_impl; [|exact Hts]. intros t Ht. now apply f_gtb_false_leb. }
  split; [exact Hle|]. split; [|split; [exact Hat | reflexivity]].
  intros j Hj. destruct (Hbefore j Hj) as [t [Ht Hgt]].
  exists t. split; [exact Ht|].
  assert (Hnan : is_nan t = false).
  { rewrite Forall_forall in Hts. apply Hts. eapply nth_error_In; eauto. }
  rewrite <- (f_gtb_false_leb t bound Hnan Hbound), Hgt. reflexivity.
Qed.

Lemma trim_index_spec_witness :
  trim_index [f_of_Z 0; f_of_Z 1; f_of_Z 2; f_of_Z 3; f_of_Z 4] (f_div (f_of_Z 5) (f_of_Z 2))
  = leading_within [f_of_Z 0; f_of_Z 1; f_of_Z 2; f_of_Z 3; f_of_Z 4] (f_div (f_of_Z 5) (f_of_Z 2)).
Proof.
  apply (trim_index_spec [f_of_Z 0; f_of_Z 1; f_of_Z 2; f_of_Z 3; f_of_Z 4]
           (f_div (f_of_Z 5) (f_of_Z 2))).
  - repeat constructor.
  - reflexivity.
Defined.

(** C3 as stated fails on a sequence with a NaN sample (a record whose time
    is the JSON literal NaN): the loop steps over it, since [nan > bound] is
    false, while the count of leading samples within the bound stops at it. *)
Lemma trim_index_nan_sample :
  trim_index [f_zero; f_nan; f_of_Z 2] (f_of_Z 5) = 3
  /\ leading_within [f_zero; f_nan; f_of_Z 2] (f_of_Z 5) = 1.
Proof. split; reflexivity. Qed.

(** ** Time normaliser *)

Lemma f_sub_diag (t : float) : is_finite t = true -> f_sub t t = f_zero.
Proof.
  destruct t as [s|s| |s m e]; simpl; try discriminate; intros _.
  - now destruct s.
  - unfold f_sub, SFsub. rewrite Z.sub_diag. reflexivity.
Qed.

Lemma infer_time_scale_cases (times_raw : list float) :
  infer_time_scale times_raw = f_one \/ infer_time_scale times_raw = f_milli.
Proof.
  unfold infer_time_scale.
  destruct (List.length times_raw <? 2); [now left|].
  destruct (filter _ _); [now left|].
  destruct (f_geb _ _); [now right | now left].
Qed.

Lemma _infer_time_scale_ms_to_s_eq (times_raw : list float) :
  _infer_time_scale_ms_to_s times_raw = infer_time_scale times_raw.
Proof. reflexivity. Qed.

Lemma elapsed_times_nth (times_raw : list float) (scale t0 t : float) (i : nat) :
  nth_error times_raw 0 = Some t0 ->
  nth_error times_raw i = Some t ->
  nth_error (elapsed_times times_raw scale) i = Some (f_mul (f_sub t t0) scale).
Proof.
  intros H0 Hi. unfold elapsed_times.
  destruct times_raw as [|a l]; [discriminate|]. simpl in H0. inversion H0; subst.
  rewrite nth_error_map, Hi. reflexivity.
Qed.

Lemma f_sub_diag_nan (t : float) : is_finite t = false -> f_sub t t = f_nan.
Proof. destruct t as [s|[]| |s m e]; try discriminate; reflexivity. Qed.

Lemma f_mul_nan_l (x : float) : f_mul f_nan x = f_nan.
Proof. reflexivity. Qed.

(** C8 (amended).  For every non-empty sequence of raw times,
    [elapsed[i] = (raw[i] - raw[0]) * multiplier] in double arithmetic, and
    there are as many elapsed times as raw times.  The first elapsed time
    is exactly [0.0] when the first raw time is finite, and NaN when it is
    not. *)
Theorem normalize_spec (t0 : float) (rest : list float) :
  (forall i t, nth_error (t0 :: rest) i = Some t ->
     nth_error (normalize (t0 :: rest)) i
     = Some (f_mul (f_sub t t0) (infer_time_scale (t0 :: rest))))
  /\ List.length (normalize (t0 :: rest)) = List.length (t0 :: rest)
  /\ (is_finite t0 = true ->
      nth_error (normalize (t0 :: rest)) 0 = Some f_zero)
  /\ (is_finite t0 = false ->
      nth_error (normalize (t0 :: rest)) 0 = Some f_nan).
Proof.
  split; [|split; [|split]].
  - intros i t Hi. now apply elapsed_times_nth.
  - apply elapsed_times_length.
  - intros Hfinite.
    unfold normalize. rewrite (elapsed_times_nth _ _ t0 t0 0) by reflexivity.
    rewrite (f_sub_diag t0 Hfinite).
    destruct (infer_time_scale_cases (t0 :: rest)) as [-> | ->]; reflexivity.
  - intros Hinf.
    unfold normalize. rewrite (elapsed_times_nth _ _ t0 t0 0) by reflexivity.
    now rewrite (f_sub_diag_nan t0 Hinf), f_mul_nan_l.
Qed.

Lemma normalize_spec_witness :
  nth_error (normalize [f_of_Z 0; f_of_Z 100; f_of_Z 200; f_of_Z 300]) 3
  = Some (f_div (f_of_Z 3) (f_of_Z 10))
  /\ nth_error (normalize [f_of_Z 0; f_of_Z 100; f_of_Z 200; f_of_Z 300]) 0
     = Some f_zero.
Proof.
  split.
  - exact (proj1 (normalize_spec (f_of_Z 0) [f_of_Z 100; f_of_Z 200; f_of_Z 300])
             3 (f_of_Z 300) eq_refl).
  - exact (proj1 (proj2 (proj2
             (normalize_spec (f_of_Z 0) [f_of_Z 100; f_of_Z 200; f_of_Z 300])))
             eq_refl).
Defined.

(** C8 as stated fails when the first raw time is not finite (the JSON
    literal Infinity, or a number such as 1e999 that overflows a double):
    [inf - inf] is NaN, so the first elapsed time is NaN and not [0.0]. *)
Lemma normalize_infinite_start :
  normalize [f_inf; f_of_Z 100] = [f_nan; f_neg f_inf]
  /\ f_eqb f_nan f_zero = false.
Proof. split; reflexivity. Qed.

(** *** The order on positive doubles *)

Lemma is_positive_shape (x : float) :
  is_positive x -> x = S754_infinity false \/ exists m e, x = S754_finite false m e.
Proof.
  unfold is_positive, f_gtb, f_ltb, SFltb.
  destruct x as [s|s| |s m e]; simpl; try discriminate.
  - destruct s; [discriminate | now left].
  - destruct s; [discriminate | right; eauto].
Qed.

Lemma is_positive_not_nan (x : float) : is_positive x -> is_nan x = false.
Proof. intros H. now destruct (is_positive_shape x H) as [->|[m [e ->]]]. Qed.

Lemma f_ltb_leb (a b : float) : f_ltb a b = true -> f_leb a b = true.
Proof.
  unfold f_ltb, f_leb, SFltb, SFleb. now destruct (SFcompare a b) as [[]|].
Qed.

Lemma f_le_antisym (a b : float) :
  is_positive a -> is_positive b -> f_le a b -> f_le b a -> a = b.
Proof.
  intros Ha Hb.
  destruct (is_positive_shape a Ha) as [->|[ma [ea ->]]];
    destruct (is_positive_shape b Hb) as [->|[mb [eb ->]]];
    unfold f_le, f_leb, SFleb; simpl; intros H1 H2;
    try discriminate; try reflexivity.
  revert H1 H2. rewrite (Z.compare_antisym ea eb).
  destruct (Z.compare_spec ea eb) as [->| |]; simpl; try discriminate.
  change (Pos.compare_cont Eq ma mb) with (Pos.compare ma mb).
  change (Pos.compare_cont Eq mb ma) with (Pos.compare mb ma).
  rewrite (Pos.compare_antisym ma mb).
  destruct (Pos.compare_spec ma mb) as [->| |]; simpl; try discriminate.
  reflexivity.
Qed.

Lemma f_le_trans (a b c : float) :
  is_positive a -> is_positive b -> is_positive c ->
  f_le a b -> f_le b c -> f_le a c.
Proof.
  intros Ha Hb Hc.
  destruct (is_positive_shape a Ha) as [->|[ma [ea ->]]];
    destruct (is_positive_shape b Hb) as [->|[mb [eb ->]]];
    destruct (is_positive_shape c Hc) as [->|[mc [ec ->]]];
    unfold f_le, f_leb, SFleb; simpl; intros H1 H2;
    try discriminate; try reflexivity.
  revert H1 H2.
  change (Pos.compare_cont Eq ma mb) with (Pos.compare ma mb).
  change (Pos.compare_cont Eq mb mc) with (Pos.compare mb mc).
  change (Pos.compare_cont Eq ma mc) with (Pos.compare ma mc).
  destruct (Z.compare_spec ea eb), (Z.compare_spec eb ec), (Z.compare_spec ea ec),
    (Pos.compare_spec ma mb), (Pos.compare_spec mb mc), (Pos.compare_spec ma mc);
    simpl; intros; try reflexivity; try discriminate; lia.
Qed.

(** *** The builtin [sorted] *)

Lemma sorted_insert_perm (x : float) (l : list float) :
  Permutation (sorted_insert x l) (x :: l).
Proof.
  induction l as [|y l IH]; simpl; [reflexivity|].
  destruct (f_ltb y x); [|reflexivity].
  rewrite IH. apply perm_swap.
Qed.

Lemma sorted_perm (l : list float) : Permutation (sorted l) l.
Proof.
  induction l as [|x l IH]; simpl; [reflexivity|].
  rewrite sorted_insert_perm. now constructor.
Qed.

Lemma sorted_length (l : list float) : List.length (sorted l) = List.length l.
Proof. apply Permutation_length, sorted_perm. Qed.

Lemma sorted_insert_Sorted (x : float) (l : list float) :
  is_nan x = false -> Forall (fun y => is_nan y = false) l ->
  Sorted f_le l -> Sorted f_le (sorted_insert x l).
Proof.
  intros Hx Hl Hs. induction l as [|y l IH]; simpl.
  - repeat constructor.
  - inversion Hl as [|? ? Hy Hl']; subst. inversion Hs as [|? ? Hs' Hhd]; subst.
    destruct (f_ltb y x) eqn:Hyx.
    + constructor; [now apply IH|].
      destruct l as [|z l]; simpl.
      * constructor. now apply f_ltb_leb.
      * destruct (f_ltb z x); constructor.
        -- now inversion Hhd.
        -- now apply f_ltb_leb.
    + constructor; [exact Hs|]. constructor. unfold f_le.
      rewrite <- (f_gtb_false_leb x y Hx Hy). unfold f_gtb. now rewrite Hyx.
Qed.

Lemma sorted_Sorted (l : list float) :
  Forall (fun y => is_nan y = false) l -> Sorted f_le (sorted l).
Proof.
  induction 1 as [|x l Hx Hl IH]; simpl; [constructor|].
  apply sorted_insert_Sorted; [exact Hx| |exact IH].
  rewrite Forall_forall in *. intros y Hy. apply Hl.
  now apply (Permutation_in _ (sorted_perm l)).
Qed.

Lemma Sorted_head_least (a : float) (l : list float) :
  Forall is_positive (a :: l) -> Sorted f_le (a :: l) -> Forall (f_le a) l.
Proof.
  revert a; induction l as [|b l IH]; intros a Hp Hs; [constructor|].
  inversion Hs as [|? ? Hs' Hhd]; subst. inversion Hhd; subst.
  inversion Hp as [|? ? Ha Hp']; subst. inversion Hp' as [|? ? Hb Hp'']; subst.
  constructor; [assumption|].
  specialize (IH b Hp' Hs').
  rewrite Forall_forall in *. intros x Hx.
  apply (f_le_trans a b x); auto.
Qed.

Lemma f_le_refl (a : float) : is_positive a -> f_le a a.
Proof.
  intros Ha. destruct (is_positive_shape a Ha) as [->|[m [e ->]]];
    unfold f_le, f_leb, SFleb; simpl; [reflexivity|].
  rewrite Z.compare_refl.
  change (Pos.compare_cont Eq m m) with (Pos.compare m m).
  now rewrite Pos.compare_refl.
Qed.

(** A list of positive doubles has one sorted arrangement. *)
Lemma Sorted_perm_unique (s1 s2 : list float) :
  Forall is_positive s1 -> Sorted f_le s1 -> Sorted f_le s2 ->
  Permutation s1 s2 -> s1 = s2.
Proof.
  revert s2; induction s1 as [|a s1 IH]; intros s2 Hp H1 H2 Hperm.
  - now apply Permutation_nil in Hperm.
  - destruct s2 as [|b s2];
      [apply Permutation_sym, Permutation_nil in Hperm; discriminate|].
    assert (Hp2 : Forall is_positive (b :: s2)).
    { rewrite Forall_forall in *. intros x Hx. apply Hp.
      now apply (Permutation_in _ (Permutation_sym Hperm)). }
    assert (Hab : a = b).
    { pose proof (Sorted_head_least a s1 Hp H1) as L1.
      pose proof (Sorted_head_least b s2 Hp2 H2) as L2.
      rewrite Forall_forall in L1, L2.
      assert (Ha : is_positive a) by now inversion Hp.
      assert (Hb : is_positive b) by now inversion Hp2.
      assert (Hba : f_le b a).
      { destruct (Permutation_in a Hperm (or_introl eq_refl)) as [->|Hin];
          [now apply f_le_refl | now apply L2]. }
      assert (Hab : f_le a b).
      { destruct (Permutation_in b (Permutation_sym Hperm) (or_introl eq_refl))
          as [->|Hin]; [now apply f_le_refl | now apply L1]. }
      now apply f_le_antisym. }
    subst b. f_equal. apply IH.
    + now inversion Hp.
    + now inversion H1.
    + now inversion H2.
    + now apply Permutation_cons_inv in Hperm.
Qed.

(** *** Inference of the time scale *)

Lemma consecutive_deltas_nth (times_raw : list float) (i : nat) (a b : float) :
  nth_error times_raw i = Some a -> nth_error times_raw (S i) = Some b ->
  nth_error (consecutive_deltas times_raw) i = Some (f_abs (f_sub b a)).
Proof.
  revert i; induction times_raw as [|x l IH]; intros i Ha Hb.
  - destruct i; discriminate.
  - destruct l as [|y l']; [destruct i; discriminate|].
    destruct i as [|i].
    + simpl in *. now inversion Ha; inversion Hb.
    + change (consecutive_deltas (x :: y :: l'))
        with (f_abs (f_sub y x) :: consecutive_deltas (y :: l')).
      simpl nth_error. apply IH; assumption.
Qed.

Lemma consecutive_deltas_length (times_raw : list float) :
  List.length (consecutive_deltas times_raw) = List.length times_raw - 1.
Proof.
  induction times_raw as [|x l IH]; [reflexivity|].
  destruct l as [|y l']; [reflexivity|].
  change (consecutive_deltas (x :: y :: l'))
    with (f_abs (f_sub y x) :: consecutive_deltas (y :: l')).
  simpl List.length in *. lia.
Qed.

(** The list the code builds is the list the specification describes. *)
Lemma consecutive_deltas_spec (times_raw : list float) :
  consecutive_deltas times_raw = abs_differences times_raw.
Proof.
  unfold abs_differences.
  induction times_raw as [|x l IH]; [reflexivity|].
  destruct l as [|y l']; [reflexivity|].
  change (consecutive_deltas (x :: y :: l'))
    with (f_abs (f_sub y x) :: consecutive_deltas (y :: l')).
  rewrite IH.
  replace (List.length (x :: y :: l') - 1) with (S (List.length (y :: l') - 1))
    by (simpl; lia).
  rewrite <- cons_seq, <- seq_shift, map_cons, map_map. reflexivity.
Qed.

Lemma positive_deltas_spec (times_raw : list float) :
  positive_deltas times_raw = positive_differences times_raw.
Proof.
  unfold positive_deltas, positive_differences.
  now rewrite consecutive_deltas_spec.
Qed.

Lemma positive_deltas_short (times_raw : list float) :
  List.length times_raw < 2 -> positive_deltas times_raw = [].
Proof.
  intros H. unfold positive_deltas.
  destruct times_raw as [|x [|y l]]; simpl in *; [reflexivity | reflexivity | lia].
Qed.

Lemma positive_deltas_positive (times_raw : list float) :
  Forall is_positive (positive_deltas times_raw).
Proof.
  apply Forall_forall. intros d Hd. unfold positive_deltas in Hd.
  apply filter_In in Hd. apply Hd.
Qed.

Lemma infer_time_scale_unfold (times_raw : list float) :
  infer_time_scale times_raw =
  match positive_deltas times_raw with
  | [] => f_one
  | _ :: _ =>
      if f_geb (nth (List.length (positive_deltas times_raw) / 2)
                    (sorted (positive_deltas times_raw)) f_nan) f_five
      then f_milli else f_one
  end.
Proof.
  unfold infer_time_scale. destruct (List.length times_raw <? 2) eqn:Hlen.
  - apply Nat.ltb_lt in Hlen. now rewrite (positive_deltas_short _ Hlen).
  - fold (positive_deltas times_raw). rewrite sorted_length. reflexivity.
Qed.

Lemma is_median_nil (m : float) : ~ is_median [] m.
Proof.
  intros [s [Hp [_ Hn]]]. apply Permutation_sym, Permutation_nil in Hp. subst.
  discriminate.
Qed.

Lemma is_median_unique (ds : list float) (m m' : float) :
  Forall is_positive ds -> is_median ds m -> is_median ds m' -> m = m'.
Proof.
  intros Hpos [s [Hp [Hs Hn]]] [s' [Hp' [Hs' Hn']]].
  assert (s = s').
  { apply Sorted_perm_unique; auto.
    - rewrite Forall_forall in *. intros x Hx. apply Hpos.
      now apply (Permutation_in _ Hp).
    - now rewrite Hp, Hp'. }
  subst. congruence.
Qed.

(** The element the code reads, [deltas_sorted[len(deltas_sorted) // 2]], is
    the median of the specification; the index is always in range. *)
Lemma code_median (ds : list float) :
  ds <> [] -> Forall is_positive ds ->
  exists m, nth (List.length ds / 2) (sorted ds) f_nan = m
            /\ is_median ds m /\ is_positive m.
Proof.
  intros Hne Hpos.
  assert (Hlt : List.length ds / 2 < List.length (sorted ds)).
  { rewrite sorted_length. destruct ds; [congruence|].
    apply Nat.div_lt; simpl; lia. }
  destruct (nth_error (sorted ds) (List.length ds / 2)) as [m|] eqn:Hn;
    [|apply nth_error_None in Hn; lia].
  exists m. split; [now apply nth_error_nth|]. split.
  - exists (sorted ds). split; [apply sorted_perm|]. split; [|exact Hn].
    apply sorted_Sorted. eapply Forall_impl; [|exact Hpos].
    intros; now apply is_positive_not_nan.
  - rewrite Forall_forall in Hpos. apply Hpos.
    apply (Permutation_in _ (sorted_perm ds)). eapply nth_error_In; eauto.
Qed.

Lemma f_milli_not_one : f_milli <> f_one.
Proof. vm_compute. discriminate. Qed.

Lemma f_five_not_nan : is_nan f_five = false.
Proof. reflexivity. Qed.

(** C2.  The inferred multiplier is [0.001] exactly when the median of the
    positive absolute consecutive differences [|raw[i + 1] - raw[i]|] (the
    element at index [floor(n/2)] of their sorted arrangement) is at least
    5, and it is [1.0] exactly when there are fewer than two samples, or no
    positive difference is left, or that median is below 5.  Both source
    files compute the same function. *)
Theorem infer_time_scale_spec (times_raw : list float) :
  (infer_time_scale times_raw = f_milli <->
     exists m, is_median (positive_differences times_raw) m /\ f_le f_five m)
  /\ (infer_time_scale times_raw = f_one <->
        List.length times_raw < 2
        \/ positive_differences times_raw = []
        \/ exists m, is_median (positive_differences times_raw) m
                     /\ f_ltb m f_five = true)
  /\ _infer_time_scale_ms_to_s times_raw = infer_time_scale times_raw.
Proof.
  rewrite <- positive_deltas_spec.
  split; [|split; [|reflexivity]]; rewrite infer_time_scale_unfold;
    pose proof (positive_deltas_positive times_raw) as Hpos;
    pose proof (positive_deltas_short times_raw) as Hshort;
    destruct (positive_deltas times_raw) as [|d ds] eqn:Hds.
  - split; [intros H; symmetry in H; now apply f_milli_not_one in H|].
    intros [m [Hm _]]. now apply is_median_nil in Hm.
  - destruct (code_median (d :: ds)) as [m0 [Hnth [Hmed Hp0]]];
      [discriminate | exact Hpos |]. rewrite Hnth.
    destruct (f_geb m0 f_five) eqn:Hge; split.
    + intros _. exists m0. now split.
    + reflexivity.
    + intros H. symmetry in H. now apply f_milli_not_one in H.
    + intros [m [Hm Hle]].
      rewrite (is_median_unique _ _ _ Hpos Hm Hmed) in Hle.
      unfold f_geb, f_le in *. congruence.
  - split; [auto|reflexivity].
  - destruct (code_median (d :: ds)) as [m0 [Hnth [Hmed Hp0]]];
      [discriminate | exact Hpos |]. rewrite Hnth.
    destruct (f_geb m0 f_five) eqn:Hge; split.
    + intros H. now apply f_milli_not_one in H.
    + intros [Hlen|[Hnil|[m [Hm Hlt]]]].
      * specialize (Hshort Hlen). discriminate.
      * discriminate.
      * rewrite (is_median_unique _ _ _ Hpos Hm Hmed) in Hlt.
        unfold f_geb, f_leb, f_ltb, SFleb, SFltb in *.
        rewrite (SFcompare_swap m0 f_five) in Hge.
        destruct (SFcompare m0 f_five) as [[]|]; simpl in *; discriminate.
    + intros _. right; right. exists m0. split; [exact Hmed|].
      pose proof (f_gtb_false_leb f_five m0 f_five_not_nan
                    (is_positive_not_nan _ Hp0)) as H.
      unfold f_geb in Hge. rewrite Hge in H. unfold f_gtb in H.
      now destruct (f_ltb m0 f_five).
    + reflexivity.
Qed.

(** The differences of the specification's 100 ms cadence. *)
Example positive_differences_cadence :
  positive_differences [f_of_Z 0; f_of_Z 100; f_of_Z 200; f_of_Z 300]
  = [f_of_Z 100; f_of_Z 100; f_of_Z 100].
Proof. reflexivity. Qed.

(** The two sampling cadences of the specification. *)
Example infer_time_scale_milliseconds :
  infer_time_scale [f_of_Z 0; f_of_Z 100; f_of_Z 200; f_of_Z 300] = f_milli.
Proof. reflexivity. Qed.

Example infer_time_scale_seconds :
  infer_time_scale [f_zero; f_div (f_of_Z 1) (f_of_Z 10);
                    f_div (f_of_Z 2) (f_of_Z 10); f_div (f_of_Z 3) (f_of_Z 10)] = f_one.
Proof. reflexivity. Qed.

(** ** Comparison overlay *)

Section CompareFacts.

Variable float_of_str : string -> option float.

(** C9 (amended).  In compare mode the two traces of a field share one
    colour (the override, or the palette entry of the field's position);
    the first shot is drawn with the field's configured pattern, solid
    unless overridden; the second shot is dashed when the first is solid,
    and whenever the first pattern is not the dotted one the second pattern
    differs from it.  Each trace keeps its own shot's time base and trim. *)
Theorem compare_field_styling (shot1 shot2 : ShotData) (trim1 trim2 : nat)
    (field_styles : list (string * Style)) (i : nat)
    (path : list string) (name unit : string) (is_secondary : bool)
    (series1 series2 : list float)
  (H1 : get_series float_of_str shot1 path = Ok series1)
  (H2 : get_series float_of_str shot2 path = Ok series2) :
  exists line1 line2,
    compare_field float_of_str shot1 shot2 trim1 trim2 field_styles i
      (path, name, unit, is_secondary) = Ok (line1, line2)
    /\ line_color line1 = line_color line2
    /\ line_color line1 = color_or_default (style_color (field_style field_styles path)) i
    /\ line_linestyle line1 = configured_linestyle (field_style field_styles path)
    /\ (style_linestyle (field_style field_styles path) = None ->
        line_linestyle line1 = "-" /\ line_linestyle line2 = "--")
    /\ (line_linestyle line1 = "-" -> line_linestyle line2 = "--")
    /\ (line_linestyle line1 <> ":" -> line_linestyle line2 <> line_linestyle line1)
    /\ line_x line1 = firstn trim1 (time_s shot1)
    /\ line_y line1 = firstn trim1 series1
    /\ line_x line2 = firstn trim2 (time_s shot2)
    /\ line_y line2 = firstn trim2 series2.
Proof.
  unfold compare_field. rewrite H1, H2. simpl.
  fold (field_style field_styles path).
  fold (configured_linestyle (field_style field_styles path)).
  do 2 eexists. split; [reflexivity|]. simpl.
  repeat split.
  - unfold configured_linestyle. now rewrite H.
  - unfold configured_linestyle. now rewrite H.
  - intros ->. reflexivity.
  - destruct (String.eqb_spec (configured_linestyle (field_style field_styles path)) "-")
      as [->|Hne]; [discriminate|]. congruence.
Qed.

End CompareFacts.

Lemma compare_field_styling_witness :
  exists line1 line2,
    compare_field no_numeric_strings shot_two shot_two 2 1 [] 3 pressure_field
    = Ok (line1, line2)
    /\ line_color line1 = Tab10 3 /\ line_color line2 = Tab10 3
    /\ line_linestyle line1 = "-" /\ line_linestyle line2 = "--"
    /\ List.length (line_y line1) = 2 /\ List.length (line_y line2) = 1.
Proof.
  destruct (compare_field_styling no_numeric_strings shot_two shot_two 2 1 [] 3
              ["shot"; "pressure"] "Pressure" "bar" false
              [f_of_Z 9; f_div (f_of_Z 17) (f_of_Z 2)]
              [f_of_Z 9; f_div (f_of_Z 17) (f_of_Z 2)])
    as [l1 [l2 [Hc [Hcol [Hdef [_ [Hstyle [_ [_ [_ [Hy1 [_ Hy2]]]]]]]]]]]].
  - reflexivity.
  - reflexivity.
  - exists l1, l2. split; [exact Hc|].
    destruct (Hstyle eq_refl) as [Hs1 Hs2].
    rewrite <- Hcol, Hdef, Hs1, Hs2, Hy1, Hy2. repeat split.
Defined.

(** C9 as stated fails in two ways.  With the dotted pattern as override
    both shots are drawn dotted, so the pattern no longer tells them apart;
    and with any override of the pattern the first shot is not solid. *)
Lemma compare_field_same_pattern :
  (exists line1 line2,
     compare_field no_numeric_strings shot_two shot_two 2 2
       [("shot.pressure", dotted_style)] 0 pressure_field = Ok (line1, line2)
     /\ line_linestyle line1 = ":" /\ line_linestyle line2 = ":")
  /\ (exists line1 line2,
        compare_field no_numeric_strings shot_two shot_two 2 2
          [("shot.pressure", dashed_red_style)] 0 pressure_field = Ok (line1, line2)
        /\ line_linestyle line1 = "--" /\ line_linestyle line2 = ":"
        /\ line_color line1 = ColorStr "#d62728").
Proof.
  split; do 2 eexists; (split; [vm_compute; reflexivity|]); repeat split.
Qed.

(** ** Dual-axis scale aligner *)

Section AlignFacts.

Variable A : arith.

Lemma _align_yaxis_zero_eq (ax1 ax2 : Axes A) :
  _align_yaxis_zero ax1 ax2 = align_yaxis_zero ax1 ax2.
Proof. reflexivity. Qed.

(** The aligner, step by step: nothing changes in the two degenerate cases;
    otherwise each axis with a positive extent is asked to keep its maximum
    and to take the minimum [(-target_ratio) * max], in turn, and the first
    refusal of [set_ylim] ends the call. *)
Lemma align_yaxis_zero_steps (range1 range2 : num A * num A) :
  align_yaxis_zero {| ylim := range1 |} {| ylim := range2 |} =
  if degenerate A range1 range2
  then ({| ylim := range1 |}, {| ylim := range2 |}, None)
  else if refused A range1 (target_ratio A range1 range2)
  then ({| ylim := range1 |}, {| ylim := range2 |}, Some ValueError)
  else if refused A range2 (target_ratio A range1 range2)
  then ({| ylim := adjusted A range1 (target_ratio A range1 range2) |},
        {| ylim := range2 |}, Some ValueError)
  else ({| ylim := adjusted A range1 (target_ratio A range1 range2) |},
        {| ylim := adjusted A range2 (target_ratio A range1 range2) |}, None).
Proof.
  destruct range1 as [a1 b1], range2 as [a2 b2].
  unfold align_yaxis_zero, degenerate, refused, accepted, adjusted, target_ratio,
    ratio, has_positive_extent, widened_min, widened_max, get_ylim, set_ylim,
    py_max, py_min, py_gt, py_truediv; simpl.
  repeat match goal with
         | |- context [if ?c then _ else _] =>
             lazymatch c with
             | context [if _ then _ else _] => fail
             | _ => destruct c eqn:?; simpl in *
             end
         end; try reflexivity; try congruence.
Qed.

Lemma align_steps (range1 range2 : num A * num A) :
  align A range1 range2 =
  if degenerate A range1 range2 then (range1, range2)
  else if refused A range1 (target_ratio A range1 range2) then (range1, range2)
  else if refused A range2 (target_ratio A range1 range2)
  then (adjusted A range1 (target_ratio A range1 range2), range2)
  else (adjusted A range1 (target_ratio A range1 range2),
        adjusted A range2 (target_ratio A range1 range2)).
Proof.
  unfold align. rewrite align_yaxis_zero_steps.
  destruct (degenerate A range1 range2); [reflexivity|].
  destruct (refused A range1 _); [reflexivity|].
  destruct (refused A range2 _); reflexivity.
Qed.

Lemma align_raises_steps (range1 range2 : num A * num A) :
  align_raises A range1 range2 =
  if degenerate A range1 range2 then None
  else if refused A range1 (target_ratio A range1 range2)
          || refused A range2 (target_ratio A range1 range2)
  then Some ValueError else None.
Proof.
  unfold align_raises. rewrite align_yaxis_zero_steps.
  destruct (degenerate A range1 range2); [reflexivity|].
  destruct (refused A range1 _); [reflexivity|].
  destruct (refused A range2 _); reflexivity.
Qed.

Lemma adjusted_snd (range : num A * num A) (target : num A) :
  snd (adjusted A range target) = snd range.
Proof. unfold adjusted. now destruct (has_positive_extent A range). Qed.



Lemma align_maxima_unchanged (range1 range2 : num A * num A) :
  snd (fst (align A range1 range2)) = snd range1
  /\ snd (snd (align A range1 range2)) = snd range2.
Proof.
  rewrite align_steps.
  destruct (degenerate A range1 range2); [now split|].
  destruct (refused A range1 _); [now split|].
  destruct (refused A range2 _); simpl; now rewrite ?adjusted_snd.
Qed.



End AlignFacts.

(** ** Signs of rounded products and quotients *)

Lemma shr_1_nonneg mrs : (0 <= shr_m mrs)%Z -> (0 <= shr_m (shr_1 mrs))%Z.
Proof.
  destruct mrs as [m r s]; simpl. destruct m as [|p|p]; simpl; try lia.
  destruct p; simpl; lia.
Qed.

Lemma iter_shr_1_nonneg p mrs :
  (0 <= shr_m mrs)%Z -> (0 <= shr_m (SpecFloat.iter_pos shr_1 p mrs))%Z.
Proof.
  revert mrs; induction p as [p IH|p IH|]; intros mrs H; simpl.
  - apply IH, IH, shr_1_nonneg, H.
  - apply IH, IH, H.
  - apply shr_1_nonneg, H.
Qed.

Lemma shr_fexp_nonneg m e l :
  (0 <= m)%Z -> (0 <= shr_m (fst (shr_fexp prec emax m e l)))%Z.
Proof.
  intros H. unfold shr_fexp, shr.
  assert (H0 : (0 <= shr_m (shr_record_of_loc m l))%Z) by (destruct l as [|[]]; exact H).
  destruct (fexp prec emax (Zdigits2 m + e) - e)%Z; simpl; auto.
  now apply iter_shr_1_nonneg.
Qed.

Lemma round_nearest_even_nonneg m l : (0 <= m)%Z -> (0 <= round_nearest_even m l)%Z.
Proof.
  intros H. destruct l as [|[]]; simpl; try lia. destruct (Z.even m); lia.
Qed.

Lemma binary_round_aux_sign s m e l :
  (0 <= m)%Z -> has_sign s (binary_round_aux prec emax s m e l).
Proof.
  intros H. unfold binary_round_aux.
  pose proof (shr_fexp_nonneg m e l H) as H1.
  destruct (shr_fexp prec emax m e l) as [mrs' e'] eqn:E1. simpl in H1.
  pose proof (shr_fexp_nonneg _ e' loc_Exact
                (round_nearest_even_nonneg _ (loc_of_shr_record mrs') H1)) as H2.
  destruct (shr_fexp prec emax (round_nearest_even _ _) e' loc_Exact) as [mrs'' e''] eqn:E2.
  simpl in H2. destruct (shr_m mrs''); simpl; [exact eq_refl| |lia].
  destruct (_ <=? _)%Z; exact eq_refl.
Qed.

Lemma f_mul_sign (x y : float) (sx sy : bool) :
  has_sign sx x -> has_sign sy y -> is_finite y = true -> is_zero y = false ->
  has_sign (xorb sx sy) (f_mul x y).
Proof.
  destruct x as [s1|s1| |s1 m1 e1], y as [s2|s2| |s2 m2 e2]; simpl;
    try discriminate; try contradiction; intros; subst; try exact eq_refl.
  apply binary_round_aux_sign. lia.
Qed.

Lemma f_div_sign (x y : float) (sx sy : bool) :
  has_sign sx x -> has_sign sy y -> is_finite x = true -> is_finite y = true ->
  is_zero y = false ->
  has_sign (xorb sx sy) (f_div x y).
Proof.
  destruct x as [s1|s1| |s1 m1 e1], y as [s2|s2| |s2 m2 e2]; simpl;
    try discriminate; try contradiction; intros; subst; try exact eq_refl.
  unfold f_div, SFdiv.
  destruct (SFdiv_core_binary prec emax (Z.pos m1) e1 (Z.pos m2) e2) as [[mz ez] lz] eqn:E.
  apply binary_round_aux_sign.
  unfold SFdiv_core_binary in E.
  match type of E with (let '(q, r) := Z.div_eucl ?a ?b in _) = _ =>
    assert (Ha : (0 <= a)%Z);
    [| pose proof (Z.div_pos a b Ha ltac:(lia)) as Hq; unfold Z.div in Hq;
       destruct (Z.div_eucl a b) as [q r]; inversion E; subst; exact Hq ]
  end.
  destruct (e1 - e2 - _)%Z; try lia. apply Z.shiftl_nonneg. lia.
Qed.

(** ** The aligner in binary64 *)

Lemma has_sign_false_nonneg (x : float) : has_sign false x -> f_leb f_zero x = true.
Proof. destruct x as [s|s| |s m e]; simpl; intros H; subst; try reflexivity; contradiction. Qed.

Lemma has_sign_true_nonpos (x : float) : has_sign true x -> f_leb x f_zero = true.
Proof. destruct x as [s|s| |s m e]; simpl; intros H; subst; try reflexivity; contradiction. Qed.

Lemma nonneg_cases (x : float) :
  f_leb f_zero x = true -> is_zero x = true \/ has_sign false x.
Proof.
  destruct x as [s|s| |s m e]; simpl; intros H; auto; try discriminate;
    destruct s; try discriminate; right; reflexivity.
Qed.

Lemma positive_cases (x : float) :
  f_ltb f_zero x = true -> is_finite x = true ->
  has_sign false x /\ is_zero x = false.
Proof.
  destruct x as [s|s| |s m e]; simpl; intros H F; try discriminate.
  destruct s; try discriminate. split; reflexivity.
Qed.

Lemma not_positive_cases (x : float) :
  f_ltb f_zero x = false -> is_finite x = true ->
  is_zero x = true \/ (has_sign true x /\ is_zero x = false).
Proof.
  destruct x as [s|s| |s m e]; simpl; intros H F; try discriminate; auto.
  destruct s; try discriminate. right. split; reflexivity.
Qed.

Lemma b64_positive_extent (a b : float) :
  has_positive_extent binary64 (a, b) = true ->
  f_ltb f_zero b = true /\ widened_max binary64 b = @PyFloat binary64 b.
Proof.
  unfold has_positive_extent, widened_max, py_max, py_gt, py_lt; simpl.
  destruct (f_ltb b (S754_zero false)); simpl; intros H; [discriminate H|]. auto.
Qed.

Lemma f_div_nonneg (n b : float) :
  is_finite n = true -> is_finite b = true ->
  f_leb f_zero n = true -> f_ltb f_zero b = true ->
  f_leb f_zero (f_div n b) = true.
Proof.
  intros Fn Fb Hn Hb. destruct (positive_cases b Hb Fb) as [Sb Zb].
  destruct (nonneg_cases n Hn) as [Hz|Hs].
  - destruct n as [s| | |]; try discriminate.
    destruct b as [|?| |sb mb eb]; try discriminate. reflexivity.
  - apply has_sign_false_nonneg.
    change false with (xorb false false). now apply f_div_sign.
Qed.

Lemma b64_ratio_nonneg (a b : float) :
  is_finite a = true -> is_finite b = true ->
  f_leb f_zero (to_float binary64 (ratio binary64 (a, b))) = true.
Proof.
  intros Fa Fb. unfold ratio.
  destruct (has_positive_extent binary64 (a, b)) eqn:Hp; [|reflexivity].
  destruct (b64_positive_extent a b Hp) as [Hb Hw].
  simpl fst; simpl snd. rewrite Hw.
  unfold py_truediv, to_float. apply f_div_nonneg; auto.
  - unfold widened_min, py_min, py_lt; simpl.
    destruct (f_ltb (S754_zero false) a); simpl; [reflexivity|].
    now destruct a.
  - unfold widened_min, py_min, py_lt; simpl.
    destruct (f_ltb (S754_zero false) a) eqn:Ha; simpl; [reflexivity|].
    destruct (not_positive_cases a Ha Fa) as [Hz|[Hs _]].
    + now destruct a.
    + apply has_sign_false_nonneg. destruct a; simpl in *; subst; try contradiction; reflexivity.
Qed.

Lemma b64_target_nonneg (range1 range2 : float * float) :
  finite_range range1 -> finite_range range2 ->
  f_leb f_zero (target_ratio binary64 range1 range2) = true.
Proof.
  destruct range1 as [a1 b1], range2 as [a2 b2]. intros [F1 F1'] [F2 F2'].
  unfold target_ratio, py_max. simpl in *.
  destruct (py_gt _ _); now apply b64_ratio_nonneg.
Qed.

Lemma f_mul_neg_nonpos (t b : float) :
  f_leb f_zero t = true -> f_ltb f_zero b = true -> is_finite b = true ->
  f_leb (f_mul (f_neg t) b) f_zero = true.
Proof.
  intros Ht Hb Fb. destruct (positive_cases b Hb Fb) as [Sb Zb].
  destruct (nonneg_cases t Ht) as [Hz|Hs].
  - destruct t as [s| | |]; try discriminate.
    destruct b as [|?| |sb mb eb]; try discriminate. reflexivity.
  - apply has_sign_true_nonpos.
    change true with (xorb true false). apply f_mul_sign; auto.
    destruct t; simpl in *; subst; try contradiction; reflexivity.
Qed.

Lemma nonneg_not_below_inf (x : float) :
  f_leb f_zero x = true -> f_ltb x f_inf = false -> x = f_inf.
Proof.
  destruct x as [s|s| |s m e]; try discriminate.
  destruct s; [discriminate | reflexivity].
Qed.

Lemma b64_target_one_sided (range1 range2 : float * float) :
  finite_range range1 -> finite_range range2 ->
  has_positive_extent binary64 range1 && has_positive_extent binary64 range2 = false ->
  target_ratio binary64 range1 range2 = f_inf.
Proof.
  intros F1 F2 H. unfold target_ratio.
  destruct range1 as [a1 b1], range2 as [a2 b2]. destruct F1 as [Fa1 Fb1], F2 as [Fa2 Fb2].
  simpl in *.
  pose proof (b64_ratio_nonneg a1 b1 Fa1 Fb1) as N1.
  pose proof (b64_ratio_nonneg a2 b2 Fa2 Fb2) as N2.
  unfold ratio in *.
  destruct (has_positive_extent binary64 (a1, b1)) eqn:H1;
    destruct (has_positive_extent binary64 (a2, b2)) eqn:H2; try discriminate;
    unfold py_max, py_gt, py_lt, py_truediv in *; simpl in *.
  - match goal with |- context [f_ltb ?x ?y] => destruct (f_ltb x y) eqn:E end;
      [reflexivity|]. simpl. now apply nonneg_not_below_inf.
  - match goal with |- context [f_ltb ?x ?y] => destruct (f_ltb x y) eqn:E end;
      [|reflexivity]. simpl.
    match type of E with f_ltb _ ?d = true => destruct d as [s|s| |s m e] end;
      try discriminate; destruct s; discriminate.
  - reflexivity.
Qed.

Lemma b64_adjusted_positive (a b t : float) :
  has_positive_extent binary64 (a, b) = true ->
  adjusted binary64 (a, b) t = (f_mul (f_neg t) b, b).
Proof. intros H. unfold adjusted. now rewrite H. Qed.

(** A finite maximum that is not positive widens to zero. *)
Lemma b64_no_extent (a b : float) :
  is_finite b = true -> has_positive_extent binary64 (a, b) = false ->
  py_eq binary64 (widened_max binary64 b) (PyInt 0) = true.
Proof.
  destruct b as [s|s| |s m e]; try discriminate; destruct s; intros _ H;
    try reflexivity; vm_compute in H; discriminate.
Qed.

(** Outside the degenerate cases at least one of two finite ranges has a
    positive extent. *)
Lemma b64_some_positive_extent (range1 range2 : float * float) :
  finite_range range1 -> finite_range range2 ->
  degenerate binary64 range1 range2 = false ->
  has_positive_extent binary64 range1 || has_positive_extent binary64 range2 = true.
Proof.
  destruct range1 as [a1 b1], range2 as [a2 b2]. intros [_ F1] [_ F2] Hd.
  simpl in F1, F2.
  destruct (has_positive_extent binary64 (a1, b1)) eqn:H1; [reflexivity|].
  destruct (has_positive_extent binary64 (a2, b2)) eqn:H2; [reflexivity|].
  unfold degenerate in Hd. simpl fst in Hd; simpl snd in Hd.
  rewrite (b64_no_extent a1 b1 F1 H1), (b64_no_extent a2 b2 F2 H2) in Hd.
  discriminate.
Qed.

(** With an infinite target ratio the minimum asked for is minus infinity,
    which [set_ylim] refuses. *)
Lemma b64_refused_inf (range : float * float) :
  finite_range range -> has_positive_extent binary64 range = true ->
  adjusted binary64 range f_inf = (S754_infinity true, snd range)
  /\ refused binary64 range f_inf = true.
Proof.
  destruct range as [a b]. intros [_ Fb] Hp. simpl in Fb.
  assert (Hm : f_mul (f_neg f_inf) b = S754_infinity true).
  { destruct (b64_positive_extent a b Hp) as [Hb _].
    destruct (positive_cases b Hb Fb) as [Sb Zb].
    destruct b as [s|s| |s m e]; simpl in *; try discriminate; subst.
    reflexivity. }
  unfold refused, accepted. rewrite Hp, (b64_adjusted_positive a b f_inf Hp).
  rewrite Hm. split; reflexivity.
Qed.

Lemma b64_adjusted_contains_zero (range : float * float) (t : float) :
  is_finite (snd range) = true -> f_leb f_zero t = true ->
  has_positive_extent binary64 range = true ->
  contains_zero (adjusted binary64 range t).
Proof.
  destruct range as [a b]. simpl. intros Fb Ht Hp.
  rewrite (b64_adjusted_positive a b t Hp).
  destruct (b64_positive_extent a b Hp) as [Hb _].
  split; simpl; [now apply f_mul_neg_nonpos | now apply f_ltb_leb].
Qed.

Lemma not_refused_accepted (range : float * float) (t : float) :
  refused binary64 range t = false ->
  has_positive_extent binary64 range = true ->
  finite_range (adjusted binary64 range t).
Proof.
  unfold refused, accepted, finite_range. intros R Hp. rewrite Hp in R.
  simpl in R. apply negb_false_iff, andb_true_iff in R. exact R.
Qed.

(** With exactly one axis of positive extent the call raises and leaves
    both axes as they were. *)
Lemma b64_one_sided (range1 range2 : float * float) :
  finite_range range1 -> finite_range range2 ->
  degenerate binary64 range1 range2 = false ->
  has_positive_extent binary64 range1 && has_positive_extent binary64 range2 = false ->
  target_ratio binary64 range1 range2 = f_inf
  /\ align_raises binary64 range1 range2 = Some ValueError
  /\ align binary64 range1 range2 = (range1, range2).
Proof.
  intros F1 F2 Hd H.
  pose proof (b64_target_one_sided range1 range2 F1 F2 H) as Ht.
  pose proof (b64_some_positive_extent range1 range2 F1 F2 Hd) as Hsome.
  split; [exact Ht|].
  rewrite align_raises_steps, align_steps, Hd, Ht.
  destruct (has_positive_extent binary64 range1) eqn:H1.
  - destruct (b64_refused_inf range1 F1 H1) as [_ ->]. split; reflexivity.
  - destruct (has_positive_extent binary64 range2) eqn:H2; [|discriminate].
    destruct (b64_refused_inf range2 F2 H2) as [_ ->].
    assert (R1 : refused binary64 range1 f_inf = false)
      by (unfold refused; now rewrite H1).
    rewrite R1. unfold adjusted. rewrite H1. split; reflexivity.
Qed.

(** *** The claims about the aligner *)

(** C4 (code defect).  The comment in the aligner promises that neither
    axis clips data, and the claim says the same: no output minimum lies
    above the original one.  On the ranges (-1, 49) and (0, 1) the call
    returns, the target ratio is the rounded quotient 1/49, and the rounded
    product of that quotient with 49 is 0.9999999999999999: the first axis
    comes out with a minimum above its original minimum -1.  And on the
    ranges (-2, 10) and (-5, -1) the minimum asked for is minus infinity:
    [set_ylim] raises and no axis is extended at all. *)
Theorem align_clips_by_rounding :
  align_raises binary64 (range64 (-1) 49) (range64 0 1) = None
  /\ fst (fst (align binary64 (range64 (-1) 49) (range64 0 1)))
     = f_neg (f_mul (f_div (f_of_Z 1) (f_of_Z 49)) (f_of_Z 49))
  /\ f_ltb (f_of_Z (-1)) (fst (fst (align binary64 (range64 (-1) 49) (range64 0 1))))
     = true
  /\ f_leb (fst (fst (align binary64 (range64 (-1) 49) (range64 0 1)))) (f_of_Z (-1))
     = false
  /\ align_raises binary64 (range64 (-2) 10) (range64 (-5) (-1)) = Some ValueError
  /\ align binary64 (range64 (-2) 10) (range64 (-5) (-1))
     = (range64 (-2) 10, range64 (-5) (-1)).
Proof. repeat split; vm_compute; reflexivity. Qed.




(** C6 (code defect).  The function widens its local copies of the limits
    to contain zero, but the early returns and the skipped [set_ylim] leave
    the axes with their original limits.  Two all-positive ranges come back
    unchanged, with zero below both minima; and an all-negative range next
    to one with positive extent comes back unchanged, with zero above its
    maximum. *)
Theorem align_leaves_ranges_without_zero :
  align binary64 (range64 1 10) (range64 2 5) = (range64 1 10, range64 2 5)
  /\ f_ltb f_zero (fst (fst (align binary64 (range64 1 10) (range64 2 5)))) = true
  /\ f_ltb f_zero (fst (snd (align binary64 (range64 1 10) (range64 2 5)))) = true
  /\ snd (align binary64 (range64 (-2) 10) (range64 (-5) (-1))) = range64 (-5) (-1)
  /\ f_ltb (snd (snd (align binary64 (range64 (-2) 10) (range64 (-5) (-1))))) f_zero = true
  /\ degenerate exact (rangeX 1 10) (rangeX 2 5) = true
  /\ align exact (rangeX 1 10) (rangeX 2 5) = (rangeX 1 10, rangeX 2 5).
Proof.
  repeat split; vm_compute; reflexivity.
Qed.

(** In binary64, on finite ranges outside the degenerate cases: when the
    call returns, both axes had a positive extent and both come out with
    finite limits that contain zero; when it raises, the exception is
    [ValueError], the second axis is as it went in, and the first axis is
    either as it went in or was adjusted, to limits that contain zero,
    before the second one was refused. *)
Theorem adjusted_axis_contains_zero (range1 range2 : float * float)
  (F1 : finite_range range1) (F2 : finite_range range2)
  (Hnd : degenerate binary64 range1 range2 = false) :
  (align_raises binary64 range1 range2 = None ->
     has_positive_extent binary64 range1 = true
     /\ has_positive_extent binary64 range2 = true
     /\ contains_zero (fst (align binary64 range1 range2))
     /\ contains_zero (snd (align binary64 range1 range2))
     /\ finite_range (fst (align binary64 range1 range2))
     /\ finite_range (snd (align binary64 range1 range2)))
  /\ (forall e, align_raises binary64 range1 range2 = Some e ->
        e = ValueError
        /\ snd (align binary64 range1 range2) = range2
        /\ (fst (align binary64 range1 range2) = range1
            \/ (has_positive_extent binary64 range1 = true
                /\ has_positive_extent binary64 range2 = true
                /\ contains_zero (fst (align binary64 range1 range2))))).
Proof.
  pose proof (b64_target_nonneg range1 range2 F1 F2) as Ht.
  pose proof (b64_one_sided range1 range2 F1 F2 Hnd) as Hone.
  rewrite align_raises_steps, align_steps, Hnd in *.
  set (t := target_ratio binary64 range1 range2) in *.
  destruct (refused binary64 range1 t) eqn:R1.
  { split; [discriminate|]. intros e He. inversion He. auto. }
  destruct (refused binary64 range2 t) eqn:R2.
  - split; [discriminate|]. intros e He. inversion He.
    split; [reflexivity|]. split; [reflexivity|].
    destruct (has_positive_extent binary64 range1) eqn:H1.
    + right. split; [reflexivity|].
      assert (H2 : has_positive_extent binary64 range2 = true)
        by (unfold refused in R2; now destruct (has_positive_extent binary64 range2)).
      split; [exact H2|]. simpl.
      apply b64_adjusted_contains_zero; auto. apply F1.
    + left. simpl. unfold adjusted. now rewrite H1.
  - split; [|discriminate]. intros _.
    destruct (has_positive_extent binary64 range1) eqn:H1;
      destruct (has_positive_extent binary64 range2) eqn:H2;
      try (destruct (Hone eq_refl) as [_ [Hr _]]; discriminate Hr).
    simpl.
    repeat split; try (apply b64_adjusted_contains_zero; auto; (apply F1 || apply F2));
      try (apply (not_refused_accepted _ _ R1 H1));
      try (apply (not_refused_accepted _ _ R2 H2)).
Qed.

Lemma adjusted_axis_contains_zero_witness :
  (contains_zero (fst (align binary64 (range64 (-2) 10) (range64 (-1) 2)))
   /\ contains_zero (snd (align binary64 (range64 (-2) 10) (range64 (-1) 2))))
  /\ snd (align binary64 (range64 (-2) 10) (range64 (-5) (-1))) = range64 (-5) (-1).
Proof.
  split.
  - refine ((fun H => conj (proj1 (proj2 (proj2 H))) (proj1 (proj2 (proj2 (proj2 H)))))
              (proj1 (adjusted_axis_contains_zero (range64 (-2) 10) (range64 (-1) 2)
                        _ _ _) _)).
    + split; reflexivity.
    + split; reflexivity.
    + reflexivity.
    + reflexivity.
  - refine (proj1 (proj2 (proj2 (adjusted_axis_contains_zero (range64 (-2) 10)
                                   (range64 (-5) (-1)) _ _ _) ValueError _))).
    + split; reflexivity.
    + split; reflexivity.
    + reflexivity.
    + reflexivity.
Defined.

(** In binary64, on finite ranges outside the degenerate cases of which
    only one has a positive maximum: the target ratio is infinite, the
    minimum asked of that axis is minus infinity, [set_ylim] refuses it,
    and the call ends in [ValueError] with both axes as they were. *)
Theorem align_one_sided_raises (range1 range2 : float * float)
  (F1 : finite_range range1) (F2 : finite_range range2)
  (Hnd : degenerate binary64 range1 range2 = false)
  (Hone : has_positive_extent binary64 range1
          && has_positive_extent binary64 range2 = false) :
  target_ratio binary64 range1 range2 = f_inf
  /\ (has_positive_extent binary64 range1 = true ->
      adjusted binary64 range1 f_inf = (S754_infinity true, snd range1))
  /\ (has_positive_extent binary64 range2 = true ->
      adjusted binary64 range2 f_inf = (S754_infinity true, snd range2))
  /\ has_positive_extent binary64 range1
     || has_positive_extent binary64 range2 = true
  /\ align_raises binary64 range1 range2 = Some ValueError
  /\ align binary64 range1 range2 = (range1, range2).
Proof.
  destruct (b64_one_sided range1 range2 F1 F2 Hnd Hone) as [Ht [Hr Ha]].
  split; [exact Ht|].
  split; [intros Hp; now apply b64_refused_inf|].
  split; [intros Hp; now apply b64_refused_inf|].
  split; [now apply b64_some_positive_extent|]. now split.
Qed.

Lemma align_one_sided_raises_witness :
  align_raises binary64 (range64 (-2) 10) (range64 (-5) (-1)) = Some ValueError
  /\ align binary64 (range64 (-2) 10) (range64 (-5) (-1))
     = (range64 (-2) 10, range64 (-5) (-1)).
Proof.
  refine (proj2 (proj2 (proj2 (proj2
            (align_one_sided_raises (range64 (-2) 10) (range64 (-5) (-1)) _ _ _ _))))).
  - split; reflexivity.
  - split; reflexivity.
  - reflexivity.
  - reflexivity.
Defined.

(** ** The pipeline end to end *)

Section LoadFacts.

Variable float_of_str : string -> option float.

Lemma get_trimmed_data_default (shot : ShotData) :
  get_trimmed_data shot [] = trim_index (time_s shot) (last (time_s shot) f_zero).
Proof. reflexivity. Qed.

Lemma get_trimmed_data_setting (shot : ShotData) (bound : float) :
  get_trimmed_data shot [("trim_duration", bound)] = trim_index (time_s shot) bound.
Proof. reflexivity. Qed.

End LoadFacts.

(** The two-record document of the specification: elapsed times
    [0.0, 0.1] and the pressure series [9.0, 8.5]. *)
Theorem two_record_document :
  exists shot,
    ShotData_load no_numeric_strings "two" two_records = Ok shot
    /\ time_s shot = [f_zero; f_div (f_of_Z 1) (f_of_Z 10)]
    /\ get_series no_numeric_strings shot ["shot"; "pressure"]
       = Ok [f_of_Z 9; f_div (f_of_Z 17) (f_of_Z 2)].
Proof.
  eexists. split; [reflexivity|]. split; vm_compute; reflexivity.
Qed.

(** * Further properties of the viewer and of the plotter *)

(** ** Order of doubles *)

Lemma f_ltb_key (x y : float) :
  f_ltb x y = true
  <-> is_nan x = false /\ is_nan y = false /\ key_lt (f_key x) (f_key y).
Proof.
  unfold f_ltb, SFltb.
  destruct x as [sx|sx| |sx mx ex], y as [sy|sy| |sy my ey]; simpl;
    try (intuition (try discriminate; try lia); fail);
    try (destruct sx; simpl; intuition (try discriminate; try lia); fail);
    try (destruct sy; simpl; intuition (try discriminate; try lia); fail);
    try (destruct sx, sy; simpl; intuition (try discriminate; try lia); fail).
  change (Pos.compare_cont Eq mx my) with (Pos.compare mx my).
  destruct sx, sy; simpl;
    destruct (Z.compare_spec ex ey); destruct (Pos.compare_spec mx my); simpl;
    intuition (try discriminate; try lia).
Qed.

Lemma f_leb_key (x y : float) :
  f_leb x y = true
  <-> is_nan x = false /\ is_nan y = false
      /\ (key_lt (f_key x) (f_key y) \/ f_key x = f_key y).
Proof.
  unfold f_leb, SFleb.
  destruct x as [sx|sx| |sx mx ex], y as [sy|sy| |sy my ey]; simpl;
    try (intuition (try discriminate; try congruence; try lia); fail);
    try (destruct sx; simpl; intuition (try discriminate; try congruence; try lia); fail);
    try (destruct sy; simpl; intuition (try discriminate; try congruence; try lia); fail);
    try (destruct sx, sy; simpl; intuition (try discriminate; try congruence; try lia); fail).
  change (Pos.compare_cont Eq mx my) with (Pos.compare mx my).
  destruct sx, sy; simpl;
    destruct (Z.compare_spec ex ey); destruct (Pos.compare_spec mx my); simpl;
    subst;
    intuition (try discriminate; try lia;
               try match goal with H : (_, _, _) = (_, _, _) |- _ => inversion H; lia end).
Qed.

Ltac key_facts :=
  repeat match goal with
  | H : f_ltb _ _ = true |- _ => apply f_ltb_key in H; destruct H as (? & ? & H)
  | H : f_leb _ _ = true |- _ => apply f_leb_key in H; destruct H as (? & ? & H)
  end.

Ltac key_lia :=
  repeat match goal with
  | |- context [f_key ?x] =>
      let k1 := fresh "k" in let k2 := fresh "k" in let k3 := fresh "k" in
      destruct (f_key x) as [[k1 k2] k3]
  | H : context [f_key ?x] |- _ =>
      let k1 := fresh "k" in let k2 := fresh "k" in let k3 := fresh "k" in
      destruct (f_key x) as [[k1 k2] k3]
  end;
  unfold key_lt in *;
  repeat match goal with
  | H : _ \/ (_, _, _) = (_, _, _) |- _ => destruct H as [H|H]
  | H : (_, _, _) = (_, _, _) |- _ => inversion H; clear H; subst
  end;
  try lia.

Lemma f_ltb_trans (a b c : float) :
  f_ltb a b = true -> f_ltb b c = true -> f_ltb a c = true.
Proof.
  intros H1 H2. key_facts. apply f_ltb_key. repeat split; try assumption. key_lia.
Qed.

Lemma f_ltb_leb_trans (a b c : float) :
  f_ltb a b = true -> f_leb b c = true -> f_ltb a c = true.
Proof.
  intros H1 H2. key_facts. apply f_ltb_key. repeat split; try assumption. key_lia.
Qed.

Lemma f_leb_ltb_trans (a b c : float) :
  f_leb a b = true -> f_ltb b c = true -> f_ltb a c = true.
Proof.
  intros H1 H2. key_facts. apply f_ltb_key. repeat split; try assumption. key_lia.
Qed.

Lemma f_leb_trans (a b c : float) :
  f_leb a b = true -> f_leb b c = true -> f_leb a c = true.
Proof.
  intros H1 H2. key_facts. apply f_leb_key. repeat split; try assumption.
  key_lia; try (left; lia); try (right; reflexivity).
Qed.

Lemma f_leb_refl (a : float) : is_nan a = false -> f_leb a a = true.
Proof. intros H. apply f_leb_key. auto. Qed.

Lemma f_ltb_irrefl (a : float) : f_ltb a a = false.
Proof.
  destruct (f_ltb a a) eqn:H; [|reflexivity]. key_facts. key_lia.
Qed.

Lemma f_ltb_false_leb (a b : float) :
  is_nan a = false -> is_nan b = false -> f_ltb a b = false -> f_leb b a = true.
Proof.
  intros Ha Hb H. rewrite <- (f_gtb_false_leb b a Hb Ha). unfold f_gtb. now rewrite H.
Qed.

Lemma f_ltb_nan_r (a b : float) : is_nan b = true -> f_ltb a b = false.
Proof. destruct a, b; simpl; try discriminate; reflexivity. Qed.

Lemma f_ltb_nan_l (a b : float) : is_nan a = true -> f_ltb a b = false.
Proof. destruct a, b; simpl; try discriminate; reflexivity. Qed.

(** ** Hover lookup *)

Lemma nearest_loop_nan (ts : list float) (target : float) (i b : nat) (bd : float) :
  is_nan bd = true -> nearest_loop i ts target b bd = b.
Proof.
  intros H. revert i; induction ts as [|t ts IH]; intros i; simpl; [reflexivity|].
  rewrite (f_ltb_nan_r _ bd H). apply IH.
Qed.

Lemma nearest_loop_spec (target : float) (rest pre : list float) (b : nat) (bd : float) :
  let ds := map (fun t => time_distance t target) (pre ++ rest) in
  nth_error ds b = Some bd ->
  (forall j dj, j < List.length pre -> nth_error ds j = Some dj -> f_ltb dj bd = false) ->
  (forall j dj, j < b -> nth_error ds j = Some dj ->
     f_ltb bd dj = true \/ is_nan dj = true) ->
  exists dr,
    nth_error ds (nearest_loop (List.length pre) rest target b bd) = Some dr
    /\ (is_nan bd = false -> is_nan dr = false)
    /\ (forall j dj, nth_error ds j = Some dj -> f_ltb dj dr = false)
    /\ (forall j dj, j < nearest_loop (List.length pre) rest target b bd ->
          nth_error ds j = Some dj -> f_ltb dr dj = true \/ is_nan dj = true).
Proof.
  revert pre b bd; induction rest as [|t rest IH]; intros pre b bd ds Hb Hpre Hfirst.
  - simpl. exists bd. split; [exact Hb|]. split; [auto|]. split; [|exact Hfirst].
    intros j dj Hj. apply (Hpre j dj); [|exact Hj].
    assert (Hlt : j < List.length ds) by (apply nth_error_Some; congruence).
    unfold ds in Hlt. now rewrite length_map, app_nil_r in Hlt.
  - assert (Hds : ds = map (fun t => time_distance t target) ((pre ++ [t]) ++ rest))
      by (unfold ds; now rewrite <- app_assoc).
    assert (Hi : nth_error ds (List.length pre) = Some (time_distance t target)).
    { unfold ds. rewrite nth_error_map, nth_error_app2, Nat.sub_diag by lia.
      reflexivity. }
    simpl. fold (time_distance t target).
    replace (S (List.length pre)) with (List.length (pre ++ [t]))
      by (rewrite length_app; simpl; lia).
    destruct (f_ltb (time_distance t target) bd) eqn:Hlt.
    + destruct (IH (pre ++ [t]) (List.length pre) (time_distance t target))
        as [dr [Hr [Hnan [Hmin Hfst]]]]; fold ds; rewrite <- ?Hds.
      * exact Hi.
      * intros j dj Hj Hdj. rewrite length_app in Hj; simpl in Hj.
        destruct (Nat.eq_dec j (List.length pre)) as [->|Hne].
        -- rewrite Hi in Hdj; inversion Hdj; subst. apply f_ltb_irrefl.
        -- destruct (f_ltb dj (time_distance t target)) eqn:Hc; [|reflexivity].
           rewrite <- (Hpre j dj ltac:(lia) Hdj). symmetry.
           now apply (f_ltb_trans _ (time_distance t target)).
      * intros j dj Hj Hdj. destruct (is_nan dj) eqn:Hn; [now right|left].
        apply (f_ltb_leb_trans _ bd); [exact Hlt|].
        apply f_ltb_false_leb; [exact Hn | now destruct (f_ltb_not_nan _ _ Hlt) |].
        now apply (Hpre j dj).
      * exists dr. rewrite <- Hds in Hr, Hmin, Hfst. split; [exact Hr|].
        split; [|split; [exact Hmin | exact Hfst]].
        intros _. apply Hnan. now destruct (f_ltb_not_nan _ _ Hlt).
    + destruct (IH (pre ++ [t]) b bd) as [dr [Hr [Hnan [Hmin Hfst]]]];
        fold ds; rewrite <- ?Hds.
      * exact Hb.
      * intros j dj Hj Hdj. rewrite length_app in Hj; simpl in Hj.
        destruct (Nat.eq_dec j (List.length pre)) as [->|Hne].
        -- rewrite Hi in Hdj; inversion Hdj; subst. exact Hlt.
        -- apply (Hpre j dj); [lia | exact Hdj].
      * exact Hfirst.
      * exists dr. rewrite <- Hds in Hr, Hmin, Hfst. auto.
Qed.

Lemma binary_normalize_not_nan (m e : Z) (szero : bool) :
  is_nan (binary_normalize prec emax m e szero) = false.
Proof.
  destruct m as [|p|p]; simpl; [reflexivity| |];
    unfold binary_round; destruct (shl_align p e _) as [mz ez];
    match goal with |- is_nan (binary_round_aux _ _ ?s ?m ?e ?l) = false =>
      pose proof (binary_round_aux_sign s m e l ltac:(lia)) as H;
      destruct (binary_round_aux prec emax s m e l); simpl in *;
      try reflexivity; contradiction
    end.
Qed.

Lemma f_sub_finite (a b : float) :
  is_finite a = true -> is_finite b = true -> is_nan (f_sub a b) = false.
Proof.
  destruct a as [sa|sa| |sa ma ea], b as [sb|sb| |sb mb eb]; simpl;
    try discriminate; intros _ _; try reflexivity.
  - destruct sa, sb; reflexivity.
  - apply binary_normalize_not_nan.
Qed.

Lemma f_abs_nan (x : float) : is_nan (f_abs x) = is_nan x.
Proof. now destruct x. Qed.

Lemma time_distance_finite (t target : float) :
  is_finite t = true -> is_finite target = true ->
  is_nan (time_distance t target) = false.
Proof.
  intros Ht Hx. unfold time_distance. rewrite f_abs_nan. now apply f_sub_finite.
Qed.

Lemma find_nearest_idx_loop (t0 : float) (rest : list float) (target : float) :
  exists dr,
    nth_error (map (fun t => time_distance t target) (t0 :: rest))
      (nearest_loop 0 (t0 :: rest) target 0 (time_distance t0 target)) = Some dr
    /\ (is_nan (time_distance t0 target) = false -> is_nan dr = false)
    /\ (forall j dj,
          nth_error (map (fun t => time_distance t target) (t0 :: rest)) j = Some dj ->
          f_ltb dj dr = false)
    /\ (forall j dj,
          j < nearest_loop 0 (t0 :: rest) target 0 (time_distance t0 target) ->
          nth_error (map (fun t => time_distance t target) (t0 :: rest)) j = Some dj ->
          f_ltb dr dj = true \/ is_nan dj = true).
Proof.
  apply (nearest_loop_spec target (t0 :: rest) [] 0 (time_distance t0 target)).
  - reflexivity.
  - simpl; intros; lia.
  - intros; lia.
Qed.

Lemma find_nearest_idx_in_range_aux (time_array : list float) (target : float) :
  (time_array = [] /\ find_nearest_idx time_array target = None)
  \/ (exists i, find_nearest_idx time_array target = Some i
                /\ i < List.length time_array).
Proof.
  destruct time_array as [|t0 rest]; [now left|right].
  destruct (find_nearest_idx_loop t0 rest target) as [dr [Hr _]].
  eexists. split; [reflexivity|].
  fold (time_distance t0 target).
  assert (H : nth_error (map (fun t => time_distance t target) (t0 :: rest))
                (nearest_loop 0 (t0 :: rest) target 0 (time_distance t0 target))
              <> None) by congruence.
  apply nth_error_Some in H. now rewrite length_map in H.
Qed.

(** The hover lookup returns [None] exactly on an empty time array, and
    otherwise an index inside the array, for all doubles, NaN included. *)
Theorem find_nearest_idx_in_range (time_array : list float) (target : float) :
  (time_array = [] /\ find_nearest_idx time_array target = None)
  \/ (exists i, find_nearest_idx time_array target = Some i
                /\ i < List.length time_array).
Proof. apply find_nearest_idx_in_range_aux. Qed.

(** When the distance of the first sample to the pointer is not NaN, the
    index returned is that of a sample whose distance is a number, no sample
    is strictly nearer, every sample with a numeric distance is at least as
    far, and every earlier sample is strictly farther or has a NaN
    distance: the first nearest sample wins. *)
Theorem find_nearest_idx_nearest (t0 : float) (rest : list float) (target : float)
  (Hfirst : is_nan (time_distance t0 target) = false) :
  exists i ti,
    find_nearest_idx (t0 :: rest) target = Some i
    /\ nth_error (t0 :: rest) i = Some ti
    /\ is_nan (time_distance ti target) = false
    /\ (forall j tj, nth_error (t0 :: rest) j = Some tj ->
          f_ltb (time_distance tj target) (time_distance ti target) = false
          /\ (is_nan (time_distance tj target) = false ->
              f_leb (time_distance ti target) (time_distance tj target) = true))
    /\ (forall j tj, j < i -> nth_error (t0 :: rest) j = Some tj ->
          f_ltb (time_distance ti target) (time_distance tj target) = true
          \/ is_nan (time_distance tj target) = true).
Proof.
  destruct (find_nearest_idx_loop t0 rest target) as [dr [Hr [Hnan [Hmin Hfst]]]].
  set (i := nearest_loop 0 (t0 :: rest) target 0 (time_distance t0 target)) in *.
  rewrite nth_error_map in Hr.
  destruct (nth_error (t0 :: rest) i) as [ti|] eqn:Hti; [|discriminate].
  simpl in Hr. inversion Hr; subst dr; clear Hr.
  exists i, ti. split; [reflexivity|]. split; [exact Hti|].
  split; [now apply Hnan|]. split.
  - intros j tj Hj.
    assert (Hd : f_ltb (time_distance tj target) (time_distance ti target) = false).
    { apply (Hmin j). rewrite nth_error_map, Hj. reflexivity. }
    split; [exact Hd|]. intros Hn.
    apply f_ltb_false_leb; [exact Hn | now apply Hnan | exact Hd].
  - intros j tj Hlt Hj. apply (Hfst j); [exact Hlt|].
    rewrite nth_error_map, Hj. reflexivity.
Qed.

Lemma find_nearest_idx_nearest_witness :
  exists i ti,
    find_nearest_idx [f_of_Z 0; f_of_Z 1; f_of_Z 2] (f_div (f_of_Z 6) (f_of_Z 5)) = Some i
    /\ nth_error [f_of_Z 0; f_of_Z 1; f_of_Z 2] i = Some ti
    /\ is_nan (time_distance ti (f_div (f_of_Z 6) (f_of_Z 5))) = false.
Proof.
  destruct (find_nearest_idx_nearest (f_of_Z 0) [f_of_Z 1; f_of_Z 2]
              (f_div (f_of_Z 6) (f_of_Z 5)))
    as [i [ti [H1 [H2 [H3 _]]]]].
  - reflexivity.
  - exists i, ti. auto.
Defined.

(** When the distance of the first sample to the pointer is NaN (the first
    elapsed time or the pointer position is NaN, or both are the same
    infinity), no later sample can replace it: the lookup returns index 0
    whatever the other samples are. *)
Theorem find_nearest_idx_nan_first (t0 : float) (rest : list float) (target : float)
  (Hfirst : is_nan (time_distance t0 target) = true) :
  find_nearest_idx (t0 :: rest) target = Some 0.
Proof.
  unfold find_nearest_idx. f_equal.
  now apply nearest_loop_nan.
Qed.

Lemma find_nearest_idx_nan_first_witness :
  find_nearest_idx [f_nan; f_of_Z 1; f_of_Z 2] (f_of_Z 2) = Some 0.
Proof.
  apply (find_nearest_idx_nan_first f_nan [f_of_Z 1; f_of_Z 2] (f_of_Z 2)).
  reflexivity.
Defined.

(** ** Dict assignment and deletion *)

Lemma dict_get_set_same {V : Type} (d : list (string * V)) (k : string) (v : V) :
  dict_get (dict_set d k v) k = Some v.
Proof.
  induction d as [|[k' v'] d IH]; simpl.
  - now rewrite String.eqb_refl.
  - destruct (String.eqb k k') eqn:E; simpl.
    + now rewrite String.eqb_refl.
    + now rewrite E.
Qed.

Lemma dict_get_set_other {V : Type} (d : list (string * V)) (k k' : string) (v : V) :
  k' <> k -> dict_get (dict_set d k v) k' = dict_get d k'.
Proof.
  intros Hne. induction d as [|[k0 v0] d IH]; simpl.
  - destruct (String.eqb_spec k' k); [contradiction | reflexivity].
  - destruct (String.eqb_spec k k0) as [->|Hk]; simpl.
    + destruct (String.eqb_spec k' k0); [contradiction | reflexivity].
    + destruct (String.eqb k' k0); [reflexivity | exact IH].
Qed.

Lemma dict_get_del_same {V : Type} (d : list (string * V)) (k : string) :
  dict_get (dict_del d k) k = None.
Proof.
  induction d as [|[k0 v0] d IH]; simpl; [reflexivity|].
  destruct (String.eqb k k0) eqn:E; simpl; [exact IH|]. now rewrite E.
Qed.

Lemma dict_get_del_other {V : Type} (d : list (string * V)) (k k' : string) :
  k' <> k -> dict_get (dict_del d k) k' = dict_get d k'.
Proof.
  intros Hne. induction d as [|[k0 v0] d IH]; simpl; [reflexivity|].
  destruct (String.eqb_spec k k0) as [->|Hk]; simpl.
  - destruct (String.eqb_spec k' k0); [contradiction | exact IH].
  - destruct (String.eqb k' k0); [reflexivity | exact IH].
Qed.

(** ** Trim selector and trim dialog *)

Lemma count_leading_mono (p q : float -> bool) (l : list float) :
  (forall t, p t = true -> q t = true) -> count_leading p l <= count_leading q l.
Proof.
  intros H. induction l as [|a l IH]; simpl; [lia|].
  destruct (p a) eqn:Hp; [|lia]. rewrite (H a Hp). lia.
Qed.

Lemma trim_index_le (ts : list float) (bound1 bound2 : float) :
  f_leb bound1 bound2 = true -> trim_index ts bound1 <= trim_index ts bound2.
Proof.
  intros Hle. rewrite !trim_index_count. apply count_leading_mono. intros t.
  unfold f_gtb. destruct (f_ltb bound2 t) eqn:H2; [|reflexivity].
  now rewrite (f_leb_ltb_trans bound1 bound2 t Hle H2).
Qed.

(** A larger trim duration never shows fewer samples, whatever the samples
    are (NaN samples included), and the samples shown are always a prefix
    of the shot. *)
Theorem trim_index_monotone (ts : list float) (bound1 bound2 : float)
  (Hle : f_leb bound1 bound2 = true) :
  trim_index ts bound1 <= trim_index ts bound2
  /\ trim_index ts bound2 <= List.length ts
  /\ firstn (trim_index ts bound1) (firstn (trim_index ts bound2) ts)
     = firstn (trim_index ts bound1) ts.
Proof.
  pose proof (trim_index_le ts bound1 bound2 Hle) as H.
  split; [exact H|]. split.
  - rewrite trim_index_count. apply count_leading_le.
  - rewrite firstn_firstn. f_equal. lia.
Qed.

Lemma trim_index_monotone_witness :
  trim_index [f_of_Z 0; f_of_Z 1; f_of_Z 2] (f_of_Z 0)
  <= trim_index [f_of_Z 0; f_of_Z 1; f_of_Z 2] (f_of_Z 1).
Proof.
  apply (trim_index_monotone [f_of_Z 0; f_of_Z 1; f_of_Z 2] (f_of_Z 0) (f_of_Z 1)).
  reflexivity.
Defined.

Lemma f_tenth_positive : f_ltb f_zero f_tenth = true.
Proof. reflexivity. Qed.

Lemma f_max_tenth (x : float) :
  f_leb f_tenth (f_max f_tenth x) = true
  /\ (f_max f_tenth x = x \/ f_max f_tenth x = f_tenth).
Proof.
  unfold f_max, f_gtb. destruct (f_ltb f_tenth x) eqn:H.
  - split; [now apply f_ltb_leb | now left].
  - split; [reflexivity | now right].
Qed.

Lemma f_leb_not_nan (a b : float) :
  f_leb a b = true -> is_nan a = false /\ is_nan b = false.
Proof. intros H. apply f_leb_key in H. tauto. Qed.

(** [max(0.1, min(v, m))] lies between [0.1] and [m] as soon as
    [0.1 <= m], whatever [v] is. *)
Lemma clamp_range (v m : float) :
  f_leb f_tenth m = true ->
  f_leb f_tenth (f_max f_tenth (f_min v m)) = true
  /\ f_leb (f_max f_tenth (f_min v m)) m = true.
Proof.
  intros Hm. destruct (f_leb_not_nan _ _ Hm) as [_ Hn].
  split; [apply f_max_tenth|].
  unfold f_max, f_min, f_gtb.
  destruct (f_ltb m v) eqn:Hmv.
  - destruct (f_ltb f_tenth m); [now apply f_leb_refl | exact Hm].
  - destruct (f_ltb f_tenth v) eqn:Hv; [|exact Hm].
    apply f_ltb_false_leb; [exact Hn | now destruct (f_ltb_not_nan _ _ Hv) | exact Hmv].
Qed.

(** Whatever the elapsed times of the shot and the stored settings are
    (NaN and infinities included), the dialog opens with a duration range
    [0.1 .. max_duration] that is not empty, an initial value inside that
    range, and settings that hold a trim duration. *)
Theorem FileSettingsDialog_init_range (shot_data : ShotData)
    (current_settings : list (string * float)) :
  let dlg := FileSettingsDialog_init shot_data current_settings in
  spin_min (duration_ctrl dlg) = f_tenth
  /\ spin_max (duration_ctrl dlg) = max_duration dlg
  /\ f_leb (spin_min (duration_ctrl dlg)) (spin_max (duration_ctrl dlg)) = true
  /\ f_leb (spin_min (duration_ctrl dlg)) (spin_value (duration_ctrl dlg)) = true
  /\ f_leb (spin_value (duration_ctrl dlg)) (spin_max (duration_ctrl dlg)) = true
  /\ dict_mem (result_settings dlg) "trim_duration" = true
  /\ (dict_mem current_settings "trim_duration" = false ->
      dict_get (result_settings dlg) "trim_duration" = Some (max_duration dlg)).
Proof.
  unfold FileSettingsDialog_init; simpl.
  set (m := f_max f_tenth (last (time_s shot_data) f_tenth)).
  assert (Hm : f_leb f_tenth m = true) by apply f_max_tenth.
  split; [reflexivity|]. split; [reflexivity|]. split; [exact Hm|].
  split; [now apply clamp_range|]. split; [now apply clamp_range|].
  destruct (dict_mem current_settings "trim_duration") eqn:E; simpl.
  - split; [exact E | discriminate].
  - unfold dict_mem. rewrite dict_get_set_same. split; [reflexivity|]. reflexivity.
Qed.

Lemma trim_index_cons (t : float) (ts : list float) (bound : float) :
  trim_index (t :: ts) bound
  = if f_gtb t bound then 0 else S (trim_index ts bound).
Proof.
  rewrite !trim_index_count. simpl. now destruct (f_gtb t bound).
Qed.

Lemma f_sub_diag_cases (t : float) :
  (is_finite t = true /\ f_sub t t = f_zero)
  \/ (is_finite t = false /\ f_sub t t = f_nan).
Proof.
  destruct t as [s|s| |s m e].
  - left. split; [reflexivity | now destruct s].
  - right. split; [reflexivity | now destruct s].
  - right. split; reflexivity.
  - left. split; [reflexivity | now apply f_sub_diag].
Qed.

(** The first elapsed time of a shot is [0.0] when the first raw time is
    finite and NaN otherwise. *)
Lemma elapsed_times_head (t0 : float) (rest : list float) (scale : float) :
  scale = f_one \/ scale = f_milli ->
  exists es,
    elapsed_times (t0 :: rest) scale = (if is_finite t0 then f_zero else f_nan) :: es
    /\ List.length es = List.length rest.
Proof.
  intros Hs. unfold elapsed_times. simpl.
  exists (map (fun t => f_mul (f_sub t t0) scale) rest).
  split; [|apply length_map]. f_equal.
  destruct (f_sub_diag_cases t0) as [[-> ->]|[-> ->]];
    destruct Hs as [->| ->]; reflexivity.
Qed.

Section TrimFacts.

Variable float_of_str : string -> option float.

Lemma ShotData_load_inv (stem : string) (data : list json) (shot : ShotData) :
  ShotData_load float_of_str stem data = Ok shot ->
  exists times_raw,
    mapM (record_time float_of_str) data = Ok times_raw
    /\ short_name shot = stem
    /\ records shot = data
    /\ time_s shot = elapsed_times times_raw (infer_time_scale times_raw)
    /\ List.length (time_s shot) = List.length (records shot).
Proof.
  unfold ShotData_load.
  destruct (mapM (record_time float_of_str) data) as [ts|e] eqn:Hts; simpl;
    [|discriminate].
  intros H; inversion H; subst; clear H. simpl. exists ts.
  repeat split. rewrite elapsed_times_length. exact (mapM_length _ _ _ Hts).
Qed.

Lemma loaded_time_head (stem : string) (r0 : json) (data : list json) (shot : ShotData) :
  ShotData_load float_of_str stem (r0 :: data) = Ok shot ->
  exists t0 es,
    record_time float_of_str r0 = Ok t0
    /\ time_s shot = (if is_finite t0 then f_zero else f_nan) :: es.
Proof.
  intros H. destruct (ShotData_load_inv _ _ _ H) as [ts [Hts [_ [_ [Ht _]]]]].
  simpl in Hts.
  destruct (record_time float_of_str r0) as [t0|e]; simpl in Hts; [|discriminate].
  destruct (mapM (record_time float_of_str) data) as [ts'|e]; simpl in Hts;
    [|discriminate].
  inversion Hts; subst ts; clear Hts.
  destruct (elapsed_times_head t0 ts' _ (infer_time_scale_cases (t0 :: ts')))
    as [es [He _]].
  exists t0, es. split; [reflexivity|]. now rewrite Ht.
Qed.

(** A loaded shot with at least one record keeps its first sample under
    every trim duration that is not negative (a NaN duration included):
    the first elapsed time is [0.0] or NaN, and neither exceeds such a
    duration.  This covers the duration the settings dialog falls back to,
    which is at least [0.1]. *)
Theorem loaded_shot_keeps_first_sample (stem : string) (data : list json)
    (shot : ShotData) (settings : list (string * float)) (bound : float)
  (Hload : ShotData_load float_of_str stem data = Ok shot)
  (Hne : data <> [])
  (Hset : dict_get settings "trim_duration" = Some bound)
  (Hbound : f_ltb bound f_zero = false) :
  1 <= get_trimmed_data shot settings
  /\ (forall current_settings,
        1 <= get_trimmed_data shot
               (result_settings
                  (FileSettingsDialog_on_defaults
                     (FileSettingsDialog_init shot current_settings)))).
Proof.
  destruct data as [|r0 data]; [contradiction|].
  destruct (loaded_time_head _ _ _ _ Hload) as [t0 [es [_ Ht]]].
  assert (Hkeep : forall b, f_ltb b f_zero = false ->
                    1 <= trim_index (time_s shot) b).
  { intros b Hb. rewrite Ht, trim_index_cons. unfold f_gtb.
    destruct (is_finite t0); [rewrite Hb; lia|].
    rewrite (f_ltb_nan_r b f_nan eq_refl). lia. }
  split.
  - unfold get_trimmed_data, dict_get_default. rewrite Hset. now apply Hkeep.
  - intros cs. unfold get_trimmed_data, dict_get_default. simpl.
    apply Hkeep.
    destruct (f_ltb (f_max f_tenth (last (time_s shot) f_tenth)) f_zero) eqn:E;
      [|reflexivity].
    pose proof (f_max_tenth (last (time_s shot) f_tenth)) as [Hle _].
    pose proof (f_leb_ltb_trans _ _ _ Hle E) as Hc. discriminate Hc.
Qed.

(** Without a stored trim duration the bound is the last elapsed time.  For
    a loaded shot whose first raw time is finite the plot is then trimmed to
    nothing exactly when the last elapsed time is negative, that is, when
    the last record is stamped earlier than the first. *)
Theorem default_trim_empty_iff (stem : string) (r0 : json) (data : list json)
    (shot : ShotData) (t0 : float)
  (Hload : ShotData_load float_of_str stem (r0 :: data) = Ok shot)
  (Ht0 : record_time float_of_str r0 = Ok t0)
  (Hfin : is_finite t0 = true) :
  get_trimmed_data shot [] = 0
  <-> f_ltb (last (time_s shot) f_zero) f_zero = true.
Proof.
  destruct (loaded_time_head _ _ _ _ Hload) as [t0' [es [Ht0' Ht]]].
  rewrite Ht0 in Ht0'; inversion Ht0'; subst t0'; clear Ht0'.
  rewrite Hfin in Ht.
  unfold get_trimmed_data, dict_get_default; simpl.
  rewrite Ht at 1. rewrite trim_index_cons. unfold f_gtb.
  destruct (f_ltb (last (time_s shot) f_zero) f_zero); split; intros H;
    try reflexivity; discriminate.
Qed.

End TrimFacts.

Lemma loaded_shot_keeps_first_sample_witness :
  1 <= get_trimmed_data shot_two [("trim_duration", f_zero)].
Proof.
  refine (proj1 (loaded_shot_keeps_first_sample no_numeric_strings "two" two_records
                   shot_two [("trim_duration", f_zero)] f_zero _ _ _ _)).
  - reflexivity.
  - discriminate.
  - reflexivity.
  - reflexivity.
Defined.

Lemma default_trim_empty_iff_witness :
  get_trimmed_data shot_backwards [] = 0.
Proof.
  apply (default_trim_empty_iff no_numeric_strings "backwards"
           (JDict [("time", JInt 100)]) [JDict [("time", JInt 0)]]
           shot_backwards (f_of_Z 100)).
  - reflexivity.
  - reflexivity.
  - reflexivity.
  - reflexivity.
Defined.

Lemma last_default {A : Type} (a : A) (l : list A) (d d' : A) :
  last (a :: l) d = last (a :: l) d'.
Proof.
  revert a; induction l as [|b l IH]; intros a; [reflexivity|].
  change (last (b :: l) d = last (b :: l) d'). apply IH.
Qed.

(** The Defaults button of the trim dialog stores [max(0.1, last elapsed
    time)], while a shot without stored settings is trimmed at its last
    elapsed time.  When that time is not NaN, Defaults never hides a sample
    the untrimmed view shows, and when it is at least [0.1] the two views
    show the same samples. *)
Theorem defaults_keep_default_view (shot : ShotData)
    (current_settings : list (string * float))
  (Hlast : is_nan (last (time_s shot) f_zero) = false) :
  get_trimmed_data shot []
  <= get_trimmed_data shot
       (result_settings
          (FileSettingsDialog_on_defaults
             (FileSettingsDialog_init shot current_settings)))
  /\ (f_leb f_tenth (last (time_s shot) f_zero) = true ->
      get_trimmed_data shot
        (result_settings
           (FileSettingsDialog_on_defaults
              (FileSettingsDialog_init shot current_settings)))
      = get_trimmed_data shot []).
Proof.
  unfold get_trimmed_data, dict_get_default; simpl.
  destruct (time_s shot) as [|e es] eqn:Hts; [split; reflexivity|].
  rewrite (last_default e es f_tenth f_zero).
  set (l := last (e :: es) f_zero) in *.
  unfold f_max, f_gtb. destruct (f_ltb f_tenth l) eqn:Hl.
  - split; [lia | reflexivity].
  - assert (Hle : f_leb l f_tenth = true)
      by (apply f_ltb_false_leb; [reflexivity | exact Hlast | exact Hl]).
    split; [now apply trim_index_le|].
    intros Hge. apply Nat.le_antisymm; now apply trim_index_le.
Qed.

Lemma defaults_keep_default_view_witness :
  get_trimmed_data shot_two []
  <= get_trimmed_data shot_two
       (result_settings
          (FileSettingsDialog_on_defaults (FileSettingsDialog_init shot_two []))).
Proof.
  apply (defaults_keep_default_view shot_two []). reflexivity.
Defined.

(** ** Loading a document *)

Lemma existsb_is_str (l : list json) (s : string) :
  existsb (fun v => is_str v s) l = true <-> In (JStr s) l.
Proof.
  rewrite existsb_exists. split.
  - intros [v [Hin Hv]]. destruct v; simpl in Hv; try discriminate.
    apply String.eqb_eq in Hv. now subst.
  - intros Hin. exists (JStr s). split; [exact Hin|]. simpl. apply String.eqb_refl.
Qed.

Lemma document_records_ok (doc : json) (data : list json) :
  document_records doc = Ok data
  <-> exists items, doc = JDict items /\ dict_get items "data" = Some (JList data).
Proof.
  unfold document_records. split.
  - destruct doc as [|b|z|f|s|l|items]; simpl; try discriminate.
    + destruct (str_contains "data" s); simpl; discriminate.
    + destruct (existsb _ l); simpl; discriminate.
    + unfold dict_mem, dict_get_default.
      destruct (dict_get items "data") as [v|] eqn:E; simpl; [|discriminate].
      destruct v; try discriminate. intros H; inversion H; subst. eauto.
  - intros [items [-> H]]. simpl. unfold dict_mem, dict_get_default.
    now rewrite H.
Qed.

(** What the loader of plot_met.py does with a parsed document.  It returns
    exactly for an object whose ["data"] member is an array, with the
    profile name and shot time defaulted to ["Unknown Profile"] and null.
    It raises [ValueError] for any other object, for an array that has no
    element ["data"] and for a string that does not contain [data]; and
    [TypeError], not [ValueError], for null, a boolean, a number, an array
    with an element ["data"] and a string that contains [data]. *)
Theorem load_shot_json_outcome (doc : json) :
  match load_shot_json doc with
  | Ok (data, name, time) =>
      exists items,
        doc = JDict items
        /\ dict_get items "data" = Some (JList data)
        /\ name = dict_get_default items "profile_name" (JStr "Unknown Profile")
        /\ time = dict_get_default items "time" JNull
  | Raise ValueError =>
      (exists items, doc = JDict items
                     /\ forall data, dict_get items "data" <> Some (JList data))
      \/ (exists l, doc = JList l /\ ~ In (JStr "data") l)
      \/ (exists s, doc = JStr s /\ str_contains "data" s = false)
  | Raise TypeError =>
      doc = JNull \/ (exists b, doc = JBool b) \/ (exists z, doc = JInt z)
      \/ (exists f, doc = JFloat f)
      \/ (exists l, doc = JList l /\ In (JStr "data") l)
      \/ (exists s, doc = JStr s /\ str_contains "data" s = true)
  | Raise _ => False
  end.
Proof.
  unfold load_shot_json, document_records.
  destruct doc as [|b|z|f|s|l|items]; simpl; eauto 7.
  - destruct (str_contains "data" s) eqn:E; simpl; eauto 10.
  - destruct (existsb (fun v => is_str v "data") l) eqn:E; simpl.
    + apply existsb_is_str in E. eauto 10.
    + right; left. exists l. split; [reflexivity|].
      intros Hin. apply existsb_is_str in Hin. congruence.
  - unfold dict_mem, dict_get_default.
    destruct (dict_get items "data") as [v|] eqn:E; simpl.
    + destruct v; simpl;
        try (left; exists items; (split; [reflexivity|]); intros data H;
             rewrite E in H; discriminate).
      exists items. auto.
    + left. exists items. split; [reflexivity|]. intros data H.
      rewrite E in H; discriminate.
Qed.

Lemma mapM_map_ok {A B C : Type} (f : A -> result B) (g : A -> result C)
    (h : B -> C) (l : list A) (bs : list B) :
  mapM f l = Ok bs ->
  (forall a b, In a l -> f a = Ok b -> g a = Ok (h b)) ->
  mapM g l = Ok (map h bs).
Proof.
  revert bs; induction l as [|a l IH]; simpl; intros bs H Hfg.
  - now inversion H.
  - destruct (f a) as [b|e] eqn:Hfa; simpl in H; [|discriminate].
    destruct (mapM f l) as [bs'|e] eqn:Hm; simpl in H; [|discriminate].
    inversion H; subst; clear H.
    rewrite (Hfg a b (or_introl eq_refl) Hfa); simpl.
    rewrite (IH bs' eq_refl) by (intros; apply Hfg; auto). reflexivity.
Qed.

Section AgreementFacts.

Variable float_of_str : string -> option float.

Lemma get_series_sample_of_float (r : json) (path : list string) (v : float) :
  py_float float_of_str (safe_get r path (JFloat f_nan)) = Ok v ->
  get_series_sample float_of_str r path = Ok v.
Proof.
  unfold get_series_sample.
  destruct (safe_get r path (JFloat f_nan)); simpl; intros H;
    try discriminate; rewrite ?H; reflexivity.
Qed.

Lemma get_series_of_floats (shot : ShotData) (path : list string) (vs : list float) :
  mapM (fun r => py_float float_of_str (_safe_get r path (JFloat f_nan))) (records shot)
  = Ok vs ->
  get_series float_of_str shot path = Ok vs.
Proof.
  intros H. unfold get_series.
  rewrite (mapM_map_ok _ (fun r => get_series_sample float_of_str r path)
             (fun v => v) _ _ H), map_id; [reflexivity|].
  intros r v _ Hr. now apply get_series_sample_of_float.
Qed.

Lemma goal_value_sample (r : json) (k : string) (g : float) :
  goal_value float_of_str
    (match _safe_get r ["shot"; "setpoints"] (JDict []) with
     | JDict items => items
     | _ => []
     end) k = Ok g ->
  get_series_sample float_of_str r ["shot"; "setpoints"; k] = Ok g.
Proof.
  unfold goal_value, get_series_sample.
  destruct r as [| | | | | |d]; simpl; try (intros H; inversion H; reflexivity).
  destruct (dict_get d "shot") as [sh|]; simpl;
    [|intros H; inversion H; reflexivity].
  destruct sh as [| | | | | |d1]; simpl; try (intros H; inversion H; reflexivity).
  destruct (dict_get d1 "setpoints") as [sp|]; simpl;
    [|intros H; inversion H; reflexivity].
  destruct sp as [| | | | | |d2]; simpl; try (intros H; inversion H; reflexivity).
  destruct (dict_get d2 k) as [v|]; simpl; [|intros H; inversion H; reflexivity].
  destruct v; simpl; intros H; try discriminate; rewrite ?H; try reflexivity;
    inversion H; reflexivity.
Qed.

Lemma build_goals_step_samples (r : json) (active : json) (gp gf gw : float) :
  build_goals_step float_of_str r = Ok (active, (gp, gf, gw)) ->
  get_series_sample float_of_str r ["shot"; "setpoints"; "pressure"] = Ok gp
  /\ get_series_sample float_of_str r ["shot"; "setpoints"; "flow"] = Ok gf
  /\ get_series_sample float_of_str r ["shot"; "setpoints"; "power"] = Ok gw.
Proof.
  unfold build_goals_step.
  set (sp := match _safe_get r ["shot"; "setpoints"] (JDict []) with
             | JDict items => items
             | _ => []
             end).
  destruct (goal_value float_of_str sp "pressure") as [p|e] eqn:Hp; simpl;
    [|discriminate].
  destruct (goal_value float_of_str sp "flow") as [f|e] eqn:Hf; simpl;
    [|discriminate].
  destruct (goal_value float_of_str sp "power") as [w|e] eqn:Hw; simpl;
    [|discriminate].
  intros H; inversion H; subst.
  repeat split; now apply goal_value_sample.
Qed.

(** Whenever plot_met.py loads a document and builds its series, the viewer
    loads the same document, with the same profile name, shot time and
    elapsed times, and [get_series] returns for the seven paths the plotter
    knows exactly the series the plotter built, goals included. *)
Theorem viewer_agrees_with_plotter (stem : string) (doc : json)
    (data : list json) (name time : json) (b : Series)
  (Hdoc : load_shot_json doc = Ok (data, name, time))
  (Hbuild : build_series float_of_str data = Ok b) :
  exists loaded,
    ShotData_init float_of_str stem doc = Ok loaded
    /\ profile_name loaded = name
    /\ shot_time loaded = time
    /\ records (shot_data loaded) = data
    /\ time_s (shot_data loaded) = series_time_s b
    /\ get_series float_of_str (shot_data loaded) ["shot"; "pressure"]
       = Ok (series_pressure b)
    /\ get_series float_of_str (shot_data loaded) ["shot"; "flow"]
       = Ok (series_flow b)
    /\ get_series float_of_str (shot_data loaded) ["sensors"; "motor_speed"]
       = Ok (series_motor_speed b)
    /\ get_series float_of_str (shot_data loaded) ["sensors"; "motor_power"]
       = Ok (series_motor_power b)
    /\ get_series float_of_str (shot_data loaded) ["shot"; "setpoints"; "pressure"]
       = Ok (series_goal_pressure b)
    /\ get_series float_of_str (shot_data loaded) ["shot"; "setpoints"; "flow"]
       = Ok (series_goal_flow b)
    /\ get_series float_of_str (shot_data loaded) ["shot"; "setpoints"; "power"]
       = Ok (series_goal_power b).
Proof.
  unfold load_shot_json in Hdoc. unfold ShotData_init.
  destruct (document_records doc) as [data'|e]; simpl in *; [|discriminate].
  destruct (doc_get doc "profile_name" (JStr "Unknown Profile")) as [pn|e];
    simpl in *; [|discriminate].
  destruct (doc_get doc "time" JNull) as [st|e]; simpl in *; [|discriminate].
  inversion Hdoc; subst; clear Hdoc.
  revert Hbuild. unfold build_series, ShotData_load.
  step_bind H0. step_bind H1. step_bind H2. step_bind H3. step_bind H4.
  step_bind H5.
  intros H; inversion H; subst; clear H. simpl.
  eexists. split; [reflexivity|]. simpl.
  repeat split; try (now apply get_series_of_floats);
    unfold get_series; simpl; apply (mapM_map_ok _ _ _ _ _ H5);
    intros r [act [[gp gf] gw]] _ Hr;
    destruct (build_goals_step_samples r act gp gf gw Hr) as [Hp [Hf Hw]];
    assumption.
Qed.

End AgreementFacts.

Lemma viewer_agrees_with_plotter_witness :
  exists loaded,
    ShotData_init no_numeric_strings "two" document_two = Ok loaded
    /\ profile_name loaded = JStr "Unknown Profile"
    /\ shot_time loaded = JNull.
Proof.
  destruct (viewer_agrees_with_plotter no_numeric_strings "two" document_two
              two_records (JStr "Unknown Profile") JNull series_two)
    as [loaded [H1 [H2 [H3 _]]]].
  - reflexivity.
  - reflexivity.
  - exists loaded. auto.
Defined.

(** ** Traces and hover data *)

Lemma series_cover_set (time : list float) (series : list (string * list float))
    (fields : list hover_field) (k : string) (v : list float) :
  List.length v = List.length time ->
  series_cover time series fields ->
  series_cover time (dict_set series k v) fields.
Proof.
  intros Hv H. unfold series_cover in *. eapply Forall_impl; [|exact H].
  intros f [s [Hs Hl]]. destruct (String.eqb_spec (field_key f) k) as [->|Hne].
  - exists v. split; [apply dict_get_set_same | exact Hv].
  - exists s. split; [now rewrite dict_get_set_other | exact Hl].
Qed.

Lemma series_cover_snoc (time : list float) (series : list (string * list float))
    (fields : list hover_field) (f : hover_field) (v : list float) :
  List.length v = List.length time ->
  series_cover time series fields ->
  series_cover time (dict_set series (field_key f) v) (fields ++ [f]).
Proof.
  intros Hv H. unfold series_cover. apply Forall_app. split.
  - now apply series_cover_set.
  - constructor; [|constructor]. exists v. split; [apply dict_get_set_same | exact Hv].
Qed.

Section UpdatePlotFacts.

Variable float_of_str : string -> option float.

Lemma loaded_lengths (shot : ShotData) :
  loaded float_of_str shot -> List.length (time_s shot) = List.length (records shot).
Proof.
  intros [stem [data H]]. now destruct (ShotData_load_inv _ _ _ _ H) as [_ [_ [_ [_ [_ Hl]]]]].
Qed.

Lemma trimmed_lengths (shot : ShotData) (path : list string) (s : list float) (n : nat) :
  List.length (time_s shot) = List.length (records shot) ->
  get_series float_of_str shot path = Ok s ->
  List.length (firstn n s) = List.length (firstn n (time_s shot)).
Proof.
  intros Hwf Hs. apply mapM_length in Hs. rewrite !length_firstn. lia.
Qed.

Lemma single_field_inv (shot : ShotData) (trim_idx : nat)
    (field_styles : list (string * Style)) (i : nat)
    (path : list string) (name unit : string) (is_secondary : bool) (line : Line) :
  single_field float_of_str shot trim_idx field_styles i (path, name, unit, is_secondary)
  = Ok line ->
  exists s,
    get_series float_of_str shot path = Ok s
    /\ line_x line = firstn trim_idx (time_s shot)
    /\ line_y line = firstn trim_idx s.
Proof.
  unfold single_field.
  destruct (get_series float_of_str shot path) as [s|e]; simpl; [|discriminate].
  intros H; inversion H; subst; simpl. eauto.
Qed.

Lemma compare_field_inv (shot1 shot2 : ShotData) (trim1 trim2 : nat)
    (field_styles : list (string * Style)) (i : nat)
    (path : list string) (name unit : string) (is_secondary : bool)
    (line1 line2 : Line) :
  compare_field float_of_str shot1 shot2 trim1 trim2 field_styles i
    (path, name, unit, is_secondary) = Ok (line1, line2) ->
  exists s1 s2,
    get_series float_of_str shot1 path = Ok s1
    /\ get_series float_of_str shot2 path = Ok s2
    /\ line_x line1 = firstn trim1 (time_s shot1)
    /\ line_y line1 = firstn trim1 s1
    /\ line_x line2 = firstn trim2 (time_s shot2)
    /\ line_y line2 = firstn trim2 s2.
Proof.
  unfold compare_field.
  destruct (get_series float_of_str shot1 path) as [s1|e]; simpl; [|discriminate].
  destruct (get_series float_of_str shot2 path) as [s2|e]; simpl; [|discriminate].
  intros H; inversion H; subst; simpl. exists s1, s2. auto 10.
Qed.

Lemma single_loop_inv (shot : ShotData) (trim_idx : nat)
    (field_styles : list (string * Style)) :
  List.length (time_s shot) = List.length (records shot) ->
  forall selected i lines series fields lines' series' fields',
    single_loop float_of_str shot trim_idx field_styles i selected lines series fields
    = Ok (lines', series', fields') ->
    Forall same_length lines ->
    series_cover (firstn trim_idx (time_s shot)) series fields ->
    Forall same_length lines'
    /\ series_cover (firstn trim_idx (time_s shot)) series' fields'
    /\ List.length lines' = List.length lines + List.length selected
    /\ map field_key fields'
       = map field_key fields
         ++ map (fun fld : selected_field => String.concat "." (fst (fst (fst fld))))
              selected.
Proof.
  intros Hwf. induction selected as [|[[[path name] unit] sec] rest IH];
    intros i lines series fields lines' series' fields' H Hl Hc.
  - simpl in H. inversion H; subst. rewrite app_nil_r, Nat.add_0_r. auto.
  - cbn [single_loop] in H.
    destruct (single_field float_of_str shot trim_idx field_styles i
                (path, name, unit, sec)) as [line|e] eqn:Hf; cbn [bind] in H;
      [|discriminate].
    destruct (single_field_inv _ _ _ _ _ _ _ _ _ Hf) as [s [Hs [Hx Hy]]].
    pose proof (trimmed_lengths shot path s trim_idx Hwf Hs) as Hlen.
    apply IH in H.
    + destruct H as [H1 [H2 [H3 H4]]]. split; [exact H1|]. split; [exact H2|].
      split.
      * rewrite H3, length_app. simpl. lia.
      * rewrite H4, map_app, <- app_assoc. reflexivity.
    + apply Forall_app. split; [exact Hl|]. constructor; [|constructor].
      unfold same_length. now rewrite Hx, Hy.
    + apply (series_cover_snoc _ _ _
               (String.concat "." path, name, unit, line_color line));
        [|exact Hc]. now rewrite Hy.
Qed.

Lemma compare_loop_inv (shot1 shot2 : ShotData) (trim1 trim2 : nat)
    (field_styles : list (string * Style)) :
  List.length (time_s shot1) = List.length (records shot1) ->
  List.length (time_s shot2) = List.length (records shot2) ->
  forall selected i lines series1 series2 fields lines' series1' series2' fields',
    compare_loop float_of_str shot1 shot2 trim1 trim2 field_styles i selected
      lines series1 series2 fields
    = Ok (lines', series1', series2', fields') ->
    Forall same_length lines ->
    series_cover (firstn trim1 (time_s shot1)) series1 fields ->
    series_cover (firstn trim2 (time_s shot2)) series2 fields ->
    Forall same_length lines'
    /\ series_cover (firstn trim1 (time_s shot1)) series1' fields'
    /\ series_cover (firstn trim2 (time_s shot2)) series2' fields'
    /\ List.length lines' = List.length lines + 2 * List.length selected
    /\ map field_key fields'
       = map field_key fields
         ++ map (fun fld : selected_field => String.concat "." (fst (fst (fst fld))))
              selected.
Proof.
  intros Hwf1 Hwf2. induction selected as [|[[[path name] unit] sec] rest IH];
    intros i lines series1 series2 fields lines' series1' series2' fields' H Hl Hc1 Hc2.
  - simpl in H. inversion H; subst. rewrite app_nil_r, Nat.add_0_r. auto.
  - cbn [compare_loop] in H.
    destruct (compare_field float_of_str shot1 shot2 trim1 trim2 field_styles i
                (path, name, unit, sec)) as [[line1 line2]|e] eqn:Hf; cbn [bind] in H;
      [|discriminate].
    destruct (compare_field_inv _ _ _ _ _ _ _ _ _ _ _ _ Hf)
      as [s1 [s2 [Hs1 [Hs2 [Hx1 [Hy1 [Hx2 Hy2]]]]]]].
    pose proof (trimmed_lengths shot1 path s1 trim1 Hwf1 Hs1) as Hlen1.
    pose proof (trimmed_lengths shot2 path s2 trim2 Hwf2 Hs2) as Hlen2.
    apply IH in H.
    + destruct H as [H1 [H2 [H3 [H4 H5]]]]. split; [exact H1|].
      split; [exact H2|]. split; [exact H3|]. split.
      * rewrite H4, length_app. simpl. lia.
      * rewrite H5, map_app, <- app_assoc. reflexivity.
    + apply Forall_app. split; [exact Hl|].
      constructor; [|constructor; [|constructor]]; unfold same_length.
      * now rewrite Hx1, Hy1.
      * now rewrite Hx2, Hy2.
    + apply (series_cover_snoc _ _ _
               (String.concat "." path, name, unit, line_color line1));
        [|exact Hc1]. now rewrite Hy1.
    + apply (series_cover_snoc _ _ _
               (String.concat "." path, name, unit, line_color line1));
        [|exact Hc2]. now rewrite Hy2.
Qed.

(** What [_update_plot] establishes when it returns: the traces are
    well-formed and the hover data cover the fields. *)
Lemma update_plot_inv (shot1 shot2 : option ShotData)
    (shot1_settings shot2_settings : list (string * float)) (compare_cb : bool)
    (selected : list selected_field) (field_styles : list (string * Style))
    (lines : list Line) (plot_data : PlotData) :
  loaded_or_absent float_of_str shot1 ->
  loaded_or_absent float_of_str shot2 ->
  _update_plot float_of_str shot1 shot2 shot1_settings shot2_settings compare_cb
    selected field_styles = Ok (lines, plot_data) ->
  Forall same_length lines
  /\ match plot_data with
     | PlotEmpty =>
         lines = [] /\ ((shot1 = None /\ shot2 = None) \/ selected = [])
     | PlotSingle time series fields =>
         List.length lines = List.length selected
         /\ List.length fields = List.length selected
         /\ series_cover time series fields
     | PlotCompare _ _ time1 time2 series1 series2 fields =>
         List.length lines = 2 * List.length selected
         /\ List.length fields = List.length selected
         /\ series_cover time1 series1 fields
         /\ series_cover time2 series2 fields
     end.
Proof.
  intros L1 L2. unfold _update_plot.
  assert (Hlen : forall (fields : list hover_field) (sel : list selected_field),
            map field_key fields
            = map field_key [] ++ map (fun fld : selected_field =>
                                         String.concat "." (fst (fst (fst fld)))) sel ->
            List.length fields = List.length sel).
  { intros fields sel H. apply (f_equal (@List.length string)) in H.
    simpl in H. now rewrite !length_map in H. }
  assert (Hsingle : forall shot settings,
            loaded float_of_str shot ->
            bind (single_loop float_of_str shot (get_trimmed_data shot settings)
                    field_styles 0 selected [] [] [])
              (fun '(lines, series, fields) =>
                 Ok (lines, PlotSingle (firstn (get_trimmed_data shot settings)
                                          (time_s shot)) series fields))
            = Ok (lines, plot_data) ->
            Forall same_length lines
            /\ match plot_data with
               | PlotEmpty =>
                   lines = [] /\ ((shot1 = None /\ shot2 = None) \/ selected = [])
               | PlotSingle time series fields =>
                   List.length lines = List.length selected
                   /\ List.length fields = List.length selected
                   /\ series_cover time series fields
               | PlotCompare _ _ time1 time2 series1 series2 fields =>
                   List.length lines = 2 * List.length selected
                   /\ List.length fields = List.length selected
                   /\ series_cover time1 series1 fields
                   /\ series_cover time2 series2 fields
               end).
  { intros shot settings Hl.
    destruct (single_loop float_of_str shot (get_trimmed_data shot settings)
                field_styles 0 selected [] [] []) as [[[ls ser] flds]|e] eqn:E;
      simpl; [|discriminate].
    intros H; inversion H; subst; clear H.
    destruct (single_loop_inv shot _ field_styles (loaded_lengths shot Hl)
                _ _ _ _ _ _ _ _ E ltac:(constructor)
                ltac:(unfold series_cover; constructor))
      as [H1 [H2 [H3 H4]]].
    split; [exact H1|]. split; [exact H3|]. split; [now apply Hlen | exact H2]. }
  destruct selected as [|fld rest] eqn:Hsel.
  { destruct shot1, shot2; intros H; inversion H; subst; auto. }
  rewrite <- Hsel in *.
  destruct shot1 as [s1|], shot2 as [s2|]; simpl.
  - destruct compare_cb.
    + destruct selected as [|f0 r0]; [discriminate|].
      destruct (compare_loop float_of_str s1 s2 (get_trimmed_data s1 shot1_settings)
                  (get_trimmed_data s2 shot2_settings) field_styles 0 (f0 :: r0)
                  [] [] [] []) as [[[[ls ser1] ser2] flds]|e] eqn:E;
        simpl; [|discriminate].
      intros H; inversion H; subst; clear H.
      destruct (compare_loop_inv s1 s2 _ _ field_styles
                  (loaded_lengths s1 L1) (loaded_lengths s2 L2)
                  _ _ _ _ _ _ _ _ _ _ E ltac:(constructor)
                  ltac:(unfold series_cover; constructor)
                  ltac:(unfold series_cover; constructor))
        as [H1 [H2 [H3 [H4 H5]]]].
      split; [exact H1|]. split; [exact H4|].
      split; [exact (Hlen _ (f0 :: r0) H5)|]. auto.
    + destruct selected as [|f0 r0]; [discriminate|]. now apply Hsingle.
  - destruct selected as [|f0 r0]; [discriminate|].
    destruct compare_cb; now apply Hsingle.
  - destruct selected as [|f0 r0]; [discriminate|].
    destruct compare_cb; now apply Hsingle.
  - intros H; inversion H; subst; auto.
Qed.

(** Whenever [_update_plot] returns for shots the viewer has loaded, every
    trace it plots has as many abscissae as ordinates, whatever the trim
    settings are; single-shot mode plots one trace per selected field and
    compare mode two; and nothing is plotted only when no shot is loaded or
    no field is selected. *)
Theorem update_plot_traces (shot1 shot2 : option ShotData)
    (shot1_settings shot2_settings : list (string * float)) (compare_cb : bool)
    (selected : list selected_field) (field_styles : list (string * Style))
    (lines : list Line) (plot_data : PlotData)
  (Hshot1 : loaded_or_absent float_of_str shot1)
  (Hshot2 : loaded_or_absent float_of_str shot2)
  (Hplot : _update_plot float_of_str shot1 shot2 shot1_settings shot2_settings
             compare_cb selected field_styles = Ok (lines, plot_data)) :
  Forall same_length lines
  /\ match plot_data with
     | PlotEmpty =>
         lines = [] /\ ((shot1 = None /\ shot2 = None) \/ selected = [])
     | PlotSingle _ _ fields =>
         List.length lines = List.length selected
         /\ List.length fields = List.length selected
     | PlotCompare _ _ _ _ _ _ fields =>
         List.length lines = 2 * List.length selected
         /\ List.length fields = List.length selected
     end.
Proof.
  destruct (update_plot_inv _ _ _ _ _ _ _ _ _ Hshot1 Hshot2 Hplot) as [H1 H2].
  split; [exact H1|].
  destruct plot_data; [exact H2 | |]; tauto.
Qed.

Lemma hover_value_covered (time : list float) (series : list (string * list float))
    (fields : list hover_field) (f : hover_field) (idx : option nat) :
  series_cover time series fields -> In f fields ->
  match idx with Some i => i < List.length time | None => True end ->
  exists val, hover_value series (field_key f) idx = Some val
              /\ (idx <> None -> val <> None).
Proof.
  intros Hc Hin Hi. unfold series_cover in Hc. rewrite Forall_forall in Hc.
  destruct (Hc f Hin) as [s [Hs Hl]]. destruct idx as [i|]; simpl.
  - rewrite Hs. eexists. split; [reflexivity|]. intros _.
    apply nth_error_Some. lia.
  - exists None. split; [reflexivity|]. congruence.
Qed.

Lemma hover_rows_single (time : list float) (series : list (string * list float))
    (fields : list hover_field) (idx : nat) :
  series_cover time series fields -> idx < List.length time ->
  exists rows,
    hover_rows
      (fun f : hover_field =>
         let '(key, _, _, _) := f in
         match hover_value series key (Some idx) with
         | Some val => Some (f, val)
         | None => None
         end) fields = Some rows
    /\ map fst rows = fields
    /\ Forall (fun r => snd r <> None) rows.
Proof.
  intros Hc Hi.
  assert (H : forall fs, incl fs fields ->
            exists rows,
              hover_rows
                (fun f : hover_field =>
                   let '(key, _, _, _) := f in
                   match hover_value series key (Some idx) with
                   | Some val => Some (f, val)
                   | None => None
                   end) fs = Some rows
              /\ map fst rows = fs
              /\ Forall (fun r => snd r <> None) rows).
  { induction fs as [|f fs IH]; intros Hincl.
    - exists []. simpl. auto.
    - destruct IH as [rows [Hr [Hm Hf]]];
        [intros a Ha; apply Hincl; now right|].
      destruct (hover_value_covered time series fields f (Some idx) Hc
                  (Hincl f (or_introl eq_refl)) Hi) as [val [Hv Hn]].
      exists ((f, val) :: rows). cbn [hover_rows].
      destruct f as [[[key name] unit] c]. unfold field_key in Hv; cbn [fst] in Hv.
      rewrite Hv, Hr. split; [reflexivity|]. split; [simpl; now rewrite Hm|].
      constructor; [|exact Hf]. simpl. apply Hn. discriminate. }
  apply H. apply incl_refl.
Qed.

Lemma hover_rows_compare (time1 time2 : list float)
    (series1 series2 : list (string * list float))
    (fields : list hover_field) (idx1 idx2 : option nat) :
  series_cover time1 series1 fields -> series_cover time2 series2 fields ->
  match idx1 with Some i => i < List.length time1 | None => True end ->
  match idx2 with Some i => i < List.length time2 | None => True end ->
  exists rows,
    hover_rows
      (fun f : hover_field =>
         let '(key, _, _, _) := f in
         match hover_value series1 key idx1 with
         | Some val1 =>
             match hover_value series2 key idx2 with
             | Some val2 => Some (f, val1, val2)
             | None => None
             end
         | None => None
         end) fields = Some rows
    /\ map (fun r => fst (fst r)) rows = fields
    /\ (idx1 <> None -> Forall (fun r => snd (fst r) <> None) rows)
    /\ (idx2 <> None -> Forall (fun r => snd r <> None) rows).
Proof.
  intros Hc1 Hc2 Hi1 Hi2.
  assert (H : forall fs, incl fs fields ->
            exists rows,
              hover_rows
                (fun f : hover_field =>
                   let '(key, _, _, _) := f in
                   match hover_value series1 key idx1 with
                   | Some val1 =>
                       match hover_value series2 key idx2 with
                       | Some val2 => Some (f, val1, val2)
                       | None => None
                       end
                   | None => None
                   end) fs = Some rows
              /\ map (fun r => fst (fst r)) rows = fs
              /\ (idx1 <> None -> Forall (fun r => snd (fst r) <> None) rows)
              /\ (idx2 <> None -> Forall (fun r => snd r <> None) rows)).
  { induction fs as [|f fs IH]; intros Hincl.
    - exists []. simpl. auto.
    - destruct IH as [rows [Hr [Hm [Hf1 Hf2]]]];
        [intros a Ha; apply Hincl; now right|].
      destruct (hover_value_covered time1 series1 fields f idx1 Hc1
                  (Hincl f (or_introl eq_refl)) Hi1) as [val1 [Hv1 Hn1]].
      destruct (hover_value_covered time2 series2 fields f idx2 Hc2
                  (Hincl f (or_introl eq_refl)) Hi2) as [val2 [Hv2 Hn2]].
      exists ((f, val1, val2) :: rows). cbn [hover_rows].
      destruct f as [[[key name] unit] c].
      unfold field_key in Hv1, Hv2; cbn [fst] in Hv1, Hv2.
      rewrite Hv1, Hv2, Hr. split; [reflexivity|].
      split; [simpl; now rewrite Hm|].
      split; intros Hi; constructor; auto. }
  apply H. apply incl_refl.
Qed.

Lemma find_nearest_idx_bound (time : list float) (x : float) :
  match find_nearest_idx time x with
  | Some i => i < List.length time
  | None => True
  end.
Proof.
  destruct (find_nearest_idx_in_range_aux time x) as [[_ ->]|[i [-> Hi]]];
    [exact I | exact Hi].
Qed.

(** For the hover data [_update_plot] stores for loaded shots, and every
    pointer position (NaN included), [_on_mouse_move] finds under each key
    the series it looks for, and lists every selected field with a sample of
    its series: the fallback for an index beyond the series is never taken.
    A field is left without a sample only when the trimmed time array of
    its shot is empty. *)
Theorem hover_lists_every_field (shot1 shot2 : option ShotData)
    (shot1_settings shot2_settings : list (string * float)) (compare_cb : bool)
    (selected : list selected_field) (field_styles : list (string * Style))
    (lines : list Line) (plot_data : PlotData) (x : float)
  (Hshot1 : loaded_or_absent float_of_str shot1)
  (Hshot2 : loaded_or_absent float_of_str shot2)
  (Hplot : _update_plot float_of_str shot1 shot2 shot1_settings shot2_settings
             compare_cb selected field_styles = Ok (lines, plot_data)) :
  match plot_data with
  | PlotEmpty => _on_mouse_move plot_data x = Some HoverNone
  | PlotSingle time _ fields =>
      (time = [] /\ _on_mouse_move plot_data x = Some (HoverSingle []))
      \/ (exists rows,
            _on_mouse_move plot_data x = Some (HoverSingle rows)
            /\ map fst rows = fields
            /\ Forall (fun r => snd r <> None) rows)
  | PlotCompare _ _ time1 time2 _ _ fields =>
      exists rows,
        _on_mouse_move plot_data x = Some (HoverCompare rows)
        /\ map (fun r => fst (fst r)) rows = fields
        /\ (time1 <> [] -> Forall (fun r => snd (fst r) <> None) rows)
        /\ (time2 <> [] -> Forall (fun r => snd r <> None) rows)
  end.
Proof.
  destruct (update_plot_inv _ _ _ _ _ _ _ _ _ Hshot1 Hshot2 Hplot) as [_ H].
  destruct plot_data as [|time series fields|n1 n2 time1 time2 series1 series2 fields].
  - reflexivity.
  - destruct H as [_ [_ Hc]]. cbn [_on_mouse_move].
    pose proof (find_nearest_idx_bound time x) as Hb.
    destruct (find_nearest_idx time x) as [idx|] eqn:E.
    + right. destruct (hover_rows_single time series fields idx Hc Hb)
        as [rows [Hr [Hm Hf]]].
      exists rows. rewrite Hr. auto.
    + left. split; [|reflexivity]. destruct time; [reflexivity | discriminate].
  - destruct H as [_ [_ [Hc1 Hc2]]]. cbn [_on_mouse_move].
    destruct (hover_rows_compare time1 time2 series1 series2 fields
                (find_nearest_idx time1 x) (find_nearest_idx time2 x) Hc1 Hc2
                (find_nearest_idx_bound time1 x) (find_nearest_idx_bound time2 x))
      as [rows [Hr [Hm [Hf1 Hf2]]]].
    exists rows. rewrite Hr. split; [reflexivity|]. split; [exact Hm|].
    split; intros Hne; [apply Hf1 | apply Hf2];
      [destruct time1 | destruct time2]; try contradiction; discriminate.
Qed.

End UpdatePlotFacts.

(** ** Field registry and selection *)

Lemma distinct_NoDup (l : list string) : distinct l = true -> NoDup l.
Proof.
  induction l as [|k l IH]; intros H; [constructor|].
  simpl in H. apply andb_true_iff in H. destruct H as [H1 H2].
  constructor; [|now apply IH].
  intros Hin. apply negb_true_iff in H1.
  assert (existsb (String.eqb k) l = true)
    by (apply existsb_exists; exists k; split; [exact Hin | apply String.eqb_refl]).
  congruence.
Qed.

Lemma registry_keys_distinct : NoDup (map data_key DATA_FIELDS).
Proof. apply distinct_NoDup. vm_compute. reflexivity. Qed.

Lemma create_checkboxes_keys :
  map fst (fst _create_checkboxes) = map data_key DATA_FIELDS
  /\ map fst (snd _create_checkboxes) = map data_key DATA_FIELDS.
Proof. split; vm_compute; reflexivity. Qed.

Lemma set_all_keys (v : bool) (boxes : checkboxes) :
  set_all v boxes = map (fun k => (k, v)) (map fst boxes).
Proof. unfold set_all. now rewrite map_map. Qed.

Lemma selected_keys_filter (field_checkboxes field_secondary : checkboxes) :
  map selected_key (_get_selected_fields field_checkboxes field_secondary)
  = map data_key
      (filter (fun f => dict_get_default field_checkboxes (data_key f) false)
         DATA_FIELDS).
Proof.
  unfold _get_selected_fields. induction DATA_FIELDS as [|[[[path name] cat] unit] l IH];
    [reflexivity|].
  simpl. change (data_key (path, name, cat, unit)) with (String.concat "." path).
  destruct (dict_get_default field_checkboxes (String.concat "." path) false); simpl.
  - f_equal. exact IH.
  - exact IH.
Qed.

Lemma checked_keys_distinct (checked : data_field -> bool) (fields : list data_field) :
  NoDup (map data_key fields) -> NoDup (map data_key (filter checked fields)).
Proof.
  intros Hnd. induction fields as [|f fields IH]; simpl in *; [constructor|].
  apply NoDup_cons_iff in Hnd. destruct Hnd as [Hfresh Hnd].
  destruct (checked f); simpl; [|now apply IH].
  constructor; [|now apply IH].
  rewrite in_map_iff. intros [g [Hg Hin]]. apply filter_In in Hin.
  apply Hfresh. rewrite in_map_iff. exists g. tauto.
Qed.

(** Whatever the state of the check boxes, the selected fields come in the
    order of the registry, they are exactly the registered fields whose box
    is checked, and their keys are pairwise distinct: no two selected
    fields share an entry of the hover data or a style. *)
Theorem selected_fields_distinct (field_checkboxes field_secondary : checkboxes) :
  map selected_key (_get_selected_fields field_checkboxes field_secondary)
  = map data_key
      (filter (fun f => dict_get_default field_checkboxes (data_key f) false)
         DATA_FIELDS)
  /\ NoDup (map selected_key (_get_selected_fields field_checkboxes field_secondary))
  /\ Forall (fun fld =>
               dict_get_default field_checkboxes (selected_key fld) false = true
               /\ snd fld = dict_get_default field_secondary (selected_key fld) false)
       (_get_selected_fields field_checkboxes field_secondary).
Proof.
  split; [apply selected_keys_filter|]. split.
  - rewrite selected_keys_filter. apply checked_keys_distinct, registry_keys_distinct.
  - unfold _get_selected_fields. apply Forall_flat_map. apply Forall_forall.
    intros [[[path name] cat] unit] _.
    destruct (dict_get_default field_checkboxes (String.concat "." path) false) eqn:E;
      [|constructor].
    constructor; [|constructor]. split; [exact E | reflexivity].
Qed.

(** The selection buttons against the registry.  On the check boxes of the
    frame, "Shot" selects exactly the fields of the categories Shot and
    Setpoints, "Temps" selects the eight fields of the category Temperature
    and, in addition, Motor Temp of the category Motor, "All" selects the
    whole registry and "None" nothing, whatever was checked before. *)
Theorem selection_buttons (field_checkboxes field_secondary : checkboxes)
  (Hkeys : map fst field_checkboxes = map data_key DATA_FIELDS) :
  map selected_path (_get_selected_fields (_select_shot field_checkboxes) field_secondary)
  = map field_path (fields_in ["Shot"; "Setpoints"])
  /\ map selected_path
       (_get_selected_fields (_select_temps field_checkboxes) field_secondary)
     = ["sensors"; "motor_temp"] :: map field_path (fields_in ["Temperature"])
  /\ map selected_path (_get_selected_fields (_select_all field_checkboxes) field_secondary)
     = map field_path DATA_FIELDS
  /\ _get_selected_fields (_select_none field_checkboxes) field_secondary = [].
Proof.
  unfold _select_shot, _select_temps, _select_all, _select_none.
  rewrite !set_all_keys, Hkeys.
  repeat split; vm_compute; reflexivity.
Qed.

Lemma selection_buttons_witness :
  map selected_path
    (_get_selected_fields (_select_shot (fst _create_checkboxes))
       (snd _create_checkboxes))
  = map field_path (fields_in ["Shot"; "Setpoints"]).
Proof.
  refine (proj1 (selection_buttons (fst _create_checkboxes)
                   (snd _create_checkboxes) _)).
  apply create_checkboxes_keys.
Defined.

Lemma update_plot_traces_witness :
  exists lines plot_data,
    _update_plot no_numeric_strings (Some shot_two) None [] [] false
      [pressure_field] [] = Ok (lines, plot_data)
    /\ Forall same_length lines.
Proof.
  eexists. eexists. split; [reflexivity|].
  refine (proj1 (update_plot_traces no_numeric_strings (Some shot_two) None [] []
                   false [pressure_field] [] _ _ _ I eq_refl)).
  exists "two", two_records. reflexivity.
Defined.

Lemma hover_lists_every_field_witness :
  exists rows,
    _on_mouse_move
      (PlotSingle (time_s shot_two)
         [("shot.pressure", [f_of_Z 9; f_div (f_of_Z 17) (f_of_Z 2)])]
         [("shot.pressure", "Pressure", "bar", Tab10 0)])
      (f_of_Z 1)
    = Some (HoverSingle rows)
    /\ Forall (fun r => snd r <> None) rows.
Proof.
  pose proof (hover_lists_every_field no_numeric_strings (Some shot_two) None [] []
                false [pressure_field] []
                [ {| line_x := time_s shot_two;
                     line_y := [f_of_Z 9; f_div (f_of_Z 17) (f_of_Z 2)];
                     line_label := "Pressure (bar)"; line_color := Tab10 0;
                     line_linewidth := f_1_5; line_linestyle := "-";
                     line_secondary := false |} ]
                (PlotSingle (time_s shot_two)
                   [("shot.pressure", [f_of_Z 9; f_div (f_of_Z 17) (f_of_Z 2)])]
                   [("shot.pressure", "Pressure", "bar", Tab10 0)])
                (f_of_Z 1)
                (ex_intro _ "two" (ex_intro _ two_records eq_refl)) I) as H.
  destruct H as [[H _]|[rows [H1 [_ H2]]]].
  - vm_compute. reflexivity.
  - discriminate H.
  - exists rows. split; assumption.
Defined.

(** ** Style dialog *)

Lemma style_falsy_empty (d : StyleDict) : style_truthy d = false -> d = empty_dict.
Proof.
  destruct d as [[c|] [l|] [w|]]; unfold style_truthy; simpl; try discriminate.
  reflexivity.
Qed.

Lemma dict_mem_false {V : Type} (d : list (string * V)) (k : string) :
  dict_mem d k = false -> dict_get d k = None.
Proof. unfold dict_mem. now destruct (dict_get d k). Qed.

Lemma on_style_change_same (field_styles : list (string * StyleDict)) (key : string)
    (st : StyleDict) :
  dict_get (on_style_change field_styles key st) key
  = if style_truthy st then Some st else None.
Proof.
  unfold on_style_change. destruct (style_truthy st).
  - apply dict_get_set_same.
  - destruct (dict_mem field_styles key) eqn:E;
      [apply dict_get_del_same | now apply dict_mem_false].
Qed.

Lemma on_style_change_other (field_styles : list (string * StyleDict)) (key k : string)
    (st : StyleDict) :
  k <> key -> dict_get (on_style_change field_styles key st) k = dict_get field_styles k.
Proof.
  intros Hne. unfold on_style_change. destruct (style_truthy st).
  - now apply dict_get_set_other.
  - destruct (dict_mem field_styles key); [now apply dict_get_del_other | reflexivity].
Qed.

Lemma on_style_change_default (field_styles : list (string * StyleDict)) (key : string)
    (st : StyleDict) :
  dict_get_default (on_style_change field_styles key st) key empty_dict = st.
Proof.
  unfold dict_get_default. rewrite on_style_change_same.
  destruct (style_truthy st) eqn:E; [reflexivity|].
  symmetry. now apply style_falsy_empty.
Qed.

Lemma style_events_other (key : string) (evs : list style_event) :
  forall dlg field_styles dlg' field_styles',
    style_events key evs dlg field_styles = Some (dlg', field_styles') ->
    forall k, k <> key -> dict_get field_styles' k = dict_get field_styles k.
Proof.
  induction evs as [|ev evs IH]; intros dlg fs dlg' fs' H k Hne; simpl in H.
  - now inversion H.
  - destruct (StyleDialog_handle dlg ev) as [d1|]; [|discriminate].
    rewrite (IH _ _ _ _ H k Hne). now apply on_style_change_other.
Qed.

Lemma dict_get_view (field_styles : list (string * StyleDict)) (k : string) :
  dict_get (styles_view field_styles) k = option_map Style_of (dict_get field_styles k).
Proof.
  induction field_styles as [|[k' d] fs IH]; simpl; [reflexivity|].
  destruct (String.eqb k k'); [reflexivity | exact IH].
Qed.

Lemma drawn_style_get (field_styles : list (string * StyleDict)) (k : string) :
  drawn_style field_styles k = Style_of (dict_get_default field_styles k empty_dict).
Proof.
  unfold drawn_style, dict_get_default. rewrite dict_get_view.
  now destruct (dict_get field_styles k).
Qed.

Lemma style_choice_in_range (key : string) (evs : list style_event) :
  forall dlg field_styles dlg' field_styles',
    style_events key evs dlg field_styles = Some (dlg', field_styles') ->
    style_choice dlg < 4 -> width_choice dlg < 8 ->
    style_choice dlg' < 4 /\ width_choice dlg' < 8.
Proof.
  induction evs as [|ev evs IH]; intros dlg fs dlg' fs' H Hs Hw; simpl in H.
  - inversion H; subst. auto.
  - destruct (StyleDialog_handle dlg ev) as [d1|] eqn:E; [|discriminate].
    apply (IH _ _ _ _ H); destruct ev; simpl in E.
    + inversion E; subst; exact Hs.
    + inversion E; subst; exact Hs.
    + destruct (nth_error LINESTYLES style_idx) eqn:N; [|discriminate].
      inversion E; subst; simpl.
      assert (Hn : nth_error LINESTYLES style_idx <> None) by congruence.
      apply nth_error_Some in Hn. exact Hn.
    + destruct (nth_error LINEWIDTHS width_idx); [|discriminate].
      inversion E; subst; exact Hs.
    + inversion E; subst; exact Hw.
    + inversion E; subst; exact Hw.
    + destruct (nth_error LINESTYLES style_idx); [|discriminate].
      inversion E; subst; exact Hw.
    + destruct (nth_error LINEWIDTHS width_idx) eqn:N; [|discriminate].
      inversion E; subst; simpl.
      assert (Hn : nth_error LINEWIDTHS width_idx <> None) by congruence.
      apply nth_error_Some in Hn. exact Hn.
Qed.

Lemma first_index_bound {A : Type} (p : A -> bool) (l : list A) (i default n : nat) :
  i + List.length l <= n -> default < n -> first_index p l i default < n.
Proof.
  revert i; induction l as [|a l IH]; simpl; intros i Hi Hd; [exact Hd|].
  destruct (p a); [lia|]. apply IH; lia.
Qed.

Lemma StyleDialog_init_in_range (current_style : StyleDict) :
  style_choice (StyleDialog_init current_style) < 4
  /\ width_choice (StyleDialog_init current_style) < 8.
Proof.
  unfold StyleDialog_init; cbn [style_choice width_choice].
  split; apply first_index_bound; simpl; lia.
Qed.

Lemma style_events_saved (key : string) (evs : list style_event) :
  forall dlg field_styles dlg' field_styles',
    style_events key evs dlg field_styles = Some (dlg', field_styles') ->
    style_saved dlg' = style_saved dlg.
Proof.
  induction evs as [|ev evs IH]; intros d f d' f' H; simpl in H.
  - now inversion H.
  - destruct (StyleDialog_handle d ev) as [d1|] eqn:E; [|discriminate].
    rewrite (IH _ _ _ _ H). destruct ev; simpl in E.
    + now inversion E.
    + now inversion E.
    + destruct (nth_error LINESTYLES style_idx); [|discriminate].
      now inversion E.
    + destruct (nth_error LINEWIDTHS width_idx); [|discriminate].
      now inversion E.
Qed.

Lemma original_style_eq (d : StyleDict) :
  (if style_truthy d then d else empty_dict) = d.
Proof.
  destruct (style_truthy d) eqn:E; [reflexivity|].
  symmetry. now apply style_falsy_empty.
Qed.

Lemma get_default_ext {V : Type} (d d' : list (string * V)) (k : string) (v : V) :
  dict_get d' k = dict_get d k -> dict_get_default d' k v = dict_get_default d k v.
Proof. unfold dict_get_default. now intros ->. Qed.

Section StyleDialogFacts.

Variable float_of_str : string -> option float.

Lemma traces_depend_on_drawn_style (fs fs' : list (string * StyleDict)) :
  (forall k, drawn_style fs' k = drawn_style fs k) ->
  (forall shot trim_idx i fld,
     single_field float_of_str shot trim_idx (styles_view fs') i fld
     = single_field float_of_str shot trim_idx (styles_view fs) i fld)
  /\ (forall shot1 shot2 trim1 trim2 i fld,
        compare_field float_of_str shot1 shot2 trim1 trim2 (styles_view fs') i fld
        = compare_field float_of_str shot1 shot2 trim1 trim2 (styles_view fs) i fld).
Proof.
  intros H. split.
  - intros shot trim_idx i [[[path name] unit] sec]. unfold single_field.
    fold (drawn_style fs' (String.concat "." path)).
    fold (drawn_style fs (String.concat "." path)).
    now rewrite H.
  - intros shot1 shot2 trim1 trim2 i [[[path name] unit] sec]. unfold compare_field.
    fold (drawn_style fs' (String.concat "." path)).
    fold (drawn_style fs (String.concat "." path)).
    now rewrite H.
Qed.

(** Cancelling the style dialog undoes every live preview: whatever the
    user did in the dialog, afterwards every key reads the style dict it
    had before the dialog opened, every field is drawn with the style it
    had, and every trace of the plot is the trace it was. *)
Theorem style_dialog_cancel_restores
    (field_styles field_styles' : list (string * StyleDict))
    (key : string) (evs : list style_event)
  (Hrun : _open_style_dialog field_styles key evs CloseCancel = Some field_styles') :
  (forall k, dict_get_default field_styles' k empty_dict
             = dict_get_default field_styles k empty_dict)
  /\ (forall k, drawn_style field_styles' k = drawn_style field_styles k)
  /\ (forall shot trim_idx i fld,
        single_field float_of_str shot trim_idx (styles_view field_styles') i fld
        = single_field float_of_str shot trim_idx (styles_view field_styles) i fld)
  /\ (forall shot1 shot2 trim1 trim2 i fld,
        compare_field float_of_str shot1 shot2 trim1 trim2
          (styles_view field_styles') i fld
        = compare_field float_of_str shot1 shot2 trim1 trim2
            (styles_view field_styles) i fld).
Proof.
  assert (Hget : forall k, dict_get_default field_styles' k empty_dict
                           = dict_get_default field_styles k empty_dict).
  { unfold _open_style_dialog in Hrun.
    destruct (style_events key evs _ field_styles) as [[dlg fs]|] eqn:E;
      [|discriminate].
    rewrite (style_events_saved _ _ _ _ _ _ E) in Hrun. simpl in Hrun.
    inversion Hrun; subst; clear Hrun.
    rewrite original_style_eq. intros k.
    destruct (String.eqb_spec k key) as [->|Hne].
    - apply on_style_change_default.
    - apply get_default_ext. rewrite on_style_change_other by exact Hne.
      exact (style_events_other _ _ _ _ _ _ E k Hne). }
  assert (Hdrawn : forall k, drawn_style field_styles' k = drawn_style field_styles k)
    by (intros k; now rewrite !drawn_style_get, Hget).
  split; [exact Hget|]. split; [exact Hdrawn|].
  now apply traces_depend_on_drawn_style.
Qed.

(** The Defaults button removes the override of the field, whatever the
    user did before pressing it: the key is gone from the styles of the
    frame, the field is drawn with the default style, and no other key is
    touched. *)
Theorem style_dialog_defaults_clears
    (field_styles field_styles' : list (string * StyleDict))
    (key : string) (evs : list style_event)
  (Hrun : _open_style_dialog field_styles key evs CloseDefaults = Some field_styles') :
  dict_get field_styles' key = None
  /\ drawn_style field_styles' key = empty_style
  /\ (forall k, k <> key -> dict_get field_styles' k = dict_get field_styles k).
Proof.
  unfold _open_style_dialog in Hrun.
  destruct (style_events key evs _ field_styles) as [[dlg fs]|] eqn:E;
    [|discriminate].
  simpl in Hrun. inversion Hrun; subst; clear Hrun.
  assert (H : dict_get (on_style_change (on_style_change fs key empty_dict)
                          key empty_dict) key = None)
    by (now rewrite on_style_change_same).
  split; [exact H|]. split.
  - rewrite drawn_style_get. unfold dict_get_default. now rewrite H.
  - intros k Hne. rewrite !on_style_change_other by exact Hne.
    exact (style_events_other _ _ _ _ _ _ E k Hne).
Qed.

(** Saving always succeeds once the events were accepted, and it stores an
    explicit line pattern and width for the field.  Saving a dialog that
    was not touched creates such an override without changing how the
    field is drawn: colour, pattern and width stay what they were, and no
    other key is touched. *)
Theorem style_dialog_save
    (field_styles : list (string * StyleDict)) (key : string) :
  (forall evs dlg fs,
     style_events key evs
       (StyleDialog_init (dict_get_default field_styles key empty_dict)) field_styles
     = Some (dlg, fs) ->
     exists field_styles' st,
       _open_style_dialog field_styles key evs CloseSave = Some field_styles'
       /\ dict_get field_styles' key = Some st
       /\ sd_color st = sd_color (result_style dlg)
       /\ sd_linestyle st <> None
       /\ sd_linewidth st <> None)
  /\ exists field_styles',
       _open_style_dialog field_styles key [] CloseSave = Some field_styles'
       /\ (forall i, color_or_default (style_color (drawn_style field_styles' key)) i
                     = color_or_default (style_color (drawn_style field_styles key)) i)
       /\ configured_linestyle (drawn_style field_styles' key)
          = configured_linestyle (drawn_style field_styles key)
       /\ match style_linewidth (drawn_style field_styles' key) with
          | Some w => w
          | None => f_1_5
          end
          = match style_linewidth (drawn_style field_styles key) with
            | Some w => w
            | None => f_1_5
            end
       /\ (forall k, k <> key -> dict_get field_styles' k = dict_get field_styles k).
Proof.
  split.
  - intros evs dlg fs E. unfold _open_style_dialog. rewrite E.
    destruct (style_choice_in_range _ _ _ _ _ _ E) as [Hs Hw];
      try apply StyleDialog_init_in_range.
    unfold StyleDialog_on_save.
    assert (Hls : exists s, nth_error LINESTYLES (style_choice dlg) = Some s).
    { destruct (nth_error LINESTYLES (style_choice dlg)) eqn:N; [eauto|].
      apply nth_error_None in N. simpl in N. lia. }
    assert (Hlw : exists w, nth_error LINEWIDTHS (width_choice dlg) = Some w).
    { destruct (nth_error LINEWIDTHS (width_choice dlg)) eqn:N; [eauto|].
      apply nth_error_None in N. simpl in N. lia. }
    destruct Hls as [s ->], Hlw as [w ->]. simpl.
    destruct (sd_linestyle (result_style dlg)) as [ls|];
      destruct (sd_linewidth (result_style dlg)) as [lw|]; simpl;
      eexists; eexists; (split; [reflexivity|]);
      rewrite on_style_change_same;
      (match goal with |- context [style_truthy ?d] =>
         replace (style_truthy d) with true
           by (unfold style_truthy; simpl; now destruct (sd_color (result_style dlg)))
       end);
      (split; [reflexivity|]); simpl; repeat split; discriminate.
  - unfold _open_style_dialog. simpl style_events. cbv iota beta.
    set (cur := dict_get_default field_styles key empty_dict).
    assert (Hinit : result_style (StyleDialog_init cur) = cur)
      by (unfold StyleDialog_init; simpl; apply original_style_eq).
    assert (Hsave : exists ls lw,
              StyleDialog_on_save (StyleDialog_init cur)
              = Some {| result_style := {| sd_color := sd_color cur;
                                           sd_linestyle := Some ls;
                                           sd_linewidth := Some lw |};
                        style_choice := style_choice (StyleDialog_init cur);
                        width_choice := width_choice (StyleDialog_init cur);
                        style_saved := true |}
              /\ ls = match sd_linestyle cur with Some s => s | None => "-" end
              /\ lw = match sd_linewidth cur with Some w => w | None => f_1_5 end).
    { unfold StyleDialog_on_save. rewrite Hinit.
      unfold StyleDialog_init. rewrite original_style_eq. simpl.
      destruct cur as [c [ls|] [lw|]]; simpl; eauto 6. }
    destruct Hsave as [ls [lw [-> [Hls Hlw]]]]. simpl.
    eexists. split; [reflexivity|].
    assert (Hst : dict_get_default
                    (on_style_change field_styles key
                       {| sd_color := sd_color cur; sd_linestyle := Some ls;
                          sd_linewidth := Some lw |}) key empty_dict
                  = {| sd_color := sd_color cur; sd_linestyle := Some ls;
                       sd_linewidth := Some lw |})
      by apply on_style_change_default.
    rewrite !drawn_style_get, Hst. fold cur. unfold configured_linestyle. simpl.
    split; [reflexivity|]. split; [now rewrite Hls|]. split; [now rewrite Hlw|].
    intros k Hne. now apply on_style_change_other.
Qed.

End StyleDialogFacts.

Lemma style_dialog_cancel_restores_witness :
  _open_style_dialog
    [("shot.flow", {| sd_color := Some (Some "#d62728");
                      sd_linestyle := None; sd_linewidth := None |})]
    "shot.flow" [PresetColor None; StyleSelected 2] CloseCancel
  = Some [("shot.flow", {| sd_color := Some (Some "#d62728");
                           sd_linestyle := None; sd_linewidth := None |})]
  /\ drawn_style
       [("shot.flow", {| sd_color := Some (Some "#d62728");
                         sd_linestyle := None; sd_linewidth := None |})]
       "shot.flow"
     = {| style_color := Some "#d62728"; style_linestyle := None;
          style_linewidth := None |}.
Proof.
  split; [reflexivity|].
  rewrite <- (proj1 (proj2 (style_dialog_cancel_restores no_numeric_strings
                             [("shot.flow", {| sd_color := Some (Some "#d62728");
                                               sd_linestyle := None;
                                               sd_linewidth := None |})]
                             _ "shot.flow" [PresetColor None; StyleSelected 2]
                             eq_refl)) "shot.flow").
  reflexivity.
Defined.

Lemma style_dialog_defaults_clears_witness :
  _open_style_dialog
    [("shot.flow", {| sd_color := Some (Some "#d62728");
                      sd_linestyle := None; sd_linewidth := None |})]
    "shot.flow" [WidthSelected 3] CloseDefaults
  = Some []
  /\ drawn_style [] "shot.flow" = empty_style.
Proof.
  split; [reflexivity|].
  refine (proj1 (proj2 (style_dialog_defaults_clears
                          [("shot.flow", {| sd_color := Some (Some "#d62728");
                                            sd_linestyle := None;
                                            sd_linewidth := None |})]
                          [] "shot.flow" [WidthSelected 3] _))).
  reflexivity.
Defined.

(** ** [plot_shot] *)

Section PlotShotFacts.

Variable float_of_str : string -> option float.

(** For the series [build_series] returns, every trace [plot_shot] draws
    has one abscissa and one ordinate per record, so no call of [plot] is
    given arrays of different lengths; one trace is drawn per flag that is
    set; the labels of the legend are pairwise distinct; and the left axis
    comes first in the legend. *)
Theorem plot_shot_traces (data : list json) (series : Series) (flags : PlotFlags)
  (Hbuild : build_series float_of_str data = Ok series) :
  Forall (fun t => List.length (trace_x t) = List.length data
                   /\ List.length (trace_y t) = List.length data)
    (legend (plot_shot series flags))
  /\ List.length (legend (plot_shot series flags)) = count_flags flags
  /\ NoDup (map trace_label (legend (plot_shot series flags)))
  /\ Forall (fun t => trace_linestyle t = None \/ trace_linestyle t = Some ":")
       (fst (plot_shot series flags))
  /\ Forall (fun t => trace_linestyle t <> None) (snd (plot_shot series flags)).
Proof.
  pose proof (build_series_lengths float_of_str data series Hbuild) as HL.
  unfold series_lengths in HL.
  repeat match goal with
         | H : Forall _ (_ :: _) |- _ => inversion H; subst; clear H
         end.
  destruct flags as [[] [] [] [] [] [] []]; unfold legend, plot_shot, plot_if;
    cbn [include_pressure include_flow include_motor_speed include_pressure_goal
         include_flow_goal include_motor_power include_motor_power_goal
         fst snd app];
    (split; [repeat constructor; cbn [trace_x trace_y]; assumption|]);
    (split; [vm_compute; reflexivity|]);
    (split; [apply distinct_NoDup; vm_compute; reflexivity|]);
    (split; repeat (apply Forall_cons || apply Forall_nil);
       cbn [trace_linestyle]; auto; discriminate).
Qed.

End PlotShotFacts.

Lemma plot_shot_traces_witness :
  List.length (legend (plot_shot series_two all_flags)) = count_flags all_flags.
Proof.
  refine (proj1 (proj2 (plot_shot_traces no_numeric_strings two_records
                          series_two all_flags _))).
  reflexivity.
Defined.

(** ** The value under the pointer *)

Lemma stored_series_snoc (val : selected_field -> list float -> Prop)
    (series : list (string * list float)) (fields : list hover_field)
    (done : list selected_field) (f : hover_field) (sel : selected_field)
    (v : list float) :
  Forall2 (stored_series val series) fields done ->
  ~ In (selected_key sel) (map selected_key done) ->
  field_key f = selected_key sel -> val sel v ->
  Forall2 (stored_series val (dict_set series (field_key f) v))
    (fields ++ [f]) (done ++ [sel]).
Proof.
  intros H Hfresh Hk Hv. apply Forall2_app.
  - induction H as [|f' sel' fields' done' [Hk' [v' [Hv' Hg]]] _ IH]; constructor.
    + split; [exact Hk'|]. exists v'. split; [exact Hv'|].
      rewrite dict_get_set_other; [exact Hg|].
      rewrite Hk, Hk'. intros E. apply Hfresh. left. now symmetry.
    + apply IH. intros Hin. apply Hfresh. now right.
  - constructor; [|constructor]. split; [exact Hk|]. exists v.
    split; [exact Hv | apply dict_get_set_same].
Qed.

Lemma app_snoc_cons {A : Type} (l : list A) (a : A) (r : list A) :
  l ++ a :: r = (l ++ [a]) ++ r.
Proof. now rewrite <- app_assoc. Qed.

Lemma NoDup_snoc_fresh (done : list selected_field) (sel : selected_field)
    (rest : list selected_field) :
  NoDup (map selected_key (done ++ sel :: rest)) ->
  ~ In (selected_key sel) (map selected_key done)
  /\ NoDup (map selected_key ((done ++ [sel]) ++ rest)).
Proof.
  intros H. split.
  - rewrite map_app in H. simpl in H. apply NoDup_remove_2 in H.
    intros Hin. apply H. apply in_or_app. now left.
  - now rewrite <- app_assoc.
Qed.

Section HoverValueFacts.

Variable float_of_str : string -> option float.

Lemma single_loop_exact (shot : ShotData) (trim_idx : nat)
    (field_styles : list (string * Style)) :
  forall selected i lines series fields lines' series' fields' done,
    single_loop float_of_str shot trim_idx field_styles i selected lines series fields
    = Ok (lines', series', fields') ->
    NoDup (map selected_key (done ++ selected)) ->
    Forall2 (stored_series (trimmed_series float_of_str shot trim_idx) series)
      fields done ->
    Forall2 (stored_series (trimmed_series float_of_str shot trim_idx) series')
      fields' (done ++ selected).
Proof.
  induction selected as [|[[[path name] unit] sec] rest IH];
    intros i lines series fields lines' series' fields' done H Hnd Hst.
  - simpl in H. inversion H; subst. now rewrite app_nil_r.
  - cbn [single_loop] in H.
    destruct (single_field float_of_str shot trim_idx field_styles i
                (path, name, unit, sec)) as [line|e] eqn:Hf; cbn [bind] in H;
      [|discriminate].
    destruct (single_field_inv _ _ _ _ _ _ _ _ _ _ Hf) as [s [Hs [Hx Hy]]].
    destruct (NoDup_snoc_fresh _ _ _ Hnd) as [Hfresh Hnd'].
    rewrite (app_snoc_cons done (path, name, unit, sec) rest).
    eapply IH; [exact H | exact Hnd' |].
    apply (stored_series_snoc _ _ _ _
             (String.concat "." path, name, unit, line_color line));
      [exact Hst | exact Hfresh | reflexivity |].
    exists s. split; [exact Hs | exact Hy].
Qed.

Lemma compare_loop_exact (shot1 shot2 : ShotData) (trim1 trim2 : nat)
    (field_styles : list (string * Style)) :
  forall selected i lines series1 series2 fields lines' series1' series2' fields' done,
    compare_loop float_of_str shot1 shot2 trim1 trim2 field_styles i selected
      lines series1 series2 fields
    = Ok (lines', series1', series2', fields') ->
    NoDup (map selected_key (done ++ selected)) ->
    Forall2 (stored_series (trimmed_series float_of_str shot1 trim1) series1)
      fields done ->
    Forall2 (stored_series (trimmed_series float_of_str shot2 trim2) series2)
      fields done ->
    Forall2 (stored_series (trimmed_series float_of_str shot1 trim1) series1')
      fields' (done ++ selected)
    /\ Forall2 (stored_series (trimmed_series float_of_str shot2 trim2) series2')
         fields' (done ++ selected).
Proof.
  induction selected as [|[[[path name] unit] sec] rest IH];
    intros i lines series1 series2 fields lines' series1' series2' fields' done
           H Hnd Hst1 Hst2.
  - simpl in H. inversion H; subst. now rewrite app_nil_r.
  - cbn [compare_loop] in H.
    destruct (compare_field float_of_str shot1 shot2 trim1 trim2 field_styles i
                (path, name, unit, sec)) as [[line1 line2]|e] eqn:Hf; cbn [bind] in H;
      [|discriminate].
    destruct (compare_field_inv _ _ _ _ _ _ _ _ _ _ _ _ _ Hf)
      as [s1 [s2 [Hs1 [Hs2 [Hx1 [Hy1 [Hx2 Hy2]]]]]]].
    destruct (NoDup_snoc_fresh _ _ _ Hnd) as [Hfresh Hnd'].
    rewrite (app_snoc_cons done (path, name, unit, sec) rest).
    eapply IH; [exact H | exact Hnd' | |].
    + apply (stored_series_snoc _ _ _ _
               (String.concat "." path, name, unit, line_color line1));
        [exact Hst1 | exact Hfresh | reflexivity |].
      exists s1. split; [exact Hs1 | exact Hy1].
    + apply (stored_series_snoc _ _ _ _
               (String.concat "." path, name, unit, line_color line1));
        [exact Hst2 | exact Hfresh | reflexivity |].
      exists s2. split; [exact Hs2 | exact Hy2].
Qed.

Lemma hover_rows_exact_single (val : selected_field -> list float -> Prop)
    (series : list (string * list float)) (idx : nat) :
  forall (fields : list hover_field) (sels : list selected_field),
    Forall2 (stored_series val series) fields sels ->
    exists rows,
      hover_rows
        (fun f : hover_field =>
           let '(key, _, _, _) := f in
           match hover_value series key (Some idx) with
           | Some val => Some (f, val)
           | None => None
           end) fields = Some rows
      /\ Forall2 (fun r sel => exists v, val sel v /\ snd r = nth_error v idx)
           rows sels.
Proof.
  induction 1 as [|f sel fields sels [Hk [v [Hv Hg]]] _ [rows [Hr HF]]].
  - exists []. split; [reflexivity | constructor].
  - exists ((f, nth_error v idx) :: rows). cbn [hover_rows].
    destruct f as [[[key name] unit] c]. unfold field_key in Hg; cbn [fst] in Hg.
    rewrite Hr. unfold hover_value. rewrite Hg. split; [reflexivity|].
    constructor; [|exact HF]. exists v. auto.
Qed.

Lemma hover_rows_exact_compare (val1 val2 : selected_field -> list float -> Prop)
    (series1 series2 : list (string * list float)) (idx1 idx2 : option nat) :
  forall (fields : list hover_field) (sels : list selected_field),
    Forall2 (stored_series val1 series1) fields sels ->
    Forall2 (stored_series val2 series2) fields sels ->
    exists rows,
      hover_rows
        (fun f : hover_field =>
           let '(key, _, _, _) := f in
           match hover_value series1 key idx1 with
           | Some val1 =>
               match hover_value series2 key idx2 with
               | Some val2 => Some (f, val1, val2)
               | None => None
               end
           | None => None
           end) fields = Some rows
      /\ Forall2
           (fun r sel =>
              exists v1 v2,
                val1 sel v1 /\ val2 sel v2
                /\ snd (fst r) = match idx1 with
                                 | Some i => nth_error v1 i
                                 | None => None
                                 end
                /\ snd r = match idx2 with
                           | Some i => nth_error v2 i
                           | None => None
                           end)
           rows sels.
Proof.
  induction 1 as [|f sel fields sels [Hk [v1 [Hv1 Hg1]]] _ IH]; intros H2.
  - exists []. split; [reflexivity | constructor].
  - inversion H2 as [|f' sel' fields' sels' [_ [v2 [Hv2 Hg2]]] H2']; subst.
    destruct (IH H2') as [rows [Hr HF]].
    exists ((f, match idx1 with Some i => nth_error v1 i | None => None end,
             match idx2 with Some i => nth_error v2 i | None => None end) :: rows).
    cbn [hover_rows]. destruct f as [[[key name] unit] c].
    unfold field_key in Hg1, Hg2; cbn [fst] in Hg1, Hg2.
    rewrite Hr. unfold hover_value. rewrite Hg1, Hg2.
    destruct idx1, idx2; (split; [reflexivity|]);
      (constructor; [|exact HF]); exists v1, v2; auto.
Qed.

Lemma nth_error_trimmed (time_s s : list float) (trim_idx idx : nat) :
  idx < List.length (firstn trim_idx time_s) ->
  nth_error (firstn trim_idx s) idx = nth_error s idx.
Proof.
  intros H. pose proof (firstn_le_length trim_idx time_s) as Hle.
  rewrite nth_error_firstn.
  destruct (Nat.ltb_spec idx trim_idx); [reflexivity | lia].
Qed.

Lemma selected_keys_NoDup (field_checkboxes field_secondary : checkboxes) :
  NoDup (map selected_key (_get_selected_fields field_checkboxes field_secondary)).
Proof.
  rewrite selected_keys_filter. apply checked_keys_distinct, registry_keys_distinct.
Qed.

(** The value the hover panel shows for a field.  For the fields selected
    with the check boxes, and whatever the styles and trim settings are,
    the value listed for a field is the sample of the series of its path
    at the index [find_nearest_idx] returns for the trimmed time array of
    the shot: in single-shot mode for the shot shown, in compare mode for
    each of the two shots with its own index. *)
Theorem hover_shows_nearest_sample (shot1 shot2 : option ShotData)
    (shot1_settings shot2_settings : list (string * float)) (compare_cb : bool)
    (field_checkboxes field_secondary : checkboxes)
    (field_styles : list (string * Style))
    (lines : list Line) (plot_data : PlotData) (x : float)
  (Hplot : _update_plot float_of_str shot1 shot2 shot1_settings shot2_settings
             compare_cb (_get_selected_fields field_checkboxes field_secondary)
             field_styles = Ok (lines, plot_data)) :
  match plot_data with
  | PlotEmpty => _on_mouse_move plot_data x = Some HoverNone
  | PlotSingle time _ _ =>
      forall idx, find_nearest_idx time x = Some idx ->
      exists shot rows,
        shot_or shot1 shot2 = Some shot
        /\ _on_mouse_move plot_data x = Some (HoverSingle rows)
        /\ Forall2
             (fun r sel =>
                exists s, get_series float_of_str shot (selected_path sel) = Ok s
                          /\ snd r = nth_error s idx)
             rows (_get_selected_fields field_checkboxes field_secondary)
  | PlotCompare _ _ time1 time2 _ _ _ =>
      exists s1 s2 rows,
        shot1 = Some s1 /\ shot2 = Some s2
        /\ _on_mouse_move plot_data x = Some (HoverCompare rows)
        /\ Forall2
             (fun r sel =>
                exists v1 v2,
                  get_series float_of_str s1 (selected_path sel) = Ok v1
                  /\ get_series float_of_str s2 (selected_path sel) = Ok v2
                  /\ snd (fst r) = match find_nearest_idx time1 x with
                                   | Some i => nth_error v1 i
                                   | None => None
                                   end
                  /\ snd r = match find_nearest_idx time2 x with
                             | Some i => nth_error v2 i
                             | None => None
                             end)
             rows (_get_selected_fields field_checkboxes field_secondary)
  end.
Proof.
  pose proof (selected_keys_NoDup field_checkboxes field_secondary) as Hnd.
  revert Hplot Hnd.
  generalize (_get_selected_fields field_checkboxes field_secondary) as selected.
  intros selected Hplot Hnd. unfold _update_plot in Hplot.
  assert (Hsingle : forall shot settings,
            shot_or shot1 shot2 = Some shot ->
            bind (single_loop float_of_str shot (get_trimmed_data shot settings)
                    field_styles 0 selected [] [] [])
              (fun '(lines, series, fields) =>
                 Ok (lines, PlotSingle (firstn (get_trimmed_data shot settings)
                                          (time_s shot)) series fields))
            = Ok (lines, plot_data) ->
            match plot_data with
            | PlotEmpty => _on_mouse_move plot_data x = Some HoverNone
            | PlotSingle time _ _ =>
                forall idx, find_nearest_idx time x = Some idx ->
                exists shot rows,
                  shot_or shot1 shot2 = Some shot
                  /\ _on_mouse_move plot_data x = Some (HoverSingle rows)
                  /\ Forall2
                       (fun r sel =>
                          exists s,
                            get_series float_of_str shot (selected_path sel) = Ok s
                            /\ snd r = nth_error s idx)
                       rows selected
            | PlotCompare _ _ _ _ _ _ _ => False
            end).
  { intros shot settings Hshot.
    destruct (single_loop float_of_str shot (get_trimmed_data shot settings)
                field_styles 0 selected [] [] []) as [[[ls ser] flds]|e] eqn:E;
      simpl; [|discriminate].
    intros H; inversion H; subst; clear H. intros idx Hidx.
    pose proof (single_loop_exact shot _ field_styles _ _ _ _ _ _ _ _ [] E Hnd
                  (Forall2_nil _)) as Hst. simpl in Hst.
    destruct (hover_rows_exact_single _ ser idx _ _ Hst) as [rows [Hr HF]].
    exists shot, rows. split; [exact Hshot|]. cbn [_on_mouse_move].
    rewrite Hidx, Hr. split; [reflexivity|].
    eapply Forall2_impl; [|exact HF]. intros r sel [v [[s [Hs ->]] Hv]].
    exists s. split; [exact Hs|]. rewrite Hv.
    apply (nth_error_trimmed (time_s shot)).
    pose proof (find_nearest_idx_bound
                  (firstn (get_trimmed_data shot settings) (time_s shot)) x) as Hb.
    now rewrite Hidx in Hb. }
  destruct selected as [|fld rest] eqn:Hsel.
  { destruct shot1, shot2; inversion Hplot; subst; reflexivity. }
  rewrite <- Hsel in *.
  destruct shot1 as [s1|], shot2 as [s2|]; simpl in Hplot.
  - destruct compare_cb.
    + destruct selected as [|f0 r0]; [discriminate|].
      destruct (compare_loop float_of_str s1 s2 (get_trimmed_data s1 shot1_settings)
                  (get_trimmed_data s2 shot2_settings) field_styles 0 (f0 :: r0)
                  [] [] [] []) as [[[[ls ser1] ser2] flds]|e] eqn:E;
        simpl in Hplot; [|discriminate].
      inversion Hplot; subst lines plot_data; clear Hplot.
      destruct (compare_loop_exact s1 s2 _ _ field_styles _ _ _ _ _ _ _ _ _ _ []
                  E Hnd (Forall2_nil _) (Forall2_nil _)) as [Hst1 Hst2].
      simpl in Hst1, Hst2.
      destruct (hover_rows_exact_compare _ _ ser1 ser2
                  (find_nearest_idx (firstn (get_trimmed_data s1 shot1_settings)
                                       (time_s s1)) x)
                  (find_nearest_idx (firstn (get_trimmed_data s2 shot2_settings)
                                       (time_s s2)) x)
                  _ _ Hst1 Hst2) as [rows [Hr HF]].
      exists s1, s2, rows. split; [reflexivity|]. split; [reflexivity|].
      cbn [_on_mouse_move]. rewrite Hr. split; [reflexivity|].
      eapply Forall2_impl; [|exact HF].
      intros r sel [v1 [v2 [[t1 [Ht1 ->]] [[t2 [Ht2 ->]] [H1 H2]]]]].
      exists t1, t2. split; [exact Ht1|]. split; [exact Ht2|].
      rewrite H1, H2. split.
      * pose proof (find_nearest_idx_bound
                      (firstn (get_trimmed_data s1 shot1_settings) (time_s s1)) x) as Hb.
        destruct (find_nearest_idx
                    (firstn (get_trimmed_data s1 shot1_settings) (time_s s1)) x);
          [|reflexivity].
        now apply (nth_error_trimmed (time_s s1)).
      * pose proof (find_nearest_idx_bound
                      (firstn (get_trimmed_data s2 shot2_settings) (time_s s2)) x) as Hb.
        destruct (find_nearest_idx
                    (firstn (get_trimmed_data s2 shot2_settings) (time_s s2)) x);
          [|reflexivity].
        now apply (nth_error_trimmed (time_s s2)).
    + destruct selected as [|f0 r0]; [discriminate|].
      specialize (Hsingle s1 shot1_settings eq_refl Hplot).
      destruct plot_data; [exact Hsingle | exact Hsingle | contradiction].
  - destruct selected as [|f0 r0]; [discriminate|].
    assert (H : bind (single_loop float_of_str s1 (get_trimmed_data s1 shot1_settings)
                        field_styles 0 (f0 :: r0) [] [] [])
                  (fun '(lines, series, fields) =>
                     Ok (lines, PlotSingle (firstn (get_trimmed_data s1 shot1_settings)
                                              (time_s s1)) series fields))
                = Ok (lines, plot_data))
      by (destruct compare_cb; exact Hplot).
    specialize (Hsingle s1 shot1_settings eq_refl H).
    destruct plot_data; [exact Hsingle | exact Hsingle | contradiction].
  - destruct selected as [|f0 r0]; [discriminate|].
    assert (H : bind (single_loop float_of_str s2 (get_trimmed_data s2 shot2_settings)
                        field_styles 0 (f0 :: r0) [] [] [])
                  (fun '(lines, series, fields) =>
                     Ok (lines, PlotSingle (firstn (get_trimmed_data s2 shot2_settings)
                                              (time_s s2)) series fields))
                = Ok (lines, plot_data))
      by (destruct compare_cb; exact Hplot).
    specialize (Hsingle s2 shot2_settings eq_refl H).
    destruct plot_data; [exact Hsingle | exact Hsingle | contradiction].
  - inversion Hplot; subst; reflexivity.
Qed.

End HoverValueFacts.

Lemma hover_shows_nearest_sample_witness :
  exists shot rows,
    shot_or (Some shot_two) None = Some shot
    /\ _on_mouse_move (snd plot_two) (f_of_Z 1) = Some (HoverSingle rows)
    /\ Forall2
         (fun r sel =>
            exists s, get_series no_numeric_strings shot (selected_path sel) = Ok s
                      /\ snd r = nth_error s 1)
         rows (_get_selected_fields (fst _create_checkboxes) (snd _create_checkboxes)).
Proof.
  refine (hover_shows_nearest_sample no_numeric_strings (Some shot_two) None
            [] [] false (fst _create_checkboxes) (snd _create_checkboxes) []
            (fst plot_two) (snd plot_two) (f_of_Z 1) _ 1 _).
  - vm_compute. reflexivity.
  - vm_compute. reflexivity.
Defined.

(** ** Sessions *)

Lemma dict_get_absent {V : Type} (d : list (string * V)) (k : string) :
  ~ In k (map fst d) -> dict_get d k = None.
Proof.
  induction d as [|[k' v] d IH]; simpl; intros H; [reflexivity|].
  destruct (String.eqb_spec k k') as [->|Hne]; [exfalso; auto|]. apply IH. auto.
Qed.

Lemma dict_set_keys {V : Type} (d : list (string * V)) (k : string) (v : V) :
  dict_mem d k = true -> map fst (dict_set d k v) = map fst d.
Proof.
  unfold dict_mem. induction d as [|[k' v'] d IH]; simpl; [discriminate|].
  destruct (String.eqb_spec k k') as [->|Hne]; simpl; [reflexivity|].
  intros H. now rewrite IH.
Qed.

Lemma dict_mem_set {V : Type} (d : list (string * V)) (k k' : string) (v : V) :
  dict_mem d k = true -> dict_mem (dict_set d k v) k' = dict_mem d k'.
Proof.
  intros H. unfold dict_mem in *.
  destruct (String.eqb_spec k' k) as [->|Hne].
  - rewrite dict_get_set_same. now destruct (dict_get d k).
  - now rewrite dict_get_set_other.
Qed.

Lemma same_keys_same_lookups {V : Type} (a b : list (string * V)) :
  map fst a = map fst b -> NoDup (map fst a) ->
  (forall k, dict_get a k = dict_get b k) -> a = b.
Proof.
  revert b; induction a as [|[k v] a IH]; intros [|[k' v'] b] Hk Hnd Hg;
    simpl in Hk; try discriminate; [reflexivity|].
  inversion Hk; subst k'. inversion Hnd; subst.
  pose proof (Hg k) as H0. simpl in H0. rewrite String.eqb_refl in H0.
  inversion H0; subst v'. f_equal. apply IH; [assumption | assumption |].
  intros k0. destruct (String.eqb_spec k0 k) as [->|Hne].
  - rewrite !dict_get_absent; [reflexivity | congruence | assumption].
  - specialize (Hg k0). simpl in Hg.
    destruct (String.eqb_spec k0 k); [contradiction | exact Hg].
Qed.

Lemma restore_boxes_keys (saved : checkboxes) :
  forall boxes, map fst (restore_boxes saved boxes) = map fst boxes.
Proof.
  unfold restore_boxes. induction saved as [|[k v] saved IH]; intros boxes; simpl;
    [reflexivity|].
  rewrite IH. destruct (dict_mem boxes k) eqn:E; [now apply dict_set_keys | reflexivity].
Qed.

Lemma dict_get_cons {V : Type} (d : list (string * V)) (k k0 : string) (v0 : V) :
  dict_get ((k0, v0) :: d) k = if String.eqb k k0 then Some v0 else dict_get d k.
Proof. reflexivity. Qed.

Lemma dict_mem_cons {V : Type} (d : list (string * V)) (k k0 : string) (v0 : V) :
  dict_mem ((k0, v0) :: d) k = String.eqb k k0 || dict_mem d k.
Proof. unfold dict_mem. rewrite dict_get_cons. now destruct (String.eqb k k0). Qed.

Lemma restore_boxes_cons (k0 : string) (v0 : bool) (saved boxes : checkboxes) :
  restore_boxes ((k0, v0) :: saved) boxes
  = restore_boxes saved (if dict_mem boxes k0 then dict_set boxes k0 v0 else boxes).
Proof. reflexivity. Qed.

Lemma restore_boxes_get (saved : checkboxes) :
  NoDup (map fst saved) ->
  forall boxes k,
    dict_get (restore_boxes saved boxes) k
    = if dict_mem boxes k && dict_mem saved k then dict_get saved k
      else dict_get boxes k.
Proof.
  induction saved as [|[k0 v0] saved IH]; intros Hnd boxes k.
  - unfold restore_boxes. simpl. now rewrite andb_false_r.
  - inversion Hnd; subst. rewrite restore_boxes_cons, (IH H2). clear IH.
    rewrite dict_mem_cons, dict_get_cons.
    destruct (String.eqb_spec k k0) as [->|Hne].
    + assert (Hs : dict_mem saved k0 = false)
        by (unfold dict_mem; now rewrite dict_get_absent).
      rewrite Hs, andb_false_r. simpl. rewrite andb_true_r.
      destruct (dict_mem boxes k0) eqn:E.
      * apply dict_get_set_same.
      * reflexivity.
    + simpl. destruct (dict_mem boxes k0) eqn:E.
      * rewrite dict_mem_set by exact E. now rewrite dict_get_set_other.
      * reflexivity.
Qed.

Lemma dict_mem_keys {V : Type} (a b : list (string * V)) (k : string) :
  map fst a = map fst b -> dict_mem a k = dict_mem b k.
Proof.
  unfold dict_mem. revert b; induction a as [|[k1 v1] a IH]; intros [|[k2 v2] b] H;
    simpl in *; try discriminate; [reflexivity|].
  inversion H; subst. destruct (String.eqb k k2); [reflexivity | now apply IH].
Qed.

Lemma restore_boxes_same_keys (saved boxes : checkboxes) :
  NoDup (map fst saved) -> map fst boxes = map fst saved ->
  restore_boxes saved boxes = saved.
Proof.
  intros Hnd Hk. apply same_keys_same_lookups.
  - now rewrite restore_boxes_keys.
  - now rewrite restore_boxes_keys, Hk.
  - intros k. rewrite (restore_boxes_get saved Hnd).
    rewrite (dict_mem_keys boxes saved k Hk), andb_diag.
    destruct (dict_mem saved k) eqn:E; [reflexivity|].
    rewrite (dict_mem_false _ _ E).
    apply dict_mem_false. now rewrite (dict_mem_keys boxes saved k Hk).
Qed.

(** Saving a session and loading it again restores the selection: whatever
    is checked when the session is loaded, afterwards the check boxes are
    in the state they were saved in and the same fields are selected, with
    the same axis flags.  Loading any session, with keys the frame does
    not know or without some it knows, never adds or removes a check
    box. *)
Theorem session_restores_selection
    (field_checkboxes field_secondary : checkboxes)
    (current_checkboxes current_secondary : checkboxes)
  (Hsaved1 : map fst field_checkboxes = map data_key DATA_FIELDS)
  (Hsaved2 : map fst field_secondary = map data_key DATA_FIELDS)
  (Hcur1 : map fst current_checkboxes = map data_key DATA_FIELDS)
  (Hcur2 : map fst current_secondary = map data_key DATA_FIELDS) :
  restore_boxes (saved_boxes field_checkboxes) current_checkboxes = field_checkboxes
  /\ restore_boxes (saved_boxes field_secondary) current_secondary = field_secondary
  /\ _get_selected_fields
       (restore_boxes (saved_boxes field_checkboxes) current_checkboxes)
       (restore_boxes (saved_boxes field_secondary) current_secondary)
     = _get_selected_fields field_checkboxes field_secondary
  /\ (forall saved, map fst (restore_boxes saved current_checkboxes)
                    = map fst current_checkboxes).
Proof.
  assert (Hid : forall boxes : checkboxes, saved_boxes boxes = boxes).
  { intros boxes. unfold saved_boxes. rewrite <- (map_id boxes) at 2.
    apply map_ext. now intros [k v]. }
  rewrite !Hid.
  assert (H1 : restore_boxes field_checkboxes current_checkboxes = field_checkboxes).
  { apply restore_boxes_same_keys; [rewrite Hsaved1; apply registry_keys_distinct|].
    congruence. }
  assert (H2 : restore_boxes field_secondary current_secondary = field_secondary).
  { apply restore_boxes_same_keys; [rewrite Hsaved2; apply registry_keys_distinct|].
    congruence. }
  rewrite H1, H2. repeat split. intros saved. apply restore_boxes_keys.
Qed.

Lemma session_restores_selection_witness :
  restore_boxes (saved_boxes (_select_shot (fst _create_checkboxes)))
    (fst _create_checkboxes)
  = _select_shot (fst _create_checkboxes).
Proof.
  refine (proj1 (session_restores_selection (_select_shot (fst _create_checkboxes))
                   (snd _create_checkboxes) (fst _create_checkboxes)
                   (snd _create_checkboxes) _ _ _ _)).
  - vm_compute. reflexivity.
  - vm_compute. reflexivity.
  - vm_compute. reflexivity.
  - vm_compute. reflexivity.
Defined.
